(** * Inventory search: [search_inventory] of search.py and main.py

    The development embeds the query tokenizer ([str.split]), the part of
    Python's [re] module that the program calls ([re.escape], [re.compile]
    with [re.IGNORECASE], [Pattern.search]) and the two copies of
    [search_inventory], and proves the properties of the search stated in
    the specification.

    The search is modelled twice.  In the modules [Str], [Re], [Search]
    and [Main], and in everything about main.py, a Python string is a
    list of code points in the range U+0000..U+00FF (Rocq's 8-bit
    [ascii]), with CPython's character tables restricted to that range.
    In the module [Unicode] a string is a list of arbitrary code
    points, with the complete tables; the properties that depend on the
    case of letters are proved there, and the first model is proved to
    be the second on the strings below U+0100. *)

From Stdlib Require Import Ascii String NArith.
From stdpp Require Import base option list gmap.

Local Open Scope N_scope.

(** A Python [str]. *)
Definition str : Type := list ascii.

(** String literals of the examples. *)
Definition py (s : string) : str := list_ascii_of_string s.

Definition ord (c : ascii) : N := N_of_ascii c.
Definition chr (n : N) : ascii := ascii_of_N n.

Definition in_range (lo hi n : N) : bool := (lo <=? n) && (n <=? hi).

(** Every code point of the range, in order. *)
Definition all_ascii : list ascii := map ascii_of_nat (seq 0 256).

(** Truthiness of an optional object, as tested by [all] and [if]. *)
Definition truthy {A} (o : option A) : bool :=
  match o with Some _ => true | None => false end.

(** ** Built-in string operations *)
Module Str.

(** [Py_UNICODE_ISSPACE]: the characters [str.split()] splits on. *)
Definition isspace (c : ascii) : bool :=
  let n := ord c in
  in_range 9 13 n || in_range 28 32 n || (n =? 133) || (n =? 160).

(** [Py_UNICODE_TOLOWER]; on this range the full mapping used by
    [str.lower] and the simple one used by [re] coincide. *)
Definition tolower (c : ascii) : ascii :=
  let n := ord c in
  if in_range 65 90 n || in_range 192 214 n || in_range 216 222 n
  then chr (n + 32) else c.

(** [s.lower()] *)
Definition lower (s : str) : str := map tolower s.

(** The word accumulated so far is emitted when a separator or the end
    of the string is reached; empty words are never emitted. *)
Definition emit (word : str) : list str :=
  match word with [] => [] | _ :: _ => [word] end.

(** The scan of [s.split()]: [word] holds the characters of the current
    run of non-whitespace characters. *)
Fixpoint split_from (word s : str) : list str :=
  match s with
  | [] => emit word
  | c :: s' =>
      if isspace c then emit word ++ split_from [] s'
      else split_from (word ++ [c]) s'
  end.

(** [s.split()] *)
Definition split (s : str) : list str := split_from [] s.

End Str.

(** ** The fragment of the [re] module used by the search *)
Module Re.

(** [re._special_chars_map]: the characters [re.escape] prefixes with a
    backslash. *)
Definition special_chars : str :=
  py "()[]{}?*+-|^$\.&~# " ++ map chr [9; 10; 13; 11; 12].

Definition is_special (c : ascii) : bool :=
  existsb (Ascii.eqb c) special_chars.

(** [re.escape(pattern)]: [pattern.translate(_special_chars_map)] *)
Definition escape (pattern : str) : str :=
  flat_map (fun c => if is_special c then ["\"%char; c] else [c]) pattern.

(** Parsed pattern items ([re._parser]). *)
Inductive node :=
| LITERAL (av : ascii)
| ANY
| AT_BEGINNING
| AT_END.

Definition is_ascii_alnum (c : ascii) : bool :=
  let n := ord c in
  in_range 48 57 n || in_range 65 90 n || in_range 97 122 n.

(** [_parser.SPECIAL_CHARS] without the three characters handled one by
    one in [parse]: these open or close a class, a group, a repetition
    or an alternative. *)
Definition is_operator (c : ascii) : bool :=
  existsb (Ascii.eqb c) (py "[{()*+?|").

(** [_parser.parse] on patterns made of literal characters, escaped
    characters, [.], [^] and [$].  [None] stands for [re.error] and for
    the constructs left out here: classes, groups, repetitions,
    alternatives, and the escapes made of a backslash and an ASCII
    letter or digit. *)
Fixpoint parse (source : str) : option (list node) :=
  match source with
  | [] => Some []
  | this :: rest =>
      if Ascii.eqb this "\" then
        match rest with
        | [] => None
        | c :: rest' =>
            if is_ascii_alnum c then None
            else cons (LITERAL c) <$> parse rest'
        end
      else if Ascii.eqb this "." then cons ANY <$> parse rest
      else if Ascii.eqb this "^" then cons AT_BEGINNING <$> parse rest
      else if Ascii.eqb this "$" then cons AT_END <$> parse rest
      else if is_operator this then None
      else cons (LITERAL this) <$> parse rest
  end.

(** [_sre.unicode_iscased] *)
Definition unicode_iscased (c : ascii) : bool :=
  let n := ord c in
  in_range 65 90 n || in_range 97 122 n || (n =? 181)
  || in_range 192 214 n || in_range 216 246 n || in_range 248 255 n.

Definition unicode_tolower : ascii -> ascii := Str.tolower.

(** [re._casefix._EXTRA_CASES], the entries whose key is below U+0100:
    lower-case characters that share their upper case with the key. *)
Definition EXTRA_CASES (lo : N) : option (list N) :=
  if lo =? 105 then Some [305]
  else if lo =? 115 then Some [383]
  else if lo =? 181 then Some [956]
  else None.

(** Compiled operations ([re._compiler]); operands are code points. *)
Inductive op :=
| OP_LITERAL (code : N)
| OP_LITERAL_UNI_IGNORE (lo : N)
| OP_IN_UNI_IGNORE (set : list N)
| OP_ANY
| OP_AT_BEGINNING
| OP_AT_END.

(** The flags argument of [re.compile]: only [re.IGNORECASE] is used. *)
Record flags := { IGNORECASE : bool }.

(** [_compiler._compile] on one item of a [str] pattern. *)
Definition compile_node (f : flags) (n : node) : op :=
  match n with
  | LITERAL av =>
      if negb (IGNORECASE f) then OP_LITERAL (ord av)
      else if negb (unicode_iscased av) then OP_LITERAL (ord av)
      else
        let lo := ord (unicode_tolower av) in
        match EXTRA_CASES lo with
        | None => OP_LITERAL_UNI_IGNORE lo
        | Some fixes => OP_IN_UNI_IGNORE (lo :: fixes)
        end
  | ANY => OP_ANY
  | AT_BEGINNING => OP_AT_BEGINNING
  | AT_END => OP_AT_END
  end.

(** A compiled pattern object. *)
Record Pattern := { code : list op }.

(** [re.compile(pattern, flags)] *)
Definition compile (pattern : str) (f : flags) : option Pattern :=
  p ← parse pattern; Some {| code := map (compile_node f) p |}.

Definition linebreak : ascii := chr 10.

(** One operation that consumes the character [ch]. *)
Definition op_match (o : op) (ch : ascii) : bool :=
  match o with
  | OP_LITERAL c => ord ch =? c
  | OP_LITERAL_UNI_IGNORE lo => ord (unicode_tolower ch) =? lo
  | OP_IN_UNI_IGNORE set => existsb (N.eqb (ord (unicode_tolower ch))) set
  | OP_ANY => negb (Ascii.eqb ch linebreak)
  | OP_AT_BEGINNING | OP_AT_END => false
  end.

(** The matching engine at one position: [at_start] tells whether the
    position is the beginning of the string, [rest] is the text from
    the position on.  Returns the number of characters matched. *)
Fixpoint match_here (ops : list op) (at_start : bool) (rest : str)
  : option nat :=
  match ops with
  | [] => Some 0%nat
  | OP_AT_BEGINNING :: ops' =>
      if at_start then match_here ops' at_start rest else None
  | OP_AT_END :: ops' =>
      match rest with
      | [] => match_here ops' at_start rest
      | [c] => if Ascii.eqb c linebreak
               then match_here ops' at_start rest else None
      | _ => None
      end
  | o :: ops' =>
      match rest with
      | [] => None
      | ch :: rest' =>
          if op_match o ch then S <$> match_here ops' false rest'
          else None
      end
  end.

(** A match object: the span of the match. *)
Record Match := { m_start : nat; m_end : nat }.

(** The scan of [Pattern.search]: the leftmost position, from [pos] on,
    at which the pattern matches. *)
Fixpoint search_from (ops : list op) (pos : nat) (rest : str)
  : option Match :=
  match match_here ops (Nat.eqb pos 0) rest with
  | Some n => Some {| m_start := pos; m_end := (pos + n)%nat |}
  | None =>
      match rest with
      | [] => None
      | _ :: rest' => search_from ops (S pos) rest'
      end
  end.

(** [pattern.search(string)] *)
Definition search (pattern : Pattern) (s : str) : option Match :=
  search_from (code pattern) 0 s.

End Re.

(** ** search.py *)
Module Search.

(** [search_inventory(query, inventory)]; [None] when building the
    patterns raises. *)
Definition search_inventory (query : str) (inventory : list str)
  : option (list str) :=
  let search_terms := Str.split query in
  regex_patterns ←
    mapM (fun term => Re.compile (Re.escape term) {| Re.IGNORECASE := true |})
         search_terms;
  Some (fold_left
          (fun search_output item =>
             if forallb (fun pattern => truthy (Re.search pattern item))
                        regex_patterns
             then search_output ++ [item]
             else search_output)
          inventory []).

End Search.

(** ** main.py *)
Module Main.

(** A [Dict[str, int]] from item name to price: the entries in
    insertion order, which is the order in which [keys()] iterates. *)
Definition dict : Type := list (str * Z).

(** [d.keys()] *)
Definition keys (d : dict) : list str := map fst d.

(** [d[name] = price]: an existing key keeps its place, a new key goes
    to the end ([load_warehouse_inventory] builds the catalogue so). *)
Fixpoint setitem (d : dict) (name : str) (price : Z) : dict :=
  match d with
  | [] => [(name, price)]
  | (k, v) :: d' =>
      if decide (k = name) then (k, price) :: d'
      else (k, v) :: setitem d' name price
  end.

(** [search_inventory(query, inventory)] of main.py *)
Definition search_inventory (query : str) (inventory : dict)
  : option (list str) :=
  let search_terms := Str.split query in
  regex_patterns ←
    mapM (fun term => Re.compile (Re.escape term) {| Re.IGNORECASE := true |})
         search_terms;
  Some (fold_left
          (fun search_output item_name =>
             if forallb (fun pattern => truthy (Re.search pattern item_name))
                        regex_patterns
             then search_output ++ [item_name]
             else search_output)
          (keys inventory) []).

End Main.

(** ** search.py on a store of list objects

    The same function body with the list objects made explicit: the
    caller's [inventory] is a reference into a store of mutable lists,
    [search_output] is a list allocated by the call, and the [for] loop
    reads [inventory] through its reference at every step, as Python's
    list iterator does. *)

Inductive outcome (A : Type) : Type :=
| Done (a : A)
| Raised
| OutOfFuel.
Arguments Done {A} a.
Arguments Raised {A}.
Arguments OutOfFuel {A}.

Module Heap.

Definition loc : Type := positive.

(** [[]]: a new list object at an unused address. *)
Definition new_list (h : gmap loc (list str)) : loc * gmap loc (list str) :=
  let l := fresh (dom h) in (l, <[l := []]> h).

(** [l.append(x)] *)
Definition append (l : loc) (x : str) (h : gmap loc (list str))
  : option (gmap loc (list str)) :=
  items ← h !! l; Some (<[l := items ++ [x]]> h).

(** [for item in inventory: if all(...): search_output.append(item)],
    from position [index] of the iterator on. *)
Fixpoint for_loop (fuel : nat) (regex_patterns : list Re.Pattern)
    (inventory search_output : loc) (index : nat)
    (h : gmap loc (list str)) : outcome (gmap loc (list str)) :=
  match fuel with
  | O => OutOfFuel
  | S fuel' =>
      match h !! inventory with
      | None => Raised
      | Some items =>
          match items !! index with
          | None => Done h
          | Some item =>
              if forallb (fun pattern => truthy (Re.search pattern item))
                         regex_patterns
              then
                match append search_output item h with
                | None => Raised
                | Some h' =>
                    for_loop fuel' regex_patterns inventory search_output
                             (S index) h'
                end
              else
                for_loop fuel' regex_patterns inventory search_output
                         (S index) h
          end
      end
  end.

(** [search_inventory(query, inventory)]: returns the reference to the
    result list and the store after the call. *)
Definition search_inventory (fuel : nat) (query : str) (inventory : loc)
    (h : gmap loc (list str)) : outcome (loc * gmap loc (list str)) :=
  let search_terms := Str.split query in
  match mapM (fun term =>
                Re.compile (Re.escape term) {| Re.IGNORECASE := true |})
             search_terms with
  | None => Raised
  | Some regex_patterns =>
      let '(search_output, h1) := new_list h in
      match for_loop fuel regex_patterns inventory search_output 0 h1 with
      | Done h2 => Done (search_output, h2)
      | Raised => Raised
      | OutOfFuel => OutOfFuel
      end
  end.

End Heap.

(** ** The notions of the specification *)

(** The call [e] returns a value, and the value satisfies [P]. *)
Definition returns {A} (e : option A) (P : A -> Prop) : Prop :=
  exists r, e = Some r /\ P r.

Definition no_space (t : str) : Prop := Forall (fun c => Str.isspace c = false) t.

Definition all_space (q : str) : Prop := Forall (fun c => Str.isspace c = true) q.

(** [t] is a whitespace-delimited token of [q]: a non-empty run of
    non-whitespace characters of [q] with whitespace or an end of [q] on
    each side. *)
Definition is_token (q t : str) : Prop :=
  t <> [] /\ no_space t /\
  exists pre post, q = pre ++ t ++ post /\
    (pre = [] \/ exists pre' w, pre = pre' ++ [w] /\ Str.isspace w = true) /\
    (post = [] \/ exists w post', post = w :: post' /\ Str.isspace w = true).

(** Two strings are equal up to letter case. *)
Definition eq_ignoring_case (a b : str) : Prop := Str.lower a = Str.lower b.

#[global] Instance no_space_dec (t : str) : Decision (no_space t).
Proof. unfold no_space. apply _. Defined.

#[global] Instance all_space_dec (q : str) : Decision (all_space q).
Proof. unfold all_space. apply _. Defined.

#[global] Instance eq_ignoring_case_dec (a b : str) :
  Decision (eq_ignoring_case a b).
Proof. unfold eq_ignoring_case. apply _. Defined.

(** [t] occurs in [c] as a substring under case-insensitive comparison. *)
Definition contains_ignoring_case (c t : str) : Prop :=
  exists pre mid post, c = pre ++ mid ++ post /\ eq_ignoring_case mid t.

(** The literal matcher of a term: one case-insensitive literal operation
    per character of the term. *)
Definition literal_code (t : str) : list Re.op :=
  map (fun c => Re.compile_node {| Re.IGNORECASE := true |} (Re.LITERAL c)) t.

(** The pattern object built for a term. *)
Definition term_pattern (t : str) : Re.Pattern := {| Re.code := literal_code t |}.

(** The test of the loop body: every pattern of the query is found in
    [item]. *)
Definition accepts (query item : str) : bool :=
  forallb (fun pattern => truthy (Re.search pattern item))
          (map term_pattern (Str.split query)).

(** ** The search on strings of arbitrary code points

    [str.split], [re.escape], [re.compile] with [re.IGNORECASE] and
    [Pattern.search] once more, with a character being any code point.
    The character tables are those of CPython 3.11 (Unicode 14.0.0).
    The modules [Str], [Re] and [Search] above are this model on the
    code points below U+0100 ([search_inventory_latin1] below). *)
Module Unicode.

(** A Python [str]: its code points. *)
Definition str : Type := list N.

(** ASCII string literals of the examples. *)
Definition py (s : string) : str := map ord (list_ascii_of_string s).

(** The value stored for [k] in a table of pairs. *)
Fixpoint assoc {V} (k : N) (table : list (N * V)) : option V :=
  match table with
  | [] => None
  | (k', v) :: table' => if k =? k' then Some v else assoc k table'
  end.

(** The case tables list runs of code points: the row
    [(first, count, step, target)] maps [first + i * step] to
    [target + i * step] for every [i] below [count]. *)
Definition row_pairs (row : N * N * N * N) : list (N * N) :=
  let '(first, count, step, target) := row in
  map (fun i => (first + N.of_nat i * step, target + N.of_nat i * step))
      (seq 0 (N.to_nat count)).

(** [_PyUnicode_IsWhitespace]: the characters [str.split()] splits on. *)
Definition whitespace : list N :=
  [
    0x9; 0xA; 0xB; 0xC; 0xD; 0x1C; 0x1D; 0x1E; 0x1F; 0x20; 0x85; 0xA0;
    0x1680; 0x2000; 0x2001; 0x2002; 0x2003; 0x2004; 0x2005; 0x2006; 0x2007;
    0x2008; 0x2009; 0x200A; 0x2028; 0x2029; 0x202F; 0x205F; 0x3000
  ].

Definition isspace (c : N) : bool := existsb (N.eqb c) whitespace.

(** The characters with a lower case other than themselves. *)
Definition lower_rows : list (N * N * N * N) :=
  [
    (0x41, 26, 1, 0x61); (0xC0, 23, 1, 0xE0); (0xD8, 7, 1, 0xF8);
    (0x100, 24, 2, 0x101); (0x130, 1, 1, 0x69); (0x132, 3, 2, 0x133);
    (0x139, 8, 2, 0x13A); (0x14A, 23, 2, 0x14B); (0x178, 1, 1, 0xFF);
    (0x179, 3, 2, 0x17A); (0x181, 1, 1, 0x253); (0x182, 2, 2, 0x183);
    (0x186, 1, 1, 0x254); (0x187, 1, 1, 0x188); (0x189, 2, 1, 0x256);
    (0x18B, 1, 1, 0x18C); (0x18E, 1, 1, 0x1DD); (0x18F, 1, 1, 0x259);
    (0x190, 1, 1, 0x25B); (0x191, 1, 1, 0x192); (0x193, 1, 1, 0x260);
    (0x194, 1, 1, 0x263); (0x196, 1, 1, 0x269); (0x197, 1, 1, 0x268);
    (0x198, 1, 1, 0x199); (0x19C, 1, 1, 0x26F); (0x19D, 1, 1, 0x272);
    (0x19F, 1, 1, 0x275); (0x1A0, 3, 2, 0x1A1); (0x1A6, 1, 1, 0x280);
    (0x1A7, 1, 1, 0x1A8); (0x1A9, 1, 1, 0x283); (0x1AC, 1, 1, 0x1AD);
    (0x1AE, 1, 1, 0x288); (0x1AF, 1, 1, 0x1B0); (0x1B1, 2, 1, 0x28A);
    (0x1B3, 2, 2, 0x1B4); (0x1B7, 1, 1, 0x292); (0x1B8, 1, 1, 0x1B9);
    (0x1BC, 1, 1, 0x1BD); (0x1C4, 1, 1, 0x1C6); (0x1C5, 1, 1, 0x1C6);
    (0x1C7, 1, 1, 0x1C9); (0x1C8, 1, 1, 0x1C9); (0x1CA, 1, 1, 0x1CC);
    (0x1CB, 9, 2, 0x1CC); (0x1DE, 9, 2, 0x1DF); (0x1F1, 1, 1, 0x1F3);
    (0x1F2, 2, 2, 0x1F3); (0x1F6, 1, 1, 0x195); (0x1F7, 1, 1, 0x1BF);
    (0x1F8, 20, 2, 0x1F9); (0x220, 1, 1, 0x19E); (0x222, 9, 2, 0x223);
    (0x23A, 1, 1, 0x2C65); (0x23B, 1, 1, 0x23C); (0x23D, 1, 1, 0x19A);
    (0x23E, 1, 1, 0x2C66); (0x241, 1, 1, 0x242); (0x243, 1, 1, 0x180);
    (0x244, 1, 1, 0x289); (0x245, 1, 1, 0x28C); (0x246, 5, 2, 0x247);
    (0x370, 2, 2, 0x371); (0x376, 1, 1, 0x377); (0x37F, 1, 1, 0x3F3);
    (0x386, 1, 1, 0x3AC); (0x388, 3, 1, 0x3AD); (0x38C, 1, 1, 0x3CC);
    (0x38E, 2, 1, 0x3CD); (0x391, 17, 1, 0x3B1); (0x3A3, 9, 1, 0x3C3);
    (0x3CF, 1, 1, 0x3D7); (0x3D8, 12, 2, 0x3D9); (0x3F4, 1, 1, 0x3B8);
    (0x3F7, 1, 1, 0x3F8); (0x3F9, 1, 1, 0x3F2); (0x3FA, 1, 1, 0x3FB);
    (0x3FD, 3, 1, 0x37B); (0x400, 16, 1, 0x450); (0x410, 32, 1, 0x430);
    (0x460, 17, 2, 0x461); (0x48A, 27, 2, 0x48B); (0x4C0, 1, 1, 0x4CF);
    (0x4C1, 7, 2, 0x4C2); (0x4D0, 48, 2, 0x4D1); (0x531, 38, 1, 0x561);
    (0x10A0, 38, 1, 0x2D00); (0x10C7, 1, 1, 0x2D27); (0x10CD, 1, 1, 0x2D2D);
    (0x13A0, 80, 1, 0xAB70); (0x13F0, 6, 1, 0x13F8); (0x1C90, 43, 1, 0x10D0);
    (0x1CBD, 3, 1, 0x10FD); (0x1E00, 75, 2, 0x1E01); (0x1E9E, 1, 1, 0xDF);
    (0x1EA0, 48, 2, 0x1EA1); (0x1F08, 8, 1, 0x1F00); (0x1F18, 6, 1, 0x1F10);
    (0x1F28, 8, 1, 0x1F20); (0x1F38, 8, 1, 0x1F30); (0x1F48, 6, 1, 0x1F40);
    (0x1F59, 4, 2, 0x1F51); (0x1F68, 8, 1, 0x1F60); (0x1F88, 8, 1, 0x1F80);
    (0x1F98, 8, 1, 0x1F90); (0x1FA8, 8, 1, 0x1FA0); (0x1FB8, 2, 1, 0x1FB0);
    (0x1FBA, 2, 1, 0x1F70); (0x1FBC, 1, 1, 0x1FB3); (0x1FC8, 4, 1, 0x1F72);
    (0x1FCC, 1, 1, 0x1FC3); (0x1FD8, 2, 1, 0x1FD0); (0x1FDA, 2, 1, 0x1F76);
    (0x1FE8, 2, 1, 0x1FE0); (0x1FEA, 2, 1, 0x1F7A); (0x1FEC, 1, 1, 0x1FE5);
    (0x1FF8, 2, 1, 0x1F78); (0x1FFA, 2, 1, 0x1F7C); (0x1FFC, 1, 1, 0x1FF3);
    (0x2126, 1, 1, 0x3C9); (0x212A, 1, 1, 0x6B); (0x212B, 1, 1, 0xE5);
    (0x2132, 1, 1, 0x214E); (0x2160, 16, 1, 0x2170); (0x2183, 1, 1, 0x2184);
    (0x24B6, 26, 1, 0x24D0); (0x2C00, 48, 1, 0x2C30); (0x2C60, 1, 1, 0x2C61);
    (0x2C62, 1, 1, 0x26B); (0x2C63, 1, 1, 0x1D7D); (0x2C64, 1, 1, 0x27D);
    (0x2C67, 3, 2, 0x2C68); (0x2C6D, 1, 1, 0x251); (0x2C6E, 1, 1, 0x271);
    (0x2C6F, 1, 1, 0x250); (0x2C70, 1, 1, 0x252); (0x2C72, 1, 1, 0x2C73);
    (0x2C75, 1, 1, 0x2C76); (0x2C7E, 2, 1, 0x23F); (0x2C80, 50, 2, 0x2C81);
    (0x2CEB, 2, 2, 0x2CEC); (0x2CF2, 1, 1, 0x2CF3); (0xA640, 23, 2, 0xA641);
    (0xA680, 14, 2, 0xA681); (0xA722, 7, 2, 0xA723); (0xA732, 31, 2, 0xA733);
    (0xA779, 2, 2, 0xA77A); (0xA77D, 1, 1, 0x1D79); (0xA77E, 5, 2, 0xA77F);
    (0xA78B, 1, 1, 0xA78C); (0xA78D, 1, 1, 0x265); (0xA790, 2, 2, 0xA791);
    (0xA796, 10, 2, 0xA797); (0xA7AA, 1, 1, 0x266); (0xA7AB, 1, 1, 0x25C);
    (0xA7AC, 1, 1, 0x261); (0xA7AD, 1, 1, 0x26C); (0xA7AE, 1, 1, 0x26A);
    (0xA7B0, 1, 1, 0x29E); (0xA7B1, 1, 1, 0x287); (0xA7B2, 1, 1, 0x29D);
    (0xA7B3, 1, 1, 0xAB53); (0xA7B4, 8, 2, 0xA7B5); (0xA7C4, 1, 1, 0xA794);
    (0xA7C5, 1, 1, 0x282); (0xA7C6, 1, 1, 0x1D8E); (0xA7C7, 2, 2, 0xA7C8);
    (0xA7D0, 1, 1, 0xA7D1); (0xA7D6, 2, 2, 0xA7D7); (0xA7F5, 1, 1, 0xA7F6);
    (0xFF21, 26, 1, 0xFF41); (0x10400, 40, 1, 0x10428);
    (0x104B0, 36, 1, 0x104D8); (0x10570, 11, 1, 0x10597);
    (0x1057C, 15, 1, 0x105A3); (0x1058C, 7, 1, 0x105B3);
    (0x10594, 2, 1, 0x105BB); (0x10C80, 51, 1, 0x10CC0);
    (0x118A0, 32, 1, 0x118C0); (0x16E40, 32, 1, 0x16E60);
    (0x1E900, 34, 1, 0x1E922)
  ].

Definition lower_table : list (N * N) := flat_map row_pairs lower_rows.

(** [_PyUnicode_ToLowercase] *)
Definition tolower (c : N) : N := default c (assoc c lower_table).

(** The characters whose upper case is one other character. *)
Definition upper_rows : list (N * N * N * N) :=
  [
    (0x61, 26, 1, 0x41); (0xB5, 1, 1, 0x39C); (0xE0, 23, 1, 0xC0);
    (0xF8, 7, 1, 0xD8); (0xFF, 1, 1, 0x178); (0x101, 24, 2, 0x100);
    (0x131, 1, 1, 0x49); (0x133, 3, 2, 0x132); (0x13A, 8, 2, 0x139);
    (0x14B, 23, 2, 0x14A); (0x17A, 3, 2, 0x179); (0x17F, 1, 1, 0x53);
    (0x180, 1, 1, 0x243); (0x183, 2, 2, 0x182); (0x188, 1, 1, 0x187);
    (0x18C, 1, 1, 0x18B); (0x192, 1, 1, 0x191); (0x195, 1, 1, 0x1F6);
    (0x199, 1, 1, 0x198); (0x19A, 1, 1, 0x23D); (0x19E, 1, 1, 0x220);
    (0x1A1, 3, 2, 0x1A0); (0x1A8, 1, 1, 0x1A7); (0x1AD, 1, 1, 0x1AC);
    (0x1B0, 1, 1, 0x1AF); (0x1B4, 2, 2, 0x1B3); (0x1B9, 1, 1, 0x1B8);
    (0x1BD, 1, 1, 0x1BC); (0x1BF, 1, 1, 0x1F7); (0x1C5, 1, 1, 0x1C4);
    (0x1C6, 1, 1, 0x1C4); (0x1C8, 1, 1, 0x1C7); (0x1C9, 1, 1, 0x1C7);
    (0x1CB, 1, 1, 0x1CA); (0x1CC, 1, 1, 0x1CA); (0x1CE, 8, 2, 0x1CD);
    (0x1DD, 1, 1, 0x18E); (0x1DF, 9, 2, 0x1DE); (0x1F2, 1, 1, 0x1F1);
    (0x1F3, 1, 1, 0x1F1); (0x1F5, 1, 1, 0x1F4); (0x1F9, 20, 2, 0x1F8);
    (0x223, 9, 2, 0x222); (0x23C, 1, 1, 0x23B); (0x23F, 2, 1, 0x2C7E);
    (0x242, 1, 1, 0x241); (0x247, 5, 2, 0x246); (0x250, 1, 1, 0x2C6F);
    (0x251, 1, 1, 0x2C6D); (0x252, 1, 1, 0x2C70); (0x253, 1, 1, 0x181);
    (0x254, 1, 1, 0x186); (0x256, 2, 1, 0x189); (0x259, 1, 1, 0x18F);
    (0x25B, 1, 1, 0x190); (0x25C, 1, 1, 0xA7AB); (0x260, 1, 1, 0x193);
    (0x261, 1, 1, 0xA7AC); (0x263, 1, 1, 0x194); (0x265, 1, 1, 0xA78D);
    (0x266, 1, 1, 0xA7AA); (0x268, 1, 1, 0x197); (0x269, 1, 1, 0x196);
    (0x26A, 1, 1, 0xA7AE); (0x26B, 1, 1, 0x2C62); (0x26C, 1, 1, 0xA7AD);
    (0x26F, 1, 1, 0x19C); (0x271, 1, 1, 0x2C6E); (0x272, 1, 1, 0x19D);
    (0x275, 1, 1, 0x19F); (0x27D, 1, 1, 0x2C64); (0x280, 1, 1, 0x1A6);
    (0x282, 1, 1, 0xA7C5); (0x283, 1, 1, 0x1A9); (0x287, 1, 1, 0xA7B1);
    (0x288, 1, 1, 0x1AE); (0x289, 1, 1, 0x244); (0x28A, 2, 1, 0x1B1);
    (0x28C, 1, 1, 0x245); (0x292, 1, 1, 0x1B7); (0x29D, 1, 1, 0xA7B2);
    (0x29E, 1, 1, 0xA7B0); (0x345, 1, 1, 0x399); (0x371, 2, 2, 0x370);
    (0x377, 1, 1, 0x376); (0x37B, 3, 1, 0x3FD); (0x3AC, 1, 1, 0x386);
    (0x3AD, 3, 1, 0x388); (0x3B1, 17, 1, 0x391); (0x3C2, 1, 1, 0x3A3);
    (0x3C3, 9, 1, 0x3A3); (0x3CC, 1, 1, 0x38C); (0x3CD, 2, 1, 0x38E);
    (0x3D0, 1, 1, 0x392); (0x3D1, 1, 1, 0x398); (0x3D5, 1, 1, 0x3A6);
    (0x3D6, 1, 1, 0x3A0); (0x3D7, 1, 1, 0x3CF); (0x3D9, 12, 2, 0x3D8);
    (0x3F0, 1, 1, 0x39A); (0x3F1, 1, 1, 0x3A1); (0x3F2, 1, 1, 0x3F9);
    (0x3F3, 1, 1, 0x37F); (0x3F5, 1, 1, 0x395); (0x3F8, 1, 1, 0x3F7);
    (0x3FB, 1, 1, 0x3FA); (0x430, 32, 1, 0x410); (0x450, 16, 1, 0x400);
    (0x461, 17, 2, 0x460); (0x48B, 27, 2, 0x48A); (0x4C2, 7, 2, 0x4C1);
    (0x4CF, 1, 1, 0x4C0); (0x4D1, 48, 2, 0x4D0); (0x561, 38, 1, 0x531);
    (0x10D0, 43, 1, 0x1C90); (0x10FD, 3, 1, 0x1CBD); (0x13F8, 6, 1, 0x13F0);
    (0x1C80, 1, 1, 0x412); (0x1C81, 1, 1, 0x414); (0x1C82, 1, 1, 0x41E);
    (0x1C83, 2, 1, 0x421); (0x1C85, 1, 1, 0x422); (0x1C86, 1, 1, 0x42A);
    (0x1C87, 1, 1, 0x462); (0x1C88, 1, 1, 0xA64A); (0x1D79, 1, 1, 0xA77D);
    (0x1D7D, 1, 1, 0x2C63); (0x1D8E, 1, 1, 0xA7C6); (0x1E01, 75, 2, 0x1E00);
    (0x1E9B, 1, 1, 0x1E60); (0x1EA1, 48, 2, 0x1EA0); (0x1F00, 8, 1, 0x1F08);
    (0x1F10, 6, 1, 0x1F18); (0x1F20, 8, 1, 0x1F28); (0x1F30, 8, 1, 0x1F38);
    (0x1F40, 6, 1, 0x1F48); (0x1F51, 4, 2, 0x1F59); (0x1F60, 8, 1, 0x1F68);
    (0x1F70, 2, 1, 0x1FBA); (0x1F72, 4, 1, 0x1FC8); (0x1F76, 2, 1, 0x1FDA);
    (0x1F78, 2, 1, 0x1FF8); (0x1F7A, 2, 1, 0x1FEA); (0x1F7C, 2, 1, 0x1FFA);
    (0x1FB0, 2, 1, 0x1FB8); (0x1FBE, 1, 1, 0x399); (0x1FD0, 2, 1, 0x1FD8);
    (0x1FE0, 2, 1, 0x1FE8); (0x1FE5, 1, 1, 0x1FEC); (0x214E, 1, 1, 0x2132);
    (0x2170, 16, 1, 0x2160); (0x2184, 1, 1, 0x2183); (0x24D0, 26, 1, 0x24B6);
    (0x2C30, 48, 1, 0x2C00); (0x2C61, 1, 1, 0x2C60); (0x2C65, 1, 1, 0x23A);
    (0x2C66, 1, 1, 0x23E); (0x2C68, 3, 2, 0x2C67); (0x2C73, 1, 1, 0x2C72);
    (0x2C76, 1, 1, 0x2C75); (0x2C81, 50, 2, 0x2C80); (0x2CEC, 2, 2, 0x2CEB);
    (0x2CF3, 1, 1, 0x2CF2); (0x2D00, 38, 1, 0x10A0); (0x2D27, 1, 1, 0x10C7);
    (0x2D2D, 1, 1, 0x10CD); (0xA641, 23, 2, 0xA640); (0xA681, 14, 2, 0xA680);
    (0xA723, 7, 2, 0xA722); (0xA733, 31, 2, 0xA732); (0xA77A, 2, 2, 0xA779);
    (0xA77F, 5, 2, 0xA77E); (0xA78C, 1, 1, 0xA78B); (0xA791, 2, 2, 0xA790);
    (0xA794, 1, 1, 0xA7C4); (0xA797, 10, 2, 0xA796); (0xA7B5, 8, 2, 0xA7B4);
    (0xA7C8, 2, 2, 0xA7C7); (0xA7D1, 1, 1, 0xA7D0); (0xA7D7, 2, 2, 0xA7D6);
    (0xA7F6, 1, 1, 0xA7F5); (0xAB53, 1, 1, 0xA7B3); (0xAB70, 80, 1, 0x13A0);
    (0xFF41, 26, 1, 0xFF21); (0x10428, 40, 1, 0x10400);
    (0x104D8, 36, 1, 0x104B0); (0x10597, 11, 1, 0x10570);
    (0x105A3, 15, 1, 0x1057C); (0x105B3, 7, 1, 0x1058C);
    (0x105BB, 2, 1, 0x10594); (0x10CC0, 51, 1, 0x10C80);
    (0x118C0, 32, 1, 0x118A0); (0x16E60, 32, 1, 0x16E40);
    (0x1E922, 34, 1, 0x1E900)
  ].

Definition upper_table : list (N * N) := flat_map row_pairs upper_rows.

(** The characters whose upper case is several characters. *)
Definition upper_special : list (N * list N) :=
  [
    (0xDF, [0x53; 0x53]); (0x149, [0x2BC; 0x4E]); (0x1F0, [0x4A; 0x30C]);
    (0x390, [0x399; 0x308; 0x301]); (0x3B0, [0x3A5; 0x308; 0x301]);
    (0x587, [0x535; 0x552]); (0x1E96, [0x48; 0x331]);
    (0x1E97, [0x54; 0x308]); (0x1E98, [0x57; 0x30A]);
    (0x1E99, [0x59; 0x30A]); (0x1E9A, [0x41; 0x2BE]);
    (0x1F50, [0x3A5; 0x313]); (0x1F52, [0x3A5; 0x313; 0x300]);
    (0x1F54, [0x3A5; 0x313; 0x301]); (0x1F56, [0x3A5; 0x313; 0x342]);
    (0x1F80, [0x1F08; 0x399]); (0x1F81, [0x1F09; 0x399]);
    (0x1F82, [0x1F0A; 0x399]); (0x1F83, [0x1F0B; 0x399]);
    (0x1F84, [0x1F0C; 0x399]); (0x1F85, [0x1F0D; 0x399]);
    (0x1F86, [0x1F0E; 0x399]); (0x1F87, [0x1F0F; 0x399]);
    (0x1F88, [0x1F08; 0x399]); (0x1F89, [0x1F09; 0x399]);
    (0x1F8A, [0x1F0A; 0x399]); (0x1F8B, [0x1F0B; 0x399]);
    (0x1F8C, [0x1F0C; 0x399]); (0x1F8D, [0x1F0D; 0x399]);
    (0x1F8E, [0x1F0E; 0x399]); (0x1F8F, [0x1F0F; 0x399]);
    (0x1F90, [0x1F28; 0x399]); (0x1F91, [0x1F29; 0x399]);
    (0x1F92, [0x1F2A; 0x399]); (0x1F93, [0x1F2B; 0x399]);
    (0x1F94, [0x1F2C; 0x399]); (0x1F95, [0x1F2D; 0x399]);
    (0x1F96, [0x1F2E; 0x399]); (0x1F97, [0x1F2F; 0x399]);
    (0x1F98, [0x1F28; 0x399]); (0x1F99, [0x1F29; 0x399]);
    (0x1F9A, [0x1F2A; 0x399]); (0x1F9B, [0x1F2B; 0x399]);
    (0x1F9C, [0x1F2C; 0x399]); (0x1F9D, [0x1F2D; 0x399]);
    (0x1F9E, [0x1F2E; 0x399]); (0x1F9F, [0x1F2F; 0x399]);
    (0x1FA0, [0x1F68; 0x399]); (0x1FA1, [0x1F69; 0x399]);
    (0x1FA2, [0x1F6A; 0x399]); (0x1FA3, [0x1F6B; 0x399]);
    (0x1FA4, [0x1F6C; 0x399]); (0x1FA5, [0x1F6D; 0x399]);
    (0x1FA6, [0x1F6E; 0x399]); (0x1FA7, [0x1F6F; 0x399]);
    (0x1FA8, [0x1F68; 0x399]); (0x1FA9, [0x1F69; 0x399]);
    (0x1FAA, [0x1F6A; 0x399]); (0x1FAB, [0x1F6B; 0x399]);
    (0x1FAC, [0x1F6C; 0x399]); (0x1FAD, [0x1F6D; 0x399]);
    (0x1FAE, [0x1F6E; 0x399]); (0x1FAF, [0x1F6F; 0x399]);
    (0x1FB2, [0x1FBA; 0x399]); (0x1FB3, [0x391; 0x399]);
    (0x1FB4, [0x386; 0x399]); (0x1FB6, [0x391; 0x342]);
    (0x1FB7, [0x391; 0x342; 0x399]); (0x1FBC, [0x391; 0x399]);
    (0x1FC2, [0x1FCA; 0x399]); (0x1FC3, [0x397; 0x399]);
    (0x1FC4, [0x389; 0x399]); (0x1FC6, [0x397; 0x342]);
    (0x1FC7, [0x397; 0x342; 0x399]); (0x1FCC, [0x397; 0x399]);
    (0x1FD2, [0x399; 0x308; 0x300]); (0x1FD3, [0x399; 0x308; 0x301]);
    (0x1FD6, [0x399; 0x342]); (0x1FD7, [0x399; 0x308; 0x342]);
    (0x1FE2, [0x3A5; 0x308; 0x300]); (0x1FE3, [0x3A5; 0x308; 0x301]);
    (0x1FE4, [0x3A1; 0x313]); (0x1FE6, [0x3A5; 0x342]);
    (0x1FE7, [0x3A5; 0x308; 0x342]); (0x1FF2, [0x1FFA; 0x399]);
    (0x1FF3, [0x3A9; 0x399]); (0x1FF4, [0x38F; 0x399]);
    (0x1FF6, [0x3A9; 0x342]); (0x1FF7, [0x3A9; 0x342; 0x399]);
    (0x1FFC, [0x3A9; 0x399]); (0xFB00, [0x46; 0x46]); (0xFB01, [0x46; 0x49]);
    (0xFB02, [0x46; 0x4C]); (0xFB03, [0x46; 0x46; 0x49]);
    (0xFB04, [0x46; 0x46; 0x4C]); (0xFB05, [0x53; 0x54]);
    (0xFB06, [0x53; 0x54]); (0xFB13, [0x544; 0x546]);
    (0xFB14, [0x544; 0x535]); (0xFB15, [0x544; 0x53B]);
    (0xFB16, [0x54E; 0x546]); (0xFB17, [0x544; 0x53D])
  ].

(** [_PyUnicode_ToUpperFull]: the upper case of one character. *)
Definition toupper (c : N) : list N :=
  match assoc c upper_special with
  | Some u => u
  | None => [default c (assoc c upper_table)]
  end.

(** [s.upper()] *)
Definition upper (s : str) : str := flat_map toupper s.

Definition emit (word : str) : list str :=
  match word with [] => [] | _ :: _ => [word] end.

Fixpoint split_from (word s : str) : list str :=
  match s with
  | [] => emit word
  | c :: s' =>
      if isspace c then emit word ++ split_from [] s'
      else split_from (word ++ [c]) s'
  end.

(** [s.split()] *)
Definition split (s : str) : list str := split_from [] s.

(** [re._special_chars_map] *)
Definition special_chars : str :=
  py "()[]{}?*+-|^$\.&~# " ++ [9; 10; 13; 11; 12].

Definition is_special (c : N) : bool := existsb (N.eqb c) special_chars.

(** [re.escape(pattern)] *)
Definition escape (pattern : str) : str :=
  flat_map (fun c => if is_special c then [ord "\"; c] else [c]) pattern.

Inductive node :=
| LITERAL (av : N)
| ANY
| AT_BEGINNING
| AT_END.

Definition is_ascii_alnum (c : N) : bool :=
  in_range 48 57 c || in_range 65 90 c || in_range 97 122 c.

Definition is_operator (c : N) : bool := existsb (N.eqb c) (py "[{()*+?|").

(** [_parser.parse], on the same patterns as [Re.parse]. *)
Fixpoint parse (source : str) : option (list node) :=
  match source with
  | [] => Some []
  | this :: rest =>
      if this =? ord "\" then
        match rest with
        | [] => None
        | c :: rest' =>
            if is_ascii_alnum c then None
            else cons (LITERAL c) <$> parse rest'
        end
      else if this =? ord "." then cons ANY <$> parse rest
      else if this =? ord "^" then cons AT_BEGINNING <$> parse rest
      else if this =? ord "$" then cons AT_END <$> parse rest
      else if is_operator this then None
      else cons (LITERAL this) <$> parse rest
  end.

(** The ranges of the characters [_sre.unicode_iscased] accepts: those
    that differ from their lower case or from the first character of
    their upper case. *)
Definition cased_ranges : list (N * N) :=
  [
    (0x41, 0x5A); (0x61, 0x7A); (0xB5, 0xB5); (0xC0, 0xD6); (0xD8, 0xF6);
    (0xF8, 0x137); (0x139, 0x18C); (0x18E, 0x19A); (0x19C, 0x1A9);
    (0x1AC, 0x1B9); (0x1BC, 0x1BD); (0x1BF, 0x1BF); (0x1C4, 0x220);
    (0x222, 0x233); (0x23A, 0x254); (0x256, 0x257); (0x259, 0x259);
    (0x25B, 0x25C); (0x260, 0x261); (0x263, 0x263); (0x265, 0x266);
    (0x268, 0x26C); (0x26F, 0x26F); (0x271, 0x272); (0x275, 0x275);
    (0x27D, 0x27D); (0x280, 0x280); (0x282, 0x283); (0x287, 0x28C);
    (0x292, 0x292); (0x29D, 0x29E); (0x345, 0x345); (0x370, 0x373);
    (0x376, 0x377); (0x37B, 0x37D); (0x37F, 0x37F); (0x386, 0x386);
    (0x388, 0x38A); (0x38C, 0x38C); (0x38E, 0x3A1); (0x3A3, 0x3D1);
    (0x3D5, 0x3F5); (0x3F7, 0x3FB); (0x3FD, 0x481); (0x48A, 0x52F);
    (0x531, 0x556); (0x561, 0x587); (0x10A0, 0x10C5); (0x10C7, 0x10C7);
    (0x10CD, 0x10CD); (0x10D0, 0x10FA); (0x10FD, 0x10FF); (0x13A0, 0x13F5);
    (0x13F8, 0x13FD); (0x1C80, 0x1C88); (0x1C90, 0x1CBA); (0x1CBD, 0x1CBF);
    (0x1D79, 0x1D79); (0x1D7D, 0x1D7D); (0x1D8E, 0x1D8E); (0x1E00, 0x1E9B);
    (0x1E9E, 0x1E9E); (0x1EA0, 0x1F15); (0x1F18, 0x1F1D); (0x1F20, 0x1F45);
    (0x1F48, 0x1F4D); (0x1F50, 0x1F57); (0x1F59, 0x1F59); (0x1F5B, 0x1F5B);
    (0x1F5D, 0x1F5D); (0x1F5F, 0x1F7D); (0x1F80, 0x1FB4); (0x1FB6, 0x1FBC);
    (0x1FBE, 0x1FBE); (0x1FC2, 0x1FC4); (0x1FC6, 0x1FCC); (0x1FD0, 0x1FD3);
    (0x1FD6, 0x1FDB); (0x1FE0, 0x1FEC); (0x1FF2, 0x1FF4); (0x1FF6, 0x1FFC);
    (0x2126, 0x2126); (0x212A, 0x212B); (0x2132, 0x2132); (0x214E, 0x214E);
    (0x2160, 0x217F); (0x2183, 0x2184); (0x24B6, 0x24E9); (0x2C00, 0x2C70);
    (0x2C72, 0x2C73); (0x2C75, 0x2C76); (0x2C7E, 0x2CE3); (0x2CEB, 0x2CEE);
    (0x2CF2, 0x2CF3); (0x2D00, 0x2D25); (0x2D27, 0x2D27); (0x2D2D, 0x2D2D);
    (0xA640, 0xA66D); (0xA680, 0xA69B); (0xA722, 0xA72F); (0xA732, 0xA76F);
    (0xA779, 0xA787); (0xA78B, 0xA78D); (0xA790, 0xA794); (0xA796, 0xA7AE);
    (0xA7B0, 0xA7CA); (0xA7D0, 0xA7D1); (0xA7D6, 0xA7D9); (0xA7F5, 0xA7F6);
    (0xAB53, 0xAB53); (0xAB70, 0xABBF); (0xFB00, 0xFB06); (0xFB13, 0xFB17);
    (0xFF21, 0xFF3A); (0xFF41, 0xFF5A); (0x10400, 0x1044F);
    (0x104B0, 0x104D3); (0x104D8, 0x104FB); (0x10570, 0x1057A);
    (0x1057C, 0x1058A); (0x1058C, 0x10592); (0x10594, 0x10595);
    (0x10597, 0x105A1); (0x105A3, 0x105B1); (0x105B3, 0x105B9);
    (0x105BB, 0x105BC); (0x10C80, 0x10CB2); (0x10CC0, 0x10CF2);
    (0x118A0, 0x118DF); (0x16E40, 0x16E7F); (0x1E900, 0x1E943)
  ].

(** [_sre.unicode_iscased] *)
Definition unicode_iscased (c : N) : bool :=
  existsb (fun '(lo, hi) => in_range lo hi c) cased_ranges.

(** [_sre.unicode_tolower] *)
Definition unicode_tolower : N -> N := tolower.

(** [re._casefix._EXTRA_CASES]: for a lower-case character, the other
    lower-case characters that have the same upper case. *)
Definition extra_cases : list (N * list N) :=
  [
    (0x69, [0x131]); (0x73, [0x17F]); (0xB5, [0x3BC]); (0x131, [0x69]);
    (0x17F, [0x73]); (0x345, [0x3B9; 0x1FBE]); (0x390, [0x1FD3]);
    (0x3B0, [0x1FE3]); (0x3B2, [0x3D0]); (0x3B5, [0x3F5]); (0x3B8, [0x3D1]);
    (0x3B9, [0x345; 0x1FBE]); (0x3BA, [0x3F0]); (0x3BC, [0xB5]);
    (0x3C0, [0x3D6]); (0x3C1, [0x3F1]); (0x3C2, [0x3C3]); (0x3C3, [0x3C2]);
    (0x3C6, [0x3D5]); (0x3D0, [0x3B2]); (0x3D1, [0x3B8]); (0x3D5, [0x3C6]);
    (0x3D6, [0x3C0]); (0x3F0, [0x3BA]); (0x3F1, [0x3C1]); (0x3F5, [0x3B5]);
    (0x432, [0x1C80]); (0x434, [0x1C81]); (0x43E, [0x1C82]);
    (0x441, [0x1C83]); (0x442, [0x1C84; 0x1C85]); (0x44A, [0x1C86]);
    (0x463, [0x1C87]); (0x1C80, [0x432]); (0x1C81, [0x434]);
    (0x1C82, [0x43E]); (0x1C83, [0x441]); (0x1C84, [0x442; 0x1C85]);
    (0x1C85, [0x442; 0x1C84]); (0x1C86, [0x44A]); (0x1C87, [0x463]);
    (0x1C88, [0xA64B]); (0x1E61, [0x1E9B]); (0x1E9B, [0x1E61]);
    (0x1FBE, [0x345; 0x3B9]); (0x1FD3, [0x390]); (0x1FE3, [0x3B0]);
    (0xA64B, [0x1C88]); (0xFB05, [0xFB06]); (0xFB06, [0xFB05])
  ].

Definition EXTRA_CASES (lo : N) : option (list N) := assoc lo extra_cases.

Inductive op :=
| OP_LITERAL (code : N)
| OP_LITERAL_UNI_IGNORE (lo : N)
| OP_IN_UNI_IGNORE (set : list N)
| OP_ANY
| OP_AT_BEGINNING
| OP_AT_END.

(** [_compiler._compile] on one item of a [str] pattern. *)
Definition compile_node (f : Re.flags) (n : node) : op :=
  match n with
  | LITERAL av =>
      if negb (Re.IGNORECASE f) then OP_LITERAL av
      else if negb (unicode_iscased av) then OP_LITERAL av
      else
        let lo := unicode_tolower av in
        match EXTRA_CASES lo with
        | None => OP_LITERAL_UNI_IGNORE lo
        | Some fixes => OP_IN_UNI_IGNORE (lo :: fixes)
        end
  | ANY => OP_ANY
  | AT_BEGINNING => OP_AT_BEGINNING
  | AT_END => OP_AT_END
  end.

Record Pattern := { code : list op }.

(** [re.compile(pattern, flags)] *)
Definition compile (pattern : str) (f : Re.flags) : option Pattern :=
  p ← parse pattern; Some {| code := map (compile_node f) p |}.

Definition linebreak : N := 10.

Definition op_match (o : op) (ch : N) : bool :=
  match o with
  | OP_LITERAL c => ch =? c
  | OP_LITERAL_UNI_IGNORE lo => unicode_tolower ch =? lo
  | OP_IN_UNI_IGNORE set => existsb (N.eqb (unicode_tolower ch)) set
  | OP_ANY => negb (ch =? linebreak)
  | OP_AT_BEGINNING | OP_AT_END => false
  end.

Fixpoint match_here (ops : list op) (at_start : bool) (rest : str)
  : option nat :=
  match ops with
  | [] => Some 0%nat
  | OP_AT_BEGINNING :: ops' =>
      if at_start then match_here ops' at_start rest else None
  | OP_AT_END :: ops' =>
      match rest with
      | [] => match_here ops' at_start rest
      | [c] => if c =? linebreak
               then match_here ops' at_start rest else None
      | _ => None
      end
  | o :: ops' =>
      match rest with
      | [] => None
      | ch :: rest' =>
          if op_match o ch then S <$> match_here ops' false rest'
          else None
      end
  end.

Fixpoint search_from (ops : list op) (pos : nat) (rest : str)
  : option Re.Match :=
  match match_here ops (Nat.eqb pos 0) rest with
  | Some n => Some {| Re.m_start := pos; Re.m_end := (pos + n)%nat |}
  | None =>
      match rest with
      | [] => None
      | _ :: rest' => search_from ops (S pos) rest'
      end
  end.

(** [pattern.search(string)] *)
Definition search (pattern : Pattern) (s : str) : option Re.Match :=
  search_from (code pattern) 0 s.

(** [search_inventory(query, inventory)] of search.py *)
Definition search_inventory (query : str) (inventory : list str)
  : option (list str) :=
  let search_terms := split query in
  regex_patterns ←
    mapM (fun term => compile (escape term) {| Re.IGNORECASE := true |})
         search_terms;
  Some (fold_left
          (fun search_output item =>
             if forallb (fun pattern => truthy (search pattern item))
                        regex_patterns
             then search_output ++ [item]
             else search_output)
          inventory []).

(** *** The notions of the specification *)

Definition no_space (t : str) : Prop := Forall (fun c => isspace c = false) t.

(** [t] is a whitespace-delimited token of [q]. *)
Definition is_token (q t : str) : Prop :=
  t <> [] /\ no_space t /\
  exists pre post, q = pre ++ t ++ post /\
    (pre = [] \/ exists pre' w, pre = pre' ++ [w] /\ isspace w = true) /\
    (post = [] \/ exists w post', post = w :: post' /\ isspace w = true).

(** [c] contains [t] as a substring when the two sides are compared
    after the change [f] of both. *)
Definition contains_by (f : str -> str) (c t : str) : Prop :=
  exists pre mid post, c = pre ++ mid ++ post /\ f mid = f t.

(** The lower-case characters that stand for the letter [p] in a match:
    its lower case and the lower-case characters with the same upper
    case. *)
Definition variants (p : N) : list N :=
  tolower p :: default [] (EXTRA_CASES (tolower p)).

(** [ch] is the letter [p] up to case, as [re.IGNORECASE] compares
    them. *)
Definition same_letter (p ch : N) : Prop := In (tolower ch) (variants p).

(** [t] occurs in [c] as a substring, up to the case of the letters. *)
Definition contains_ignoring_case (c t : str) : Prop :=
  exists pre mid post, c = pre ++ mid ++ post /\ Forall2 same_letter t mid.


Definition below (bound : N) (s : str) : Prop := Forall (fun c => c < bound) s.

Definition literal_code (t : str) : list op :=
  map (fun c => compile_node {| Re.IGNORECASE := true |} (LITERAL c)) t.

Definition term_pattern (t : str) : Pattern := {| code := literal_code t |}.

(** The test of the loop body. *)
Definition accepts (query item : str) : bool :=
  forallb (fun pattern => truthy (search pattern item))
          (map term_pattern (split query)).

End Unicode.

(** A string of U+0000..U+00FF as a string of code points, and a
    compiled operation of [Re] as one of [Unicode]. *)
Definition encode (s : str) : Unicode.str := map ord s.

Definition encode_op (o : Re.op) : Unicode.op :=
  match o with
  | Re.OP_LITERAL c => Unicode.OP_LITERAL c
  | Re.OP_LITERAL_UNI_IGNORE lo => Unicode.OP_LITERAL_UNI_IGNORE lo
  | Re.OP_IN_UNI_IGNORE set => Unicode.OP_IN_UNI_IGNORE set
  | Re.OP_ANY => Unicode.OP_ANY
  | Re.OP_AT_BEGINNING => Unicode.OP_AT_BEGINNING
  | Re.OP_AT_END => Unicode.OP_AT_END
  end.

(** ** Further built-ins used by main.py *)
Module Builtins.

(** The characters with codes [lo] to [hi]. *)
Definition codes (lo hi : nat) : str := map ascii_of_nat (seq lo (S hi - lo)).

(** The constants of the [string] module. *)
Definition ascii_lowercase : str := py "abcdefghijklmnopqrstuvwxyz".
Definition ascii_uppercase : str := py "ABCDEFGHIJKLMNOPQRSTUVWXYZ".
Definition ascii_letters : str := ascii_lowercase ++ ascii_uppercase.
Definition digits : str := py "0123456789".
Definition punctuation : str :=
  codes 33 47 ++ codes 58 64 ++ codes 91 96 ++ codes 123 126.

(** [c.islower()], [c.isupper()] and [c.isdigit()] for one character. *)
Definition islower (c : ascii) : bool :=
  let n := ord c in
  in_range 97 122 n || (n =? 170) || (n =? 181) || (n =? 186)
  || in_range 223 246 n || in_range 248 255 n.

Definition isupper (c : ascii) : bool :=
  let n := ord c in
  in_range 65 90 n || in_range 192 214 n || in_range 216 222 n.

Definition isdigit (c : ascii) : bool :=
  let n := ord c in
  in_range 48 57 n || in_range 178 179 n || (n =? 185).

(** [c in s] for a one-character [c]. *)
Definition contains_char (s : str) (c : ascii) : bool :=
  existsb (Ascii.eqb c) s.

(** [s.lstrip()], [s.rstrip()] and [s.strip()] *)
Fixpoint lstrip (s : str) : str :=
  match s with
  | [] => []
  | c :: s' => if Str.isspace c then lstrip s' else s
  end.

Fixpoint rstrip (s : str) : str :=
  match s with
  | [] => []
  | c :: s' =>
      match rstrip s' with
      | [] => if Str.isspace c then [] else [c]
      | r => c :: r
      end
  end.

Definition strip (s : str) : str := rstrip (lstrip s).

(** [s.split(sep)] for a one-character separator: the fields between the
    separators, empty fields included; never the empty list. *)
Fixpoint split_sep (sep : ascii) (s : str) : list str :=
  match s with
  | [] => [[]]
  | c :: s' =>
      if Ascii.eqb c sep then [] :: split_sep sep s'
      else match split_sep sep s' with
           | field :: fields => (c :: field) :: fields
           | [] => [[c]]
           end
  end.

(** The cut of [s.rsplit(sep, 1)]: the text before and after the last
    separator, if there is one. *)
Fixpoint rcut (sep : ascii) (s : str) : option (str * str) :=
  match s with
  | [] => None
  | c :: s' =>
      match rcut sep s' with
      | Some (before, after) => Some (c :: before, after)
      | None => if Ascii.eqb c sep then Some ([], s') else None
      end
  end.

(** [s.rsplit(sep, 1)] *)
Definition rsplit1 (sep : ascii) (s : str) : list str :=
  match rcut sep s with
  | Some (before, after) => [before; after]
  | None => [s]
  end.

(** The whitespace [int()] skips around a number. *)
Definition int_isspace (c : ascii) : bool :=
  let n := ord c in
  in_range 9 13 n || (n =? 32) || (n =? 133) || (n =? 160).

Fixpoint int_lstrip (s : str) : str :=
  match s with
  | [] => []
  | c :: s' => if int_isspace c then int_lstrip s' else s
  end.

Fixpoint int_rstrip (s : str) : str :=
  match s with
  | [] => []
  | c :: s' =>
      match int_rstrip s' with
      | [] => if int_isspace c then [] else [c]
      | r => c :: r
      end
  end.

Definition is_decimal (c : ascii) : bool := in_range 48 57 (ord c).

(** The digits of a number: decimal digits, with single underscores
    between digits.  Returns the value and the number of digits. *)
Fixpoint scan_digits (acc : Z) (count : nat) (after_digit : bool) (s : str)
  : option (Z * nat) :=
  match s with
  | [] => if after_digit then Some (acc, count) else None
  | c :: s' =>
      if is_decimal c
      then scan_digits (acc * 10 + (Z.of_N (ord c) - 48))%Z (S count) true s'
      else if Ascii.eqb c "_"
      then if after_digit then scan_digits acc count false s' else None
      else None
  end.

(** [sys.get_int_max_str_digits()] *)
Definition max_str_digits : nat := 4300.

(** [int(s)]; [None] is [ValueError]. *)
Definition int (s : str) : option Z :=
  let body := int_rstrip (int_lstrip s) in
  let '(negative, number) :=
    match body with
    | c :: rest =>
        if Ascii.eqb c "-" then (true, rest)
        else if Ascii.eqb c "+" then (false, rest)
        else (false, body)
    | [] => (false, body)
    end in
  match scan_digits 0 0 false number with
  | Some (value, count) =>
      if (max_str_digits <? count)%nat then None
      else Some (if negative then (- value)%Z else value)
  | None => None
  end.

End Builtins.

(** ** The [random] module: [choice] and [shuffle]

    The generator is a sequence of draws: [draw k] is what the [k]-th
    call of [_randbelow] returns, reduced into the range asked for.  The
    state threaded through the calls is the number of draws made. *)
Module Random.

Definition M (A : Type) : Type := nat -> option (A * nat).

Definition ret {A} (a : A) : M A := fun k => Some (a, k).

Definition bind {A B} (m : M A) (f : A -> M B) : M B :=
  fun k => match m k with Some (a, k') => f a k' | None => None end.

(** [_randbelow(n)] *)
Definition randbelow (draw : nat -> nat) (n : nat) : M nat :=
  fun k => Some ((draw k mod n)%nat, S k).

(** [random.choice(seq)]; [None] is [IndexError]. *)
Definition choice {A} (draw : nat -> nat) (seq : list A) : M A :=
  if Nat.eqb (length seq) 0 then fun _ => None
  else bind (randbelow draw (length seq)) (fun j k => x ← seq !! j; Some (x, k)).

(** [random.choice(seq) for _ in range(n)] *)
Fixpoint choices {A} (draw : nat -> nat) (seq : list A) (n : nat) : M (list A) :=
  match n with
  | O => ret []
  | S n' =>
      bind (choice draw seq) (fun c =>
      bind (choices draw seq n') (fun cs => ret (c :: cs)))
  end.

(** [x[i], x[j] = x[j], x[i]]; [None] is [IndexError]. *)
Definition swap {A} (x : list A) (i j : nat) : option (list A) :=
  xj ← x !! j; xi ← x !! i;
  if decide (i < length x)%nat
  then let x1 := <[i := xj]> x in
       if decide (j < length x1)%nat then Some (<[j := xi]> x1) else None
  else None.

(** The loop of [random.shuffle(x)] for the indices [i], [i - 1], ..., 1. *)
Fixpoint shuffle_from {A} (draw : nat -> nat) (i : nat) (x : list A)
  : M (list A) :=
  match i with
  | O => ret x
  | S i' =>
      bind (randbelow draw (S i)) (fun j k =>
        x' ← swap x i j; shuffle_from draw i' x' k)
  end.

(** [random.shuffle(x)] *)
Definition shuffle {A} (draw : nat -> nat) (x : list A) : M (list A) :=
  shuffle_from draw (length x - 1) x.

End Random.

(** ** main.py: utility functions *)
Module Utility.

(** One pass of the inner loop of [load_warehouse_inventory]. *)
Definition load_item (inventory : Main.dict) (item : str) : Main.dict :=
  let item := Builtins.strip item in
  if bool_decide (item = []) || negb (Builtins.contains_char item ":")
  then inventory
  else
    match Builtins.rsplit1 ":" item with
    | [part0; part1] =>
        let name := Builtins.strip part0 in
        match Builtins.int (Builtins.strip part1) with
        | Some price => Main.setitem inventory name price
        | None => inventory
        end
    | _ => inventory
    end.

(** One pass of the outer loop: [text] is what [f.read()] returns. *)
Definition load_file (inventory : Main.dict) (text : str) : Main.dict :=
  let content := Builtins.strip text in
  if bool_decide (content = []) then inventory
  else fold_left load_item (Builtins.split_sep ";" content) inventory.

(** [load_warehouse_inventory(data_dir)], as a function of the texts of
    the warehouse files, in the sorted order of their names. *)
Definition load_warehouse_inventory (texts : list str) : Main.dict :=
  fold_left load_file texts [].

(** [generate_password(length)] *)
Definition generate_password (draw : nat -> nat) (length : Z)
  : Random.M str :=
  Random.bind (Random.choice draw Builtins.ascii_lowercase) (fun c1 =>
  Random.bind (Random.choice draw Builtins.ascii_uppercase) (fun c2 =>
  Random.bind (Random.choice draw Builtins.digits) (fun c3 =>
  Random.bind (Random.choice draw Builtins.punctuation) (fun c4 =>
  let required_chars := [c1; c2; c3; c4] in
  let remaining := (length - Z.of_nat (List.length required_chars))%Z in
  let all_chars :=
    Builtins.ascii_letters ++ Builtins.digits ++ Builtins.punctuation in
  Random.bind (Random.choices draw all_chars (Z.to_nat remaining)) (fun more =>
  Random.shuffle draw (required_chars ++ more)))))).

(** [validate_password(password)] *)
Definition validate_password (password : str) : bool :=
  if (length password <? 16)%nat then false
  else
    let has_lower := existsb Builtins.islower password in
    let has_upper := existsb Builtins.isupper password in
    let has_digit := existsb Builtins.isdigit password in
    let has_special :=
      existsb (Builtins.contains_char Builtins.punctuation) password in
    has_lower && has_upper && has_digit && has_special.

End Utility.

(** The random computation [m], started after [k] draws, returns a value
    that satisfies [P]. *)
Definition yields {A} (m : Random.M A) (k : nat) (P : A -> Prop) : Prop :=
  exists a k', m k = Some (a, k') /\ P a.

(** The characters [generate_password] draws from. *)
Definition password_alphabet : str :=
  Builtins.ascii_letters ++ Builtins.digits ++ Builtins.punctuation.

(** [load_item] on an item that has already been stripped. *)
Definition load_stripped (inventory : Main.dict) (item : str) : Main.dict :=
  if bool_decide (item = []) || negb (Builtins.contains_char item ":")
  then inventory
  else
    match Builtins.rsplit1 ":" item with
    | [part0; part1] =>
        match Builtins.int (Builtins.strip part1) with
        | Some price => Main.setitem inventory (Builtins.strip part0) price
        | None => inventory
        end
    | _ => inventory
    end.

(** A name as the loader stores it: without whitespace at either end and
    without the entry separator. *)
Definition clean_name (name : str) : Prop :=
  Builtins.strip name = name /\ ~ In ";"%char name.

(** ** Dictionary operations and exceptions *)

Inductive exn := KeyError | EOFError | ValueError | OverflowError | IndexError.

(** The result of a call that may raise. *)
Inductive result (A : Type) : Type :=
| Ok (a : A)
| Raise (e : exn).
Arguments Ok {A} a.
Arguments Raise {A} e.

Module Dict.

(** [d.get(k)]; as [d[k]], [None] is [KeyError]. *)
Fixpoint getitem (d : Main.dict) (k : str) : option Z :=
  match d with
  | [] => None
  | (k', v) :: d' => if decide (k' = k) then Some v else getitem d' k
  end.

(** [k in d] *)
Definition contains (d : Main.dict) (k : str) : bool := truthy (getitem d k).

(** [del d[k]]; [None] is [KeyError]. *)
Fixpoint delitem (d : Main.dict) (k : str) : option Main.dict :=
  match d with
  | [] => None
  | (k', v) :: d' =>
      if decide (k' = k) then Some d'
      else cons (k', v) <$> delitem d' k
  end.

End Dict.

(** ** main.py: the cart

    The lines typed at the console are a list, and a function returns
    the lines it has not read.  The text that [print] writes is left
    out, and with it the exceptions of the console itself (writing a
    line that the encoding of the console cannot represent raises
    [UnicodeEncodeError]); the exceptions raised while the text is
    computed are kept. *)
Module Run.

(** [format_currency(amount)] on an [int]: the text printed is left out;
    the conversion to [float] raises when the amount is out of range. *)
Definition float_bound : Z := 2 ^ 1024 - 2 ^ 970.

Definition format_currency (amount : Z) : result unit :=
  if (Z.abs amount <? float_bound)%Z then Ok tt else Raise OverflowError.

(** [str(n)] inside an f-string: raises beyond 4300 digits. *)
Definition format_int (n : Z) : result unit :=
  if (Z.abs n <? 10 ^ 4300)%Z then Ok tt else Raise ValueError.

(** [for i, item in enumerate(items, 1):
       print(f"{i}. {item} - {format_currency(inventory[item])}")] *)
Fixpoint show_prices (items : list str) (inventory : Main.dict) : result unit :=
  match items with
  | [] => Ok tt
  | item :: items' =>
      match Dict.getitem inventory item with
      | None => Raise KeyError
      | Some price =>
          match format_currency price with
          | Ok _ => show_prices items' inventory
          | Raise e => Raise e
          end
      end
  end.

(** [for i, item in enumerate(items, 1):
       print(f"{i}. {item} (qty: {cart[item]})")] *)
Fixpoint show_quantities (items : list str) (cart : Main.dict) : result unit :=
  match items with
  | [] => Ok tt
  | item :: items' =>
      match Dict.getitem cart item with
      | None => Raise KeyError
      | Some qty =>
          match format_int qty with
          | Ok _ => show_quantities items' cart
          | Raise e => Raise e
          end
      end
  end.

(** [1 <= item_num <= len(items)] *)
Definition valid_number (item_num : Z) (items : list str) : bool :=
  (1 <=? item_num)%Z && (item_num <=? Z.of_nat (length items))%Z.

(** The lines shared by [add_items_to_cart] and [add_items_menu]:
    [if item not in cart: cart[item] = 0]
    [cart[item] += quantity]
    [inventory[item] -= quantity] *)
Definition put_in_cart (cart inventory : Main.dict) (item : str) (quantity : Z)
  : result (Main.dict * Main.dict) :=
  let cart1 := if Dict.contains cart item then cart else Main.setitem cart item 0 in
  match Dict.getitem cart1 item with
  | None => Raise KeyError
  | Some held =>
      let cart2 := Main.setitem cart1 item (held + quantity) in
      match Dict.getitem inventory item with
      | None => Raise KeyError
      | Some value => Ok (cart2, Main.setitem inventory item (value - quantity))
      end
  end.

(** The [while True] loop of [add_items_to_cart]; [inputs] are the lines
    the user types, and the lines left are returned with the cart and
    the inventory.  A [ValueError] of [int] is caught by the loop. *)
Fixpoint add_items_loop (cart : Main.dict) (items : list str)
    (inventory : Main.dict) (inputs : list str)
  : result (Main.dict * Main.dict * list str) :=
  match inputs with
  | [] => Raise EOFError
  | line :: inputs1 =>
      match Builtins.int (Builtins.strip line) with
      | None => add_items_loop cart items inventory inputs1
      | Some item_num =>
          if (item_num =? 0)%Z then Ok (cart, inventory, inputs1)
          else if valid_number item_num items then
            match items !! Z.to_nat (item_num - 1) with
            | None => Raise IndexError
            | Some item =>
                match inputs1 with
                | [] => Raise EOFError
                | line2 :: inputs2 =>
                    match Builtins.int (Builtins.strip line2) with
                    | None => add_items_loop cart items inventory inputs2
                    | Some quantity =>
                        if (quantity <=? 0)%Z
                        then add_items_loop cart items inventory inputs2
                        else
                          match put_in_cart cart inventory item quantity with
                          | Ok (cart', inventory') =>
                              Ok (cart', inventory', inputs2)
                          | Raise e => Raise e
                          end
                    end
                end
            end
          else add_items_loop cart items inventory inputs1
      end
  end.

(** [add_items_to_cart(cart, items, inventory)] *)
Definition add_items_to_cart (cart : Main.dict) (items : list str)
    (inventory : Main.dict) (inputs : list str)
  : result (Main.dict * Main.dict * list str) :=
  match show_prices items inventory with
  | Raise e => Raise e
  | Ok _ => add_items_loop cart items inventory inputs
  end.

(** [add_items_menu(cart, inventory)] *)
Definition add_items_menu (cart inventory : Main.dict) (inputs : list str)
  : result (Main.dict * Main.dict * list str) :=
  let items := Main.keys inventory in
  match show_prices items inventory with
  | Raise e => Raise e
  | Ok _ =>
      match inputs with
      | [] => Raise EOFError
      | line :: inputs1 =>
          match Builtins.int (Builtins.strip line) with
          | None => Ok (cart, inventory, inputs1)
          | Some item_num =>
              if (item_num =? 0)%Z then Ok (cart, inventory, inputs1)
              else if valid_number item_num items then
                match items !! Z.to_nat (item_num - 1) with
                | None => Raise IndexError
                | Some item =>
                    match inputs1 with
                    | [] => Raise EOFError
                    | line2 :: inputs2 =>
                        match Builtins.int (Builtins.strip line2) with
                        | None => Ok (cart, inventory, inputs2)
                        | Some quantity =>
                            if (0 <? quantity)%Z then
                              match put_in_cart cart inventory item quantity with
                              | Ok (cart', inventory') =>
                                  Ok (cart', inventory', inputs2)
                              | Raise e => Raise e
                              end
                            else Ok (cart, inventory, inputs2)
                        end
                    end
                end
              else Ok (cart, inventory, inputs1)
          end
      end
  end.

(** The update of [remove_items_from_cart]:
    [cart[item] -= qty_to_remove]
    [inventory[item] += qty_to_remove]
    [if cart[item] == 0: del cart[item]] *)
Definition take_from_cart (cart inventory : Main.dict) (item : str)
    (held qty_to_remove : Z) : result (Main.dict * Main.dict) :=
  let cart1 := Main.setitem cart item (held - qty_to_remove) in
  match Dict.getitem inventory item with
  | None => Raise KeyError
  | Some value =>
      let inventory1 := Main.setitem inventory item (value + qty_to_remove) in
      match Dict.getitem cart1 item with
      | None => Raise KeyError
      | Some remaining =>
          if (remaining =? 0)%Z then
            match Dict.delitem cart1 item with
            | None => Raise KeyError
            | Some cart2 => Ok (cart2, inventory1)
            end
          else Ok (cart1, inventory1)
      end
  end.

(** [remove_items_from_cart(cart, inventory)] *)
Definition remove_items_from_cart (cart inventory : Main.dict)
    (inputs : list str) : result (Main.dict * Main.dict * list str) :=
  match cart with
  | [] => Ok (cart, inventory, inputs)
  | _ :: _ =>
      let items := Main.keys cart in
      match show_quantities items cart with
      | Raise e => Raise e
      | Ok _ =>
          match inputs with
          | [] => Raise EOFError
          | line :: inputs1 =>
              match Builtins.int (Builtins.strip line) with
              | None => Ok (cart, inventory, inputs1)
              | Some item_num =>
                  if (item_num =? 0)%Z then Ok (cart, inventory, inputs1)
                  else if valid_number item_num items then
                    match items !! Z.to_nat (item_num - 1) with
                    | None => Raise IndexError
                    | Some item =>
                        match inputs1 with
                        | [] => Raise EOFError
                        | line2 :: inputs2 =>
                            match Builtins.int (Builtins.strip line2) with
                            | None => Ok (cart, inventory, inputs2)
                            | Some qty_to_remove =>
                                if (0 <? qty_to_remove)%Z then
                                  match Dict.getitem cart item with
                                  | None => Raise KeyError
                                  | Some held =>
                                      if (qty_to_remove <=? held)%Z then
                                        match take_from_cart cart inventory item
                                                held qty_to_remove with
                                        | Ok (cart', inventory') =>
                                            Ok (cart', inventory', inputs2)
                                        | Raise e => Raise e
                                        end
                                      else Ok (cart, inventory, inputs2)
                                  end
                                else Ok (cart, inventory, inputs2)
                            end
                        end
                    end
                  else Ok (cart, inventory, inputs1)
              end
          end
      end
  end.

(** The "Clear Cart" branch of [manage_cart]:
    [for item, qty in cart.items():
       if item in inventory: inventory[item] += qty]
    [cart.clear()] *)
Definition restore_item (inventory : Main.dict) (entry : str * Z) : Main.dict :=
  let '(item, qty) := entry in
  match Dict.getitem inventory item with
  | Some value => Main.setitem inventory item (value + qty)
  | None => inventory
  end.

Definition clear_cart (cart inventory : Main.dict) : Main.dict * Main.dict :=
  ([], fold_left restore_item cart inventory).

(** The summary loop of [checkout]:
    [for item, qty in cart.items():
       price = inventory.get(item)
       if price is None: continue
       item_total = price * qty
       total += item_total
       print(f"{item}: {qty} x {format_currency(price)} = {format_currency(item_total)}")] *)
Fixpoint summary_loop (inventory : Main.dict) (entries : Main.dict) (total : Z)
  : result Z :=
  match entries with
  | [] => Ok total
  | (item, qty) :: entries' =>
      match Dict.getitem inventory item with
      | None => summary_loop inventory entries' total
      | Some price =>
          let item_total := (price * qty)%Z in
          let total' := (total + item_total)%Z in
          match format_int qty with
          | Raise e => Raise e
          | Ok _ =>
              match format_currency price with
              | Raise e => Raise e
              | Ok _ =>
                  match format_currency item_total with
                  | Raise e => Raise e
                  | Ok _ => summary_loop inventory entries' total'
                  end
              end
          end
      end
  end.

(** [checkout] up to the question "Proceed to payment?": [None] when
    the cart is empty and nothing is shown, otherwise the total shown. *)
Definition checkout_summary (cart inventory : Main.dict) : result (option Z) :=
  match cart with
  | [] => Ok None
  | _ :: _ =>
      match summary_loop inventory cart 0 with
      | Raise e => Raise e
      | Ok total =>
          match format_currency total with
          | Raise e => Raise e
          | Ok _ => Ok (Some total)
          end
      end
  end.

End Run.

(** ** The notions used for the cart *)

(** [cart.get(name, 0)]: the quantity of [name] held in the cart. *)
Definition held (cart : Main.dict) (name : str) : Z :=
  default 0%Z (Dict.getitem cart name).

(** What the session accounts for under [name]: the value the inventory
    copy holds plus the quantity in the cart; nothing when the
    inventory has no such name. *)
Definition accounted (inventory cart : Main.dict) (name : str) : option Z :=
  (fun value => (value + held cart name)%Z) <$> Dict.getitem inventory name.

(** The state of a purchase session that started from the catalogue
    [catalogue] with an empty cart. *)
Record session (catalogue cart inventory : Main.dict) : Prop := {
  session_catalogue_keys : NoDup (Main.keys catalogue);
  session_cart_keys : NoDup (Main.keys cart);
  session_inventory_keys : Main.keys inventory = Main.keys catalogue;
  session_cart_known : forall name, In name (Main.keys cart) ->
                                    In name (Main.keys inventory);
  session_positive : Forall (fun entry => (0 < snd entry)%Z) cart;
  session_accounted : forall name,
      accounted inventory cart name = Dict.getitem catalogue name
}.

(** The amount charged for one cart entry when the inventory copy of the
    session started as [catalogue]. *)
Definition charged (catalogue : Main.dict) (entry : str * Z) : Z :=
  match Dict.getitem catalogue (fst entry) with
  | Some value => ((value - snd entry) * snd entry)%Z
  | None => 0%Z
  end.

Definition sum_Z (l : list Z) : Z := fold_right Z.add 0%Z l.

(** ** Dictionaries with values of any type *)
Module Assoc.

(** [d.keys()] *)
Definition keys {V} (d : list (str * V)) : list str := map fst d.

(** [d[k]]; [None] is [KeyError]. *)
Fixpoint getitem {V} (d : list (str * V)) (k : str) : option V :=
  match d with
  | [] => None
  | (k', v) :: d' => if decide (k' = k) then Some v else getitem d' k
  end.

(** [d[k] = v] *)
Fixpoint setitem {V} (d : list (str * V)) (k : str) (v : V) : list (str * V) :=
  match d with
  | [] => [(k, v)]
  | (k', v') :: d' =>
      if decide (k' = k) then (k', v) :: d'
      else (k', v') :: setitem d' k v
  end.

End Assoc.

(** ** main.py: the accounts

    Balances are Python floats.  The functions below only store them,
    print them with [str] and read them with [float]: the type and these
    two conversions are parameters. *)
Module Accounts.

Section WithFloat.

Variable float : Type.

(** [str(x)] of a float, as an f-string prints it. *)
Variable float_str : float -> str.

(** [float(s)]; [None] is [ValueError]. *)
Variable float_of_str : str -> option float.

(** The value of [accounts[username]]. *)
Record account := { email : str; password : str; balance : float }.

(** The text of a file as the file object hands it out: [\r\n] and [\r]
    become [\n]. *)
Fixpoint universal_newlines (text : str) : str :=
  match text with
  | [] => []
  | c :: text' =>
      if Ascii.eqb c (chr 13) then
        match text' with
        | d :: text'' =>
            if Ascii.eqb d (chr 10) then chr 10 :: universal_newlines text''
            else chr 10 :: universal_newlines text'
        | [] => [chr 10]
        end
      else c :: universal_newlines text'
  end.

(** [for line in f]: the lines of the text, each with its line break. *)
Fixpoint readlines (text : str) : list str :=
  match text with
  | [] => []
  | c :: text' =>
      if Ascii.eqb c (chr 10) then [c] :: readlines text'
      else match readlines text' with
           | [] => [[c]]
           | line :: lines => (c :: line) :: lines
           end
  end.

(** One pass of the loop of [load_accounts]. *)
Definition load_line (accounts : list (str * account)) (line : str)
  : result (list (str * account)) :=
  let line := Builtins.strip line in
  if bool_decide (line = []) then Ok accounts
  else
    let parts := map Builtins.strip (Builtins.split_sep "," line) in
    match parts with
    | [username; email; password; balance] =>
        match float_of_str balance with
        | None => Raise ValueError
        | Some b =>
            Ok (Assoc.setitem accounts username
                  {| email := email; password := password; balance := b |})
        end
    | _ => Ok accounts
    end.

Fixpoint load_lines (accounts : list (str * account)) (lines : list str)
  : result (list (str * account)) :=
  match lines with
  | [] => Ok accounts
  | line :: lines' =>
      match load_line accounts line with
      | Ok accounts' => load_lines accounts' lines'
      | Raise e => Raise e
      end
  end.

(** [load_accounts(accounts_file)]: [file] is the text stored in the
    file, [None] when the file does not exist. *)
Definition load_accounts (file : option str) : result (list (str * account)) :=
  match file with
  | None => Ok []
  | Some text => load_lines [] (readlines (universal_newlines text))
  end.

(** The line written for one account. *)
Definition account_line (entry : str * account) : str :=
  let '(username, data) := entry in
  username ++ py ", " ++ email data ++ py ", " ++ password data ++ py ", "
  ++ float_str (balance data) ++ [chr 10].

(** [save_accounts(accounts_file, accounts)]: the text written. *)
Definition save_accounts (accounts : list (str * account)) : str :=
  concat (map account_line accounts).

(** The loop of [sign_in] that looks the account up:
    [for uname, data in accounts.items():
       if uname == username_or_email or data['email'] == username_or_email:
         account_username = uname; break] *)
Fixpoint find_account (accounts : list (str * account))
    (username_or_email : str) : option str :=
  match accounts with
  | [] => None
  | (uname, data) :: accounts' =>
      if bool_decide (uname = username_or_email)
         || bool_decide (email data = username_or_email)
      then Some uname
      else find_account accounts' username_or_email
  end.

(** [sign_in(accounts)] *)
Definition sign_in (accounts : list (str * account)) (inputs : list str)
  : result (option str * list str) :=
  match inputs with
  | [] => Raise EOFError
  | line :: inputs1 =>
      let username_or_email := Builtins.strip line in
      match find_account accounts username_or_email with
      | None => Ok (None, inputs1)
      | Some account_username =>
          if bool_decide (account_username = []) then Ok (None, inputs1)
          else
            match inputs1 with
            | [] => Raise EOFError
            | line2 :: inputs2 =>
                let typed := Builtins.strip line2 in
                match Assoc.getitem accounts account_username with
                | None => Raise KeyError
                | Some data =>
                    if bool_decide (password data = typed)
                    then Ok (Some account_username, inputs2)
                    else Ok (None, inputs2)
                end
            end
      end
  end.

(** The float [0.0]. *)
Variable float_zero : float.

(** The first loop of [sign_up]: asks until the username is not empty
    and not taken. *)
Fixpoint read_username (accounts : list (str * account)) (inputs : list str)
  : result (str * list str) :=
  match inputs with
  | [] => Raise EOFError
  | line :: inputs' =>
      let username := Builtins.strip line in
      if bool_decide (username = []) then read_username accounts inputs'
      else if truthy (Assoc.getitem accounts username)
      then read_username accounts inputs'
      else Ok (username, inputs')
  end.

(** The second loop: asks until the e-mail address is not empty and
    not registered. *)
Fixpoint read_email (accounts : list (str * account)) (inputs : list str)
  : result (str * list str) :=
  match inputs with
  | [] => Raise EOFError
  | line :: inputs' =>
      let address := Builtins.strip line in
      if bool_decide (address = []) then read_email accounts inputs'
      else if existsb (fun entry => bool_decide (email (snd entry) = address))
                      accounts
      then read_email accounts inputs'
      else Ok (address, inputs')
  end.

(** The loop of option 1: asks until [validate_password] accepts. *)
Fixpoint read_typed_password (inputs : list str) : result (str * list str) :=
  match inputs with
  | [] => Raise EOFError
  | line :: inputs' =>
      let typed := Builtins.strip line in
      if Utility.validate_password typed then Ok (typed, inputs')
      else read_typed_password inputs'
  end.

(** The loop that asks how to set the password; [k] counts the random
    draws made so far. *)
Fixpoint read_password (draw : nat -> nat) (inputs : list str) (k : nat)
  : result (str * list str * nat) :=
  match inputs with
  | [] => Raise EOFError
  | line :: inputs' =>
      let pwd_choice := Builtins.strip line in
      if bool_decide (pwd_choice = py "1") then
        match read_typed_password inputs' with
        | Ok (typed, inputs'') => Ok (typed, inputs'', k)
        | Raise e => Raise e
        end
      else if bool_decide (pwd_choice = py "2") then
        match Utility.generate_password draw 16 k with
        | Some (generated, k') => Ok (generated, inputs', k')
        | None => Raise IndexError
        end
      else read_password draw inputs' k
  end.

(** [sign_up(accounts, accounts_file)]: returns the accounts after the
    call, the text written to the accounts file, the input lines left
    and the number of random draws made. *)
Definition sign_up (draw : nat -> nat) (accounts : list (str * account))
    (inputs : list str) (k : nat)
  : result (list (str * account) * str * list str * nat) :=
  match read_username accounts inputs with
  | Raise e => Raise e
  | Ok (username, inputs1) =>
      match read_email accounts inputs1 with
      | Raise e => Raise e
      | Ok (address, inputs2) =>
          match read_password draw inputs2 k with
          | Raise e => Raise e
          | Ok (pass, inputs3, k') =>
              let accounts' :=
                Assoc.setitem accounts username
                  {| email := address; password := pass;
                     balance := float_zero |} in
              Ok (accounts', save_accounts accounts', inputs3, k')
          end
      end
  end.

End WithFloat.

End Accounts.

Arguments Accounts.email {float} _.
Arguments Accounts.password {float} _.
Arguments Accounts.balance {float} _.
Arguments Accounts.Build_account {float} _ _ _.
Arguments Accounts.readlines _ : clear implicits.
Arguments Accounts.universal_newlines _ : clear implicits.
Arguments Accounts.load_line {float} _ _ _.
Arguments Accounts.load_lines {float} _ _ _.
Arguments Accounts.load_accounts {float} _ _.
Arguments Accounts.account_line {float} _ _.
Arguments Accounts.save_accounts {float} _ _.
Arguments Accounts.find_account {float} _ _.
Arguments Accounts.sign_in {float} _ _.

Arguments Accounts.read_username {float} _ _.
Arguments Accounts.read_email {float} _ _.
Arguments Accounts.sign_up {float} _ _ _ _ _ _.

(** ** The notions used for the accounts file *)

(** A text without a line break. *)
Definition one_line (s : str) : Prop := ~ In (chr 10) s /\ ~ In (chr 13) s.

(** A field that the accounts file stores as it is: no whitespace at
    either end, no comma and no line break. *)
Definition plain_field (s : str) : Prop :=
  Builtins.strip s = s /\ ~ In ","%char s /\ one_line s.

(** The three text fields of an account. *)
Definition account_fields {float} (entry : str * Accounts.account float)
  : list str :=
  [fst entry; Accounts.email (snd entry); Accounts.password (snd entry)].

(** The text of an account line before its line break. *)
Definition line_body {float} (float_str : float -> str)
    (entry : str * Accounts.account float) : str :=
  fst entry ++ py ", " ++ Accounts.email (snd entry) ++ py ", "
  ++ Accounts.password (snd entry) ++ py ", "
  ++ float_str (Accounts.balance (snd entry)).

(** The e-mail addresses of the accounts, in order. *)
Definition emails {float} (accounts : list (str * Accounts.account float))
  : list str :=
  map (fun entry => Accounts.email (snd entry)) accounts.

Example split_ex : Str.split (py "  Apple   Watch ") = [py "Apple"; py "Watch"].
Proof. reflexivity. Qed.

Example search_ex :
  Search.search_inventory (py "Apple Watch")
    [py "Apple Watch Series 8"; py "Apple iPhone 14"; py "Watch Dog Game"]
  = Some [py "Apple Watch Series 8"].
Proof. vm_compute. reflexivity. Qed.

Example search_ex2 :
  Search.search_inventory (py "iPhone (2022)")
    [py "Refurb iPhone (2022) 128GB"; py "iPhone 13"]
  = Some [py "Refurb iPhone (2022) 128GB"].
Proof. vm_compute. reflexivity. Qed.

Example special_chars_codes :
  map ord (List.filter Re.is_special all_ascii)
  = [9; 10; 11; 12; 13; 32; 35; 36; 38; 40; 41; 42; 43; 45; 46; 63;
     91; 92; 93; 94; 123; 124; 125; 126].
Proof. vm_compute. reflexivity. Qed.

Example escape_ex : Re.escape (py "iPhone (2022)") = py "iPhone\ \(2022\)".
Proof. reflexivity. Qed.

(** Unescaped, the same characters are pattern syntax: a dot stands for
    any character, and a parenthesis opens a group. *)
Example parse_dot :
  Re.parse (py "a.c") = Some [Re.LITERAL "a"; Re.ANY; Re.LITERAL "c"].
Proof. reflexivity. Qed.

Example parse_group : Re.parse (py "(2022)") = None.
Proof. reflexivity. Qed.

Example search_dot_unescaped :
  (p ← Re.compile (py "a.c") {| Re.IGNORECASE := true |}; Re.search p (py "xxABC"))
  = Some {| Re.m_start := 2; Re.m_end := 5 |}.
Proof. reflexivity. Qed.

Example search_dot_escaped :
  (p ← Re.compile (Re.escape (py "a.c")) {| Re.IGNORECASE := true |};
   Re.search p (py "xxABC")) = None.
Proof. reflexivity. Qed.

Example search_anchor_end :
  (p ← Re.compile (py "c$") {| Re.IGNORECASE := true |};
   Re.search p (py "abc" ++ [Re.linebreak]))
  = Some {| Re.m_start := 2; Re.m_end := 3 |}.
Proof. reflexivity. Qed.

Example search_no_match :
  Search.search_inventory (py "nonexistent product")
    [py "Apple Watch"; py "Samsung TV"] = Some [].
Proof. vm_compute. reflexivity. Qed.

Example search_substring :
  Search.search_inventory (py "Phone") [py "iPhone 14"] = Some [py "iPhone 14"].
Proof. vm_compute. reflexivity. Qed.

Example setitem_order :
  Main.keys (Main.setitem (Main.setitem (Main.setitem [] (py "b") 1) (py "a") 2)
                          (py "b") 3)
  = [py "b"; py "a"].
Proof. reflexivity. Qed.

(** * Proofs *)

(** ** Character tables: properties checked on all 256 code points *)

Lemma all_ascii_complete (c : ascii) : In c all_ascii.
Proof.
  unfold all_ascii. rewrite <- (ascii_nat_embedding c).
  apply in_map, in_seq. pose proof (nat_ascii_bounded c). lia.
Qed.

Lemma forall_ascii (P : ascii -> bool) :
  forallb P all_ascii = true -> forall c, P c = true.
Proof.
  intros H c. rewrite forallb_forall in H. apply H, all_ascii_complete.
Qed.

Lemma forall_ascii2 (P : ascii -> ascii -> bool) :
  forallb (fun a => forallb (P a) all_ascii) all_ascii = true ->
  forall a b, P a b = true.
Proof.
  intros H a b.
  apply (forall_ascii (P a)), (forall_ascii (fun a => forallb (P a) all_ascii) H).
Qed.

Lemma ascii_eqb_true (a b : ascii) : Ascii.eqb a b = true <-> a = b.
Proof. apply Ascii.eqb_eq. Qed.

(** An escaped character is never an ASCII letter or digit, so the
    backslash in front of it cannot start a class or a group reference. *)
Lemma special_not_alnum (c : ascii) :
  Re.is_special c = true -> Re.is_ascii_alnum c = false.
Proof.
  revert c.
  assert (H : forall c, implb (Re.is_special c) (negb (Re.is_ascii_alnum c)) = true)
    by (apply forall_ascii; vm_compute; reflexivity).
  intros c Hc. specialize (H c). rewrite Hc in H. simpl in H.
  by apply negb_true_iff.
Qed.

(** A character that [re.escape] leaves alone is none of the parser's
    special characters. *)
Lemma plain_not_syntax (c : ascii) :
  Re.is_special c = false ->
  Ascii.eqb c "\" = false /\ Ascii.eqb c "." = false /\
  Ascii.eqb c "^" = false /\ Ascii.eqb c "$" = false /\
  Re.is_operator c = false.
Proof.
  revert c.
  assert (H : forall c,
    Re.is_special c
    || (negb (Ascii.eqb c "\") && negb (Ascii.eqb c ".") &&
        negb (Ascii.eqb c "^") && negb (Ascii.eqb c "$") &&
        negb (Re.is_operator c)) = true)
    by (apply forall_ascii; vm_compute; reflexivity).
  intros c Hc. specialize (H c). rewrite Hc in H. simpl in H.
  repeat (apply andb_true_iff in H; destruct H as [H ?]).
  repeat split; by apply negb_true_iff.
Qed.

(** The literal operation compiled from [p] under [IGNORECASE] accepts
    exactly the characters equal to [p] up to case. *)
Lemma literal_op_match (p ch : ascii) :
  Re.op_match (Re.compile_node {| Re.IGNORECASE := true |} (Re.LITERAL p)) ch
  = Ascii.eqb (Str.tolower ch) (Str.tolower p).
Proof.
  revert p ch.
  assert (H : forall p ch,
    Bool.eqb
      (Re.op_match (Re.compile_node {| Re.IGNORECASE := true |} (Re.LITERAL p)) ch)
      (Ascii.eqb (Str.tolower ch) (Str.tolower p)) = true)
    by (apply forall_ascii2; vm_compute; reflexivity).
  intros p ch. by apply Bool.eqb_prop.
Qed.

(** ** The tokenizer *)

Lemma emit_nonempty (t : str) : t <> [] -> Str.emit t = [t].
Proof. by destruct t. Qed.

Lemma in_emit (t word : str) : In t (Str.emit word) -> t = word /\ word <> [].
Proof. destruct word; simpl; [tauto | intros [<- | []]; done]. Qed.

Lemma split_from_no_space (u : str) :
  no_space u -> forall word s,
  Str.split_from word (u ++ s) = Str.split_from (word ++ u) s.
Proof.
  induction 1 as [| c u Hc _ IH]; intros word s; simpl.
  - by rewrite app_nil_r.
  - rewrite Hc, IH. by rewrite <- app_assoc.
Qed.

Lemma split_from_app_space (w : ascii) (rest : str) :
  Str.isspace w = true -> forall s word,
  Str.split_from word (s ++ w :: rest)
  = Str.split_from word s ++ Str.split_from [] rest.
Proof.
  intros Hw. induction s as [| c s IH]; intros word; simpl.
  - by rewrite Hw.
  - destruct (Str.isspace c); [by rewrite IH, app_assoc | apply IH].
Qed.

Lemma split_app_space (a b : str) (w : ascii) :
  Str.isspace w = true -> Str.split (a ++ w :: b) = Str.split a ++ Str.split b.
Proof. intros Hw. by apply split_from_app_space. Qed.

Lemma split_single (t : str) : t <> [] -> no_space t -> Str.split t = [t].
Proof.
  intros Hne Hns. unfold Str.split.
  rewrite <- (app_nil_r t) at 1. rewrite split_from_no_space by done.
  simpl. by apply emit_nonempty.
Qed.

Lemma split_all_space (q : str) : all_space q -> Str.split q = [].
Proof.
  unfold Str.split. induction 1 as [| c q Hc _ IH]; simpl; [done |].
  by rewrite Hc.
Qed.

Lemma no_space_nil : no_space [].
Proof. constructor. Qed.

Lemma no_space_snoc (word : str) (c : ascii) :
  no_space word -> Str.isspace c = false -> no_space (word ++ [c]).
Proof. intros ? ?. apply Forall_app; split; [done | by constructor]. Qed.

(** The words found by the scan, in terms of the text [word ++ s]. *)
Lemma split_from_sound (t : str) :
  forall s word, no_space word -> In t (Str.split_from word s) ->
  t <> [] /\ no_space t /\
  exists pre post, word ++ s = pre ++ t ++ post /\
    (pre = [] \/ exists pre' w, pre = pre' ++ [w] /\ Str.isspace w = true) /\
    (post = [] \/ exists w post', post = w :: post' /\ Str.isspace w = true).
Proof.
  induction s as [| c s IH]; intros word Hword Hin; simpl in Hin.
  - apply in_emit in Hin as [-> Hne]. repeat split; [done..|].
    exists [], []. rewrite !app_nil_r. simpl. auto.
  - destruct (Str.isspace c) eqn:Hc.
    + apply in_app_or in Hin as [Hin | Hin].
      * apply in_emit in Hin as [-> Hne]. repeat split; [done..|].
        exists [], (c :: s). simpl. split; [done |]. split; [by left |].
        right. by exists c, s.
      * destruct (IH [] no_space_nil Hin)
          as (Hne & Hns & pre & post & Heq & Hpre & Hpost).
        repeat split; [done..|].
        exists (word ++ c :: pre), post. simpl in Heq. rewrite Heq.
        split; [by rewrite <- app_assoc |]. split; [| done]. right.
        destruct Hpre as [-> | (pre' & w & -> & Hw)].
        -- by exists word, c.
        -- exists (word ++ c :: pre'), w. split; [| done].
           by rewrite <- app_assoc.
    + destruct (IH (word ++ [c]) (no_space_snoc _ _ Hword Hc) Hin)
        as (Hne & Hns & pre & post & Heq & Hpre & Hpost).
      repeat split; [done..|]. exists pre, post.
      rewrite <- Heq, <- app_assoc. done.
Qed.

(** [str.split()] returns exactly the whitespace-delimited tokens. *)
Lemma split_tokens (q t : str) : In t (Str.split q) <-> is_token q t.
Proof.
  split.
  - intros Hin. by apply (split_from_sound t q [] no_space_nil).
  - intros (Hne & Hns & pre & post & -> & Hpre & Hpost).
    assert (Ht : In t (Str.split (t ++ post))).
    { unfold Str.split. rewrite split_from_no_space by done. simpl.
      destruct Hpost as [-> | (w & post' & -> & Hw)]; simpl.
      - rewrite emit_nonempty by done. by left.
      - rewrite Hw, emit_nonempty by done. by left. }
    destruct Hpre as [-> | (pre' & w & -> & Hw)]; [done |].
    rewrite <- app_assoc. simpl. rewrite split_app_space by done.
    apply in_or_app. by right.
Qed.

(** ** Escaping and compiling a term *)

(** Every character of an escaped term is parsed as a literal: no
    character of the term is read as pattern syntax, and parsing cannot
    fail. *)
Lemma parse_escape (t : str) :
  Re.parse (Re.escape t) = Some (map Re.LITERAL t).
Proof.
  induction t as [| c t IH]; [done |].
  unfold Re.escape in *. simpl. destruct (Re.is_special c) eqn:Hc; simpl.
  - rewrite (special_not_alnum c Hc), IH. done.
  - destruct (plain_not_syntax c Hc) as (-> & -> & -> & -> & ->).
    rewrite IH. done.
Qed.

Lemma compile_escape (t : str) :
  Re.compile (Re.escape t) {| Re.IGNORECASE := true |} = Some (term_pattern t).
Proof.
  unfold Re.compile. rewrite parse_escape. simpl.
  unfold term_pattern, literal_code. by rewrite map_map.
Qed.

Lemma compile_terms (terms : list str) :
  mapM (fun term => Re.compile (Re.escape term) {| Re.IGNORECASE := true |}) terms
  = Some (map term_pattern terms).
Proof.
  induction terms as [| t terms IH]; [done |].
  simpl. rewrite compile_escape. simpl. rewrite IH. done.
Qed.

(** ** The matching engine on literal patterns *)

Lemma match_here_literal_cons (p : ascii) (t : str) (b : bool) (rest : str) :
  Re.match_here (literal_code (p :: t)) b rest
  = match rest with
    | [] => None
    | ch :: rest' =>
        if Ascii.eqb (Str.tolower ch) (Str.tolower p)
        then S <$> Re.match_here (literal_code t) false rest'
        else None
    end.
Proof.
  destruct rest as [| ch rest'].
  - simpl. unfold Re.compile_node. simpl.
    destruct (Re.unicode_iscased p); simpl; [| done].
    by destruct (Re.EXTRA_CASES _).
  - rewrite <- (literal_op_match p ch). simpl.
    unfold Re.compile_node. simpl.
    destruct (Re.unicode_iscased p); simpl; [| done].
    by destruct (Re.EXTRA_CASES _).
Qed.

(** A literal pattern matches at a position exactly when the text there
    starts with the term, up to case; it then consumes the term's length. *)
Lemma match_here_literal (t : str) :
  forall b rest,
  truthy (Re.match_here (literal_code t) b rest) = true <->
  exists mid post, rest = mid ++ post /\ eq_ignoring_case mid t.
Proof.
  unfold eq_ignoring_case, Str.lower.
  induction t as [| p t IH]; intros b rest.
  - simpl. split; [| done]. intros _. by exists [], rest.
  - rewrite match_here_literal_cons. destruct rest as [| ch rest'].
    + simpl. split; [done |]. intros (mid & post & Heq & Hl).
      symmetry in Heq. apply app_eq_nil in Heq as [-> _]. done.
    + destruct (Ascii.eqb (Str.tolower ch) (Str.tolower p)) eqn:Hch.
      * apply Ascii.eqb_eq in Hch.
        transitivity (truthy (Re.match_here (literal_code t) false rest') = true).
        { by destruct (Re.match_here (literal_code t) false rest'). }
        rewrite IH. split.
        -- intros (mid & post & -> & Hl). exists (ch :: mid), post.
           simpl. by rewrite Hch, Hl.
        -- intros (mid & post & Heq & Hl). destruct mid as [| m mid]; [done |].
           simpl in Heq, Hl. injection Heq as <- ->. injection Hl as _ Hl.
           by exists mid, post.
      * simpl. split; [done |].
        intros (mid & post & Heq & Hl). destruct mid as [| m mid]; [done |].
        simpl in Heq, Hl. injection Heq as <- ->. injection Hl as Hm _.
        apply Ascii.eqb_neq in Hch. done.
Qed.

Lemma search_from_literal (t : str) :
  forall text pos,
  truthy (Re.search_from (literal_code t) pos text) = true <->
  contains_ignoring_case text t.
Proof.
  unfold contains_ignoring_case.
  induction text as [| ch text IH]; intros pos.
  - simpl. destruct (Re.match_here _ _ _) eqn:Hm.
    + simpl. split; [| done]. intros _.
      assert (Ht : truthy (Re.match_here (literal_code t) (Nat.eqb pos 0) []) = true)
        by (by rewrite Hm).
      apply match_here_literal in Ht as (mid & post & Heq & Hl).
      by exists [], mid, post.
    + simpl. split; [done |]. intros (pre & mid & post & Heq & Hl).
      symmetry in Heq. apply app_eq_nil in Heq as [-> Heq]. simpl in Heq.
      assert (Ht : truthy (Re.match_here (literal_code t) (Nat.eqb pos 0) []) = true).
      { apply match_here_literal. by exists mid, post. }
      by rewrite Hm in Ht.
  - simpl. destruct (Re.match_here _ _ _) eqn:Hm.
    + simpl. split; [| done]. intros _.
      assert (Ht : truthy (Re.match_here (literal_code t) (Nat.eqb pos 0) (ch :: text)) = true)
        by (by rewrite Hm).
      apply match_here_literal in Ht as (mid & post & Heq & Hl).
      by exists [], mid, post.
    + rewrite IH. split.
      * intros (pre & mid & post & -> & Hl). by exists (ch :: pre), mid, post.
      * intros (pre & mid & post & Heq & Hl). destruct pre as [| x pre].
        -- simpl in Heq.
           assert (Ht : truthy (Re.match_here (literal_code t) (Nat.eqb pos 0) (ch :: text)) = true).
           { apply match_here_literal. by exists mid, post. }
           by rewrite Hm in Ht.
        -- simpl in Heq. injection Heq as <- ->. by exists pre, mid, post.
Qed.

(** [pattern.search(item)] finds the pattern of a term exactly in the
    items that contain the term up to case. *)
Lemma search_term_pattern (t item : str) :
  truthy (Re.search (term_pattern t) item) = true <->
  contains_ignoring_case item t.
Proof. apply search_from_literal. Qed.

(** ** The search loop *)

Lemma append_loop_filter {A} (f : A -> bool) (l : list A) :
  forall acc,
  fold_left (fun out x => if f x then out ++ [x] else out) l acc
  = acc ++ List.filter f l.
Proof.
  induction l as [| x l IH]; intros acc; simpl.
  - by rewrite app_nil_r.
  - rewrite IH. destruct (f x); [by rewrite <- app_assoc | done].
Qed.

(** The call never raises, and returns the accepted items in order. *)
Lemma search_inventory_filter (query : str) (inventory : list str) :
  Search.search_inventory query inventory
  = Some (List.filter (accepts query) inventory).
Proof.
  unfold Search.search_inventory. rewrite compile_terms. simpl.
  by rewrite append_loop_filter.
Qed.

Lemma sublist_filter_bool {A} (f : A -> bool) (l : list A) :
  List.filter f l `sublist_of` l.
Proof.
  induction l as [| x l IH]; simpl; [constructor |].
  destruct (f x); by constructor.
Qed.

Lemma sublist_filter_impl {A} (f g : A -> bool) (l : list A) :
  (forall x, f x = true -> g x = true) ->
  List.filter f l `sublist_of` List.filter g l.
Proof.
  intros Hfg. induction l as [| x l IH]; simpl; [constructor |].
  destruct (f x) eqn:Hf.
  - rewrite (Hfg x Hf). by constructor.
  - destruct (g x); [by constructor | done].
Qed.

Lemma filter_all {A} (f : A -> bool) (l : list A) :
  (forall x, f x = true) -> List.filter f l = l.
Proof.
  intros Hf. induction l as [| x l IH]; simpl; [done |].
  by rewrite Hf, IH.
Qed.

(** * The search on arbitrary code points *)

(** ** The character tables *)

Lemma assoc_In {V} (k : N) (table : list (N * V)) (v : V) :
  Unicode.assoc k table = Some v -> In (k, v) table.
Proof.
  induction table as [| [k' v'] table IH]; simpl; [done |].
  destruct (N.eqb_spec k k') as [-> | _]; [intros [= ->]; by left | right; auto].
Qed.

Lemma assoc_None {V} (k : N) (table : list (N * V)) (v : V) :
  Unicode.assoc k table = None -> ~ In (k, v) table.
Proof.
  induction table as [| [k' v'] table IH]; simpl; [tauto |].
  destruct (N.eqb_spec k k') as [-> | Hne]; [done |].
  intros Hnone [[= <- <-] | Hin]; [done | by apply IH].
Qed.

Lemma tolower_cases (c : N) :
  Unicode.tolower c = c \/ In (c, Unicode.tolower c) Unicode.lower_table.
Proof.
  unfold Unicode.tolower. destruct (Unicode.assoc c _) eqn:H.
  - right. apply assoc_In, H.
  - left. reflexivity.
Qed.

Lemma isspace_In (c : N) : Unicode.isspace c = true <-> In c Unicode.whitespace.
Proof.
  unfold Unicode.isspace. rewrite existsb_exists. split.
  - intros (x & Hx & ->%N.eqb_eq). done.
  - intros Hc. exists c. split; [done | apply N.eqb_refl].
Qed.

(** Both sides of an entry of the lower-case table are cased, the right
    side is its own lower case, and neither is whitespace. *)
Lemma lower_table_entries (c l : N) :
  In (c, l) Unicode.lower_table ->
  Unicode.unicode_iscased c = true /\ Unicode.unicode_iscased l = true /\
  Unicode.tolower l = l /\ Unicode.isspace c = false /\ Unicode.isspace l = false.
Proof.
  assert (H : forallb (fun entry =>
                Unicode.unicode_iscased (fst entry)
                && Unicode.unicode_iscased (snd entry)
                && (Unicode.tolower (snd entry) =? snd entry)
                && negb (Unicode.isspace (fst entry))
                && negb (Unicode.isspace (snd entry)))
              Unicode.lower_table = true) by (vm_compute; reflexivity).
  intros Hin. rewrite forallb_forall in H. specialize (H _ Hin).
  cbn [fst snd] in H.
  repeat (apply andb_true_iff in H; destruct H as [H ?]).
  repeat split; try done; try (by apply negb_true_iff); by apply N.eqb_eq.
Qed.



Lemma uncased_tolower (c : N) :
  Unicode.unicode_iscased c = false -> Unicode.tolower c = c.
Proof.
  intros Hc. destruct (tolower_cases c) as [Heq | Hin]; [done |].
  apply lower_table_entries in Hin as (Hc' & _). congruence.
Qed.

Lemma tolower_uncased (ch p : N) :
  Unicode.unicode_iscased p = false -> Unicode.tolower ch = p -> ch = p.
Proof.
  intros Hp Hch. destruct (tolower_cases ch) as [Heq | Hin]; [congruence |].
  apply lower_table_entries in Hin as (_ & Hc & _). congruence.
Qed.

Lemma existsb_eqb_In (x : N) (l : list N) :
  existsb (N.eqb x) l = true <-> In x l.
Proof.
  rewrite existsb_exists. split.
  - intros (y & Hy & ->%N.eqb_eq). done.
  - intros Hx. exists x. split; [done | apply N.eqb_refl].
Qed.



(** ** Letters up to case *)






(** A character without case is only itself up to case. *)
Lemma same_letter_uncased (p ch : N) :
  Unicode.unicode_iscased p = false -> Unicode.same_letter p ch <-> ch = p.
Proof.
  intros Hp. unfold Unicode.same_letter, Unicode.variants.
  rewrite (uncased_tolower p Hp).
  destruct (Unicode.EXTRA_CASES p) as [vs |] eqn:Hextra.
  - apply assoc_In in Hextra.
    assert (H : forallb (fun entry => Unicode.unicode_iscased (fst entry))
                  Unicode.extra_cases = true) by (vm_compute; reflexivity).
    rewrite forallb_forall in H. specialize (H _ Hextra). simpl in H. congruence.
  - cbn [default]. split.
    + intros [Heq | []]. by apply (tolower_uncased ch p).
    + intros ->. left. symmetry. by apply uncased_tolower.
Qed.

(** The literal operation compiled from [p] under [IGNORECASE] accepts
    exactly the characters that are the letter [p] up to case. *)
Lemma unicode_literal_op_match (p ch : N) :
  Unicode.op_match
    (Unicode.compile_node {| Re.IGNORECASE := true |} (Unicode.LITERAL p)) ch = true
  <-> Unicode.same_letter p ch.
Proof.
  unfold Unicode.compile_node. cbn [Re.IGNORECASE negb].
  destruct (Unicode.unicode_iscased p) eqn:Hp; cbn [negb].
  - unfold Unicode.same_letter, Unicode.variants, Unicode.unicode_tolower.
    destruct (Unicode.EXTRA_CASES (Unicode.tolower p)) as [fixes |];
      cbn [Unicode.op_match default].
    + apply existsb_eqb_In.
    + unfold Unicode.unicode_tolower. rewrite N.eqb_eq. split.
      * intros <-. by left.
      * by intros [-> | []].
  - rewrite (same_letter_uncased p ch Hp). cbn [Unicode.op_match]. apply N.eqb_eq.
Qed.

(** ** The tokenizer *)

Lemma unicode_emit_nonempty (t : Unicode.str) : t <> [] -> Unicode.emit t = [t].
Proof. by destruct t. Qed.

Lemma unicode_in_emit (t word : Unicode.str) :
  In t (Unicode.emit word) -> t = word /\ word <> [].
Proof. destruct word; simpl; [tauto | intros [<- | []]; done]. Qed.

Lemma unicode_split_from_no_space (u : Unicode.str) :
  Unicode.no_space u -> forall word s,
  Unicode.split_from word (u ++ s) = Unicode.split_from (word ++ u) s.
Proof.
  induction 1 as [| c u Hc _ IH]; intros word s; cbn [app Unicode.split_from].
  - by rewrite app_nil_r.
  - rewrite Hc, IH. by rewrite <- app_assoc.
Qed.

Lemma unicode_split_from_app_space (w : N) (rest : Unicode.str) :
  Unicode.isspace w = true -> forall s word,
  Unicode.split_from word (s ++ w :: rest)
  = Unicode.split_from word s ++ Unicode.split_from [] rest.
Proof.
  intros Hw. induction s as [| c s IH]; intros word; cbn [app Unicode.split_from].
  - by rewrite Hw.
  - destruct (Unicode.isspace c); [by rewrite IH, app_assoc | apply IH].
Qed.

Lemma unicode_no_space_snoc (word : Unicode.str) (c : N) :
  Unicode.no_space word -> Unicode.isspace c = false ->
  Unicode.no_space (word ++ [c]).
Proof. intros ? ?. apply Forall_app; split; [done | by constructor]. Qed.

Lemma unicode_split_from_sound (t : Unicode.str) :
  forall s word, Unicode.no_space word -> In t (Unicode.split_from word s) ->
  t <> [] /\ Unicode.no_space t /\
  exists pre post, word ++ s = pre ++ t ++ post /\
    (pre = [] \/ exists pre' w, pre = pre' ++ [w] /\ Unicode.isspace w = true) /\
    (post = [] \/ exists w post', post = w :: post' /\ Unicode.isspace w = true).
Proof.
  induction s as [| c s IH]; intros word Hword Hin; cbn [Unicode.split_from] in Hin.
  - apply unicode_in_emit in Hin as [-> Hne]. repeat split; [done..|].
    exists [], []. rewrite !app_nil_r. simpl. auto.
  - destruct (Unicode.isspace c) eqn:Hc.
    + apply in_app_or in Hin as [Hin | Hin].
      * apply unicode_in_emit in Hin as [-> Hne]. repeat split; [done..|].
        exists [], (c :: s). simpl. split; [done |]. split; [by left |].
        right. by exists c, s.
      * assert (Hnil : Unicode.no_space []) by constructor.
        destruct (IH [] Hnil Hin)
          as (Hne & Hns & pre & post & Heq & Hpre & Hpost).
        repeat split; [done..|].
        exists (word ++ c :: pre), post. simpl in Heq. rewrite Heq.
        split; [by rewrite <- app_assoc |]. split; [| done]. right.
        destruct Hpre as [-> | (pre' & w & -> & Hw)].
        -- by exists word, c.
        -- exists (word ++ c :: pre'), w. split; [| done].
           by rewrite <- app_assoc.
    + destruct (IH (word ++ [c]) (unicode_no_space_snoc _ _ Hword Hc) Hin)
        as (Hne & Hns & pre & post & Heq & Hpre & Hpost).
      repeat split; [done..|]. exists pre, post.
      rewrite <- Heq, <- app_assoc. done.
Qed.

(** [str.split()] returns exactly the whitespace-delimited tokens. *)
Lemma unicode_split_tokens (q t : Unicode.str) :
  In t (Unicode.split q) <-> Unicode.is_token q t.
Proof.
  split.
  - intros Hin. apply (unicode_split_from_sound t q []); [constructor | done].
  - intros (Hne & Hns & pre & post & -> & Hpre & Hpost).
    assert (Ht : In t (Unicode.split (t ++ post))).
    { unfold Unicode.split. rewrite unicode_split_from_no_space by done.
      cbn [app].
      destruct Hpost as [-> | (w & post' & -> & Hw)]; cbn [Unicode.split_from].
      - rewrite unicode_emit_nonempty by done. by left.
      - rewrite Hw, unicode_emit_nonempty by done. by left. }
    destruct Hpre as [-> | (pre' & w & -> & Hw)]; [done |].
    rewrite <- app_assoc. cbn [app]. unfold Unicode.split.
    rewrite unicode_split_from_app_space by done.
    apply in_or_app. by right.
Qed.


(** ** Escaping and compiling a term *)

Lemma unicode_special_not_alnum (c : N) :
  Unicode.is_special c = true -> Unicode.is_ascii_alnum c = false.
Proof.
  intros Hc. apply existsb_eqb_In in Hc.
  assert (H : forallb (fun c => negb (Unicode.is_ascii_alnum c))
                Unicode.special_chars = true) by (vm_compute; reflexivity).
  rewrite forallb_forall in H. apply negb_true_iff, H, Hc.
Qed.

Lemma unicode_plain_not_syntax (c : N) :
  Unicode.is_special c = false ->
  (c =? ord "\") = false /\ (c =? ord ".") = false /\
  (c =? ord "^") = false /\ (c =? ord "$") = false /\
  Unicode.is_operator c = false.
Proof.
  intros Hc.
  assert (Hnot : forall x, In x Unicode.special_chars -> (c =? x) = false).
  { intros x Hx. apply N.eqb_neq. intros ->.
    apply existsb_eqb_In in Hx. unfold Unicode.is_special in Hc. congruence. }
  repeat split; try (apply Hnot; vm_compute; tauto).
  destruct (Unicode.is_operator c) eqn:Hop; [| done].
  apply existsb_eqb_In in Hop.
  assert (H : forallb (fun x => existsb (N.eqb x) Unicode.special_chars)
                (Unicode.py "[{()*+?|") = true) by (vm_compute; reflexivity).
  rewrite forallb_forall in H. specialize (H c Hop).
  unfold Unicode.is_special in Hc. congruence.
Qed.

Lemma unicode_parse_escape (t : Unicode.str) :
  Unicode.parse (Unicode.escape t) = Some (map Unicode.LITERAL t).
Proof.
  induction t as [| c t IH]; [done |].
  unfold Unicode.escape in *. cbn [flat_map].
  destruct (Unicode.is_special c) eqn:Hc; cbn [app Unicode.parse].
  - rewrite N.eqb_refl, (unicode_special_not_alnum c Hc), IH. done.
  - destruct (unicode_plain_not_syntax c Hc) as (-> & -> & -> & -> & ->).
    rewrite IH. done.
Qed.

Lemma unicode_compile_escape (t : Unicode.str) :
  Unicode.compile (Unicode.escape t) {| Re.IGNORECASE := true |}
  = Some (Unicode.term_pattern t).
Proof.
  unfold Unicode.compile. rewrite unicode_parse_escape. simpl.
  unfold Unicode.term_pattern, Unicode.literal_code. by rewrite map_map.
Qed.

Lemma unicode_compile_terms (terms : list Unicode.str) :
  mapM (fun term => Unicode.compile (Unicode.escape term) {| Re.IGNORECASE := true |})
       terms
  = Some (map Unicode.term_pattern terms).
Proof.
  induction terms as [| t terms IH]; [done |].
  cbn [mapM]. rewrite unicode_compile_escape. simpl. rewrite IH. done.
Qed.

(** ** The matching engine on literal patterns *)

Lemma unicode_match_here_literal_cons (p : N) (t : Unicode.str) (b : bool)
    (rest : Unicode.str) :
  Unicode.match_here (Unicode.literal_code (p :: t)) b rest
  = match rest with
    | [] => None
    | ch :: rest' =>
        if Unicode.op_match
             (Unicode.compile_node {| Re.IGNORECASE := true |} (Unicode.LITERAL p)) ch
        then S <$> Unicode.match_here (Unicode.literal_code t) false rest'
        else None
    end.
Proof.
  unfold Unicode.literal_code. cbn [map].
  unfold Unicode.compile_node at 1 3. cbn [Re.IGNORECASE negb].
  destruct (Unicode.unicode_iscased p); cbn [negb].
  - destruct (Unicode.EXTRA_CASES _); by destruct rest.
  - by destruct rest.
Qed.

(** A literal pattern matches at a position exactly when the text there
    starts with the letters of the term, up to case. *)
Lemma unicode_match_here_literal (t : Unicode.str) :
  forall b rest,
  truthy (Unicode.match_here (Unicode.literal_code t) b rest) = true <->
  exists mid post, rest = mid ++ post /\ Forall2 Unicode.same_letter t mid.
Proof.
  induction t as [| p t IH]; intros b rest.
  - simpl. split; [| done]. intros _. exists [], rest. split; [done | constructor].
  - rewrite unicode_match_here_literal_cons. destruct rest as [| ch rest'].
    + simpl. split; [done |]. intros (mid & post & Heq & Hl).
      symmetry in Heq. apply app_eq_nil in Heq as [-> _]. inversion Hl.
    + destruct (Unicode.op_match _ ch) eqn:Hch.
      * apply unicode_literal_op_match in Hch.
        transitivity
          (truthy (Unicode.match_here (Unicode.literal_code t) false rest') = true).
        { by destruct (Unicode.match_here (Unicode.literal_code t) false rest'). }
        rewrite IH. split.
        -- intros (mid & post & -> & Hl). exists (ch :: mid), post.
           split; [done | by constructor].
        -- intros (mid & post & Heq & Hl). inversion Hl as [| ? m ? mid' ? Hl']; subst.
           simpl in Heq. injection Heq as <- ->. by exists mid', post.
      * simpl. split; [done |].
        intros (mid & post & Heq & Hl). inversion Hl as [| ? m ? mid' Hm Hl']; subst.
        simpl in Heq. injection Heq as <- ->.
        apply unicode_literal_op_match in Hm. congruence.
Qed.

Lemma unicode_search_from_literal (t : Unicode.str) :
  forall text pos,
  truthy (Unicode.search_from (Unicode.literal_code t) pos text) = true <->
  Unicode.contains_ignoring_case text t.
Proof.
  unfold Unicode.contains_ignoring_case.
  induction text as [| ch text IH]; intros pos; cbn [Unicode.search_from].
  - destruct (Unicode.match_here _ _ _) eqn:Hm.
    + simpl. split; [| done]. intros _.
      assert (Ht : truthy (Unicode.match_here (Unicode.literal_code t)
                             (Nat.eqb pos 0) []) = true) by (by rewrite Hm).
      apply unicode_match_here_literal in Ht as (mid & post & Heq & Hl).
      by exists [], mid, post.
    + simpl. split; [done |]. intros (pre & mid & post & Heq & Hl).
      symmetry in Heq. apply app_eq_nil in Heq as [-> Heq]. simpl in Heq.
      assert (Ht : truthy (Unicode.match_here (Unicode.literal_code t)
                             (Nat.eqb pos 0) []) = true).
      { apply unicode_match_here_literal. by exists mid, post. }
      by rewrite Hm in Ht.
  - destruct (Unicode.match_here _ _ _) eqn:Hm.
    + simpl. split; [| done]. intros _.
      assert (Ht : truthy (Unicode.match_here (Unicode.literal_code t)
                             (Nat.eqb pos 0) (ch :: text)) = true)
        by (by rewrite Hm).
      apply unicode_match_here_literal in Ht as (mid & post & Heq & Hl).
      by exists [], mid, post.
    + rewrite IH. split.
      * intros (pre & mid & post & -> & Hl). by exists (ch :: pre), mid, post.
      * intros (pre & mid & post & Heq & Hl). destruct pre as [| x pre].
        -- simpl in Heq.
           assert (Ht : truthy (Unicode.match_here (Unicode.literal_code t)
                                  (Nat.eqb pos 0) (ch :: text)) = true).
           { apply unicode_match_here_literal. by exists mid, post. }
           by rewrite Hm in Ht.
        -- simpl in Heq. injection Heq as <- ->. by exists pre, mid, post.
Qed.

Lemma unicode_search_term_pattern (t item : Unicode.str) :
  truthy (Unicode.search (Unicode.term_pattern t) item) = true <->
  Unicode.contains_ignoring_case item t.
Proof. apply unicode_search_from_literal. Qed.

Lemma unicode_accepts_iff (query item : Unicode.str) :
  Unicode.accepts query item = true <->
  forall t, Unicode.is_token query t -> Unicode.contains_ignoring_case item t.
Proof.
  unfold Unicode.accepts. rewrite forallb_forall. split.
  - intros H t Ht. apply unicode_search_term_pattern, H, in_map.
    by apply unicode_split_tokens.
  - intros H pattern Hin. apply in_map_iff in Hin as (t & <- & Hin).
    apply unicode_search_term_pattern, H. by apply unicode_split_tokens.
Qed.

(** The call never raises, and returns the accepted items in order. *)
Lemma unicode_search_inventory_filter (query : Unicode.str)
    (inventory : list Unicode.str) :
  Unicode.search_inventory query inventory
  = Some (List.filter (Unicode.accepts query) inventory).
Proof.
  unfold Unicode.search_inventory. rewrite unicode_compile_terms. simpl.
  by rewrite append_loop_filter.
Qed.

(** ** Changing the case of the query *)


Lemma forallb_map_compose {A B} (f : B -> bool) (g : A -> B) (l : list A) :
  forallb f (map g l) = forallb (fun x => f (g x)) l.
Proof. induction l as [| x l IH]; [done |]. cbn [map forallb]. by rewrite IH. Qed.







(** ** Strings below U+0100 *)

Lemma below_256_In (c : N) : c < 256 -> In c (map N.of_nat (seq 0 256)).
Proof.
  intros Hc. rewrite <- (N2Nat.id c). apply in_map, in_seq. lia.
Qed.

(** Below U+0100 two characters are the same letter up to case exactly
    when they have the same lower case. *)
Lemma same_letter_below (p ch : N) :
  p < 256 -> ch < 256 ->
  Unicode.same_letter p ch <-> Unicode.tolower ch = Unicode.tolower p.
Proof.
  intros Hp Hch.
  assert (H : forallb (fun c =>
                (Unicode.tolower c <? 256)
                && forallb (fun v => 256 <=? v)
                     (default [] (Unicode.EXTRA_CASES (Unicode.tolower c))))
                (map N.of_nat (seq 0 256)) = true) by (vm_compute; reflexivity).
  rewrite forallb_forall in H.
  pose proof (H _ (below_256_In p Hp)) as [_ Hextra]%andb_true_iff.
  pose proof (H _ (below_256_In ch Hch)) as [Hlow _]%andb_true_iff.
  apply N.ltb_lt in Hlow. rewrite forallb_forall in Hextra.
  unfold Unicode.same_letter, Unicode.variants. split.
  - intros [Heq | Hin]; [done |].
    specialize (Hextra _ Hin). apply N.leb_le in Hextra. lia.
  - intros ->. by left.
Qed.

Lemma same_letters_below (t mid : Unicode.str) :
  Unicode.below 256 t -> Unicode.below 256 mid ->
  Forall2 Unicode.same_letter t mid <->
  map Unicode.tolower mid = map Unicode.tolower t.
Proof.
  intros Ht. revert mid. induction Ht as [| p t Hp _ IH]; intros mid Hmid.
  - split.
    + intros H. by inversion H.
    + destruct mid; [constructor | done].
  - destruct Hmid as [| ch mid Hch Hmid].
    + split; [intros H; inversion H | done].
    + cbn [map]. split.
      * intros H. inversion H as [| ? ? ? ? Hl Hrest]; subst.
        f_equal; [by apply same_letter_below | by apply IH].
      * intros [= Hl Hrest]. constructor;
          [by apply same_letter_below | by apply IH].
Qed.

Lemma contains_below (c t : Unicode.str) :
  Unicode.below 256 c -> Unicode.below 256 t ->
  Unicode.contains_ignoring_case c t <->
  Unicode.contains_by (map Unicode.tolower) c t.
Proof.
  intros Hc Ht. unfold Unicode.contains_ignoring_case, Unicode.contains_by.
  split; intros (pre & mid & post & -> & Hmid); exists pre, mid, post;
    (split; [done |]);
    apply Forall_app in Hc as [_ [Hmid' _]%Forall_app];
    by apply same_letters_below.
Qed.

Lemma token_below (bound : N) (q t : Unicode.str) :
  Unicode.below bound q -> Unicode.is_token q t -> Unicode.below bound t.
Proof.
  intros Hq (_ & _ & pre & post & -> & _).
  by apply Forall_app in Hq as [_ [Ht _]%Forall_app].
Qed.

(** ** The model on U+0000..U+00FF inside the model on all code points *)

Lemma ord_eqb (a b : ascii) : (ord a =? ord b) = Ascii.eqb a b.
Proof.
  destruct (Ascii.eqb_spec a b) as [-> | Hne]; [apply N.eqb_refl |].
  apply N.eqb_neq. intros H. apply Hne.
  rewrite <- (ascii_N_embedding a), <- (ascii_N_embedding b).
  unfold ord in H. by rewrite H.
Qed.

(** On the characters below U+0100 the tables of [Unicode] are those of
    [Str] and [Re]. *)
Lemma encode_tables (c : ascii) :
  Unicode.isspace (ord c) = Str.isspace c /\
  Unicode.tolower (ord c) = ord (Str.tolower c) /\
  Unicode.unicode_iscased (ord c) = Re.unicode_iscased c /\
  Unicode.EXTRA_CASES (ord (Str.tolower c)) = Re.EXTRA_CASES (ord (Str.tolower c)).
Proof.
  revert c.
  assert (H : forall c,
    Bool.eqb (Unicode.isspace (ord c)) (Str.isspace c)
    && (Unicode.tolower (ord c) =? ord (Str.tolower c))
    && Bool.eqb (Unicode.unicode_iscased (ord c)) (Re.unicode_iscased c)
    && bool_decide (Unicode.EXTRA_CASES (ord (Str.tolower c))
                    = Re.EXTRA_CASES (ord (Str.tolower c))) = true)
    by (apply forall_ascii; vm_compute; reflexivity).
  intros c. specialize (H c).
  rewrite !andb_true_iff, bool_decide_eq_true, N.eqb_eq in H.
  destruct H as [[[H1 H2] H3] H4].
  repeat split; [by apply Bool.eqb_prop | done | by apply Bool.eqb_prop | done].
Qed.

Lemma encode_split_from (s : str) :
  forall word,
  Unicode.split_from (encode word) (encode s) = map encode (Str.split_from word s).
Proof.
  induction s as [| c s IH]; intros word; cbn [encode map Unicode.split_from Str.split_from].
  - by destruct word.
  - destruct (encode_tables c) as (-> & _). destruct (Str.isspace c).
    + rewrite map_app. f_equal; [by destruct word | apply (IH [])].
    + rewrite <- IH. unfold encode. by rewrite map_app.
Qed.

Lemma encode_compile_node (p : ascii) :
  Unicode.compile_node {| Re.IGNORECASE := true |} (Unicode.LITERAL (ord p))
  = encode_op (Re.compile_node {| Re.IGNORECASE := true |} (Re.LITERAL p)).
Proof.
  unfold Unicode.compile_node, Re.compile_node, Unicode.unicode_tolower,
    Re.unicode_tolower.
  cbn [Re.IGNORECASE negb].
  destruct (encode_tables p) as (_ & -> & -> & ->).
  destruct (Re.unicode_iscased p); cbn [negb]; [| done].
  by destruct (Re.EXTRA_CASES _).
Qed.

Lemma encode_literal_code (t : str) :
  Unicode.literal_code (encode t) = map encode_op (literal_code t).
Proof.
  unfold Unicode.literal_code, literal_code, encode. rewrite !map_map.
  apply map_ext. intros p. apply encode_compile_node.
Qed.

Lemma encode_op_match (o : Re.op) (ch : ascii) :
  Unicode.op_match (encode_op o) (ord ch) = Re.op_match o ch.
Proof.
  destruct o; cbn [encode_op Unicode.op_match Re.op_match];
    unfold Unicode.unicode_tolower, Re.unicode_tolower;
    try (destruct (encode_tables ch) as (_ & -> & _)); try done.
  unfold Unicode.linebreak, Re.linebreak. by rewrite <- ord_eqb.
Qed.

Lemma encode_match_here (ops : list Re.op) :
  forall b rest,
  Unicode.match_here (map encode_op ops) b (encode rest) = Re.match_here ops b rest.
Proof.
  induction ops as [| o ops IH]; intros b rest; [done |].
  destruct o; cbn [map encode_op Unicode.match_here Re.match_here];
    try (destruct rest as [| ch rest]; cbn [encode map]; [done |];
         rewrite <- (encode_op_match _ ch); cbn [encode_op];
         destruct (Unicode.op_match _ _); [by rewrite <- IH | done]).
  - destruct b; [apply IH | done].
  - destruct rest as [| c [| c' rest]]; cbn [encode map]; [apply (IH b []) | | done].
    unfold Unicode.linebreak, Re.linebreak. rewrite <- ord_eqb.
    change (ord (chr 10)) with 10.
    destruct (ord c =? 10); [apply (IH b [c]) | done].
Qed.

Lemma encode_search_from (ops : list Re.op) :
  forall rest pos,
  Unicode.search_from (map encode_op ops) pos (encode rest)
  = Re.search_from ops pos rest.
Proof.
  induction rest as [| c rest IH]; intros pos;
    cbn [Unicode.search_from Re.search_from encode map].
  - rewrite (encode_match_here ops _ []). by destruct (Re.match_here _ _ _).
  - rewrite (encode_match_here ops _ (c :: rest)).
    destruct (Re.match_here _ _ _); [done | apply IH].
Qed.

Lemma encode_accepts (q item : str) :
  Unicode.accepts (encode q) (encode item) = accepts q item.
Proof.
  unfold Unicode.accepts, accepts, Unicode.split, Str.split.
  change [] with (encode []) at 1. rewrite encode_split_from.
  rewrite !forallb_map_compose.
  induction (Str.split_from [] q) as [| t terms IH]; [done |].
  cbn [forallb]. rewrite IH. f_equal.
  unfold Unicode.search, Re.search, Unicode.term_pattern, term_pattern.
  cbn [Unicode.code Re.code].
  by rewrite encode_literal_code, encode_search_from.
Qed.

(** The search of the first model is the search of the second on the
    strings below U+0100. *)
Lemma search_inventory_latin1 (q : str) (C : list str) :
  Unicode.search_inventory (encode q) (map encode C)
  = map encode <$> Search.search_inventory q C.
Proof.
  rewrite unicode_search_inventory_filter, search_inventory_filter.
  cbn [fmap option_fmap option_map]. f_equal.
  induction C as [| c C IH]; [done |]. cbn [map List.filter].
  rewrite encode_accepts, IH. by destruct (accepts q c).
Qed.

Lemma encode_below (s : str) : Unicode.below 256 (encode s).
Proof.
  unfold Unicode.below, encode. apply Forall_map, Forall_true. intros c.
  apply N.ltb_lt. revert c. apply forall_ascii. vm_compute. reflexivity.
Qed.

(** * The claims *)

Example unicode_search_ex :
  Unicode.search_inventory (Unicode.py "Apple Watch")
    [Unicode.py "Apple Watch Series 8"; Unicode.py "Apple iPhone 14";
     Unicode.py "Watch Dog Game"]
  = Some [Unicode.py "Apple Watch Series 8"].
Proof. vm_compute. reflexivity. Qed.

(** The query "i" also finds the capital I with a dot above, U+0130,
    whose upper case is itself: the name does not contain the letter i
    when the two sides are compared by their upper case either. *)
Example search_dotted_capital :
  Unicode.search_inventory (Unicode.py "i") [[0x130]] = Some [[0x130]] /\
  ~ Unicode.contains_by Unicode.upper [0x130] (Unicode.py "i").
Proof.
  split; [by vm_compute |].
  intros (pre & mid & post & Heq & Hu).
  destruct mid as [| m mid]; [by vm_compute in Hu |].
  destruct pre as [| x pre]; cbn [app] in Heq.
  - injection Heq as <- Heq. symmetry in Heq.
    apply app_eq_nil in Heq as [-> _]. by vm_compute in Hu.
  - injection Heq as _ Heq. symmetry in Heq.
    apply app_eq_nil in Heq as [_ Heq]. done.
Qed.

(** C1, as stated, fails: the query "i" returns the name made of the
    dotless i, U+0131, which does not contain the letter i when the two
    sides are compared by their lower case. *)
Lemma search_inventory_conjunctive_counterexample :
  Unicode.search_inventory (Unicode.py "i") [[0x131]] = Some [[0x131]] /\
  Unicode.is_token (Unicode.py "i") (Unicode.py "i") /\
  ~ Unicode.contains_by (map Unicode.tolower) [0x131] (Unicode.py "i").
Proof.
  split; [by vm_compute |]. split.
  - apply unicode_split_tokens. vm_compute. by left.
  - intros (pre & mid & post & Heq & Hl).
    destruct mid as [| m mid]; [by vm_compute in Hl |].
    destruct pre as [| x pre]; cbn [app] in Heq.
    + injection Heq as <- Heq. symmetry in Heq.
      apply app_eq_nil in Heq as [-> _]. by vm_compute in Hl.
    + injection Heq as _ Heq. symmetry in Heq.
      apply app_eq_nil in Heq as [_ Heq]. done.
Qed.

(** C1: for every query [q] and candidate list [C], the call returns, and
    a candidate is in the result if and only if it is a candidate of [C]
    and every whitespace-delimited token of [q] occurs in it as a
    substring, the characters being compared up to case as
    [re.IGNORECASE] does: by their lower case, a character also standing
    for the other lower-case characters with the same upper case.  When
    the query and the candidate are below U+0100 this is the comparison
    of the lower cases of the two sides. *)
Theorem search_inventory_conjunctive (q : Unicode.str) (C : list Unicode.str) :
  returns (Unicode.search_inventory q C) (fun r =>
    (forall c, In c r <->
       In c C /\
       forall t, Unicode.is_token q t -> Unicode.contains_ignoring_case c t) /\
    (Unicode.below 256 q ->
     forall c, Unicode.below 256 c ->
       In c r <->
       In c C /\
       forall t, Unicode.is_token q t ->
                 Unicode.contains_by (map Unicode.tolower) c t)).
Proof.
  exists (List.filter (Unicode.accepts q) C).
  split; [apply unicode_search_inventory_filter |].
  assert (H : forall c, In c (List.filter (Unicode.accepts q) C) <->
            In c C /\
            forall t, Unicode.is_token q t -> Unicode.contains_ignoring_case c t).
  { intros c. by rewrite List.filter_In, unicode_accepts_iff. }
  split; [exact H |].
  intros Hq c Hc. rewrite H. split; intros [HC Ht]; (split; [done |]);
    intros t Htoken; apply (contains_below c t Hc (token_below _ q t Hq Htoken)), Ht,
      Htoken.
Qed.

Lemma search_inventory_conjunctive_witness :
  Unicode.below 256 (Unicode.py "Apple Watch") /\
  Unicode.below 256 (Unicode.py "Apple Watch Series 8") /\
  returns (Unicode.search_inventory (Unicode.py "Apple Watch")
             [Unicode.py "Apple Watch Series 8"; Unicode.py "Apple iPhone 14"])
    (fun r =>
       In (Unicode.py "Apple Watch Series 8") r <->
       In (Unicode.py "Apple Watch Series 8")
          [Unicode.py "Apple Watch Series 8"; Unicode.py "Apple iPhone 14"] /\
       forall t, Unicode.is_token (Unicode.py "Apple Watch") t ->
                 Unicode.contains_by (map Unicode.tolower)
                   (Unicode.py "Apple Watch Series 8") t).
Proof.
  assert (Hq : Unicode.below 256 (Unicode.py "Apple Watch")).
  { unfold Unicode.below. apply (bool_decide_unpack _). by vm_compute. }
  assert (Hc : Unicode.below 256 (Unicode.py "Apple Watch Series 8")).
  { unfold Unicode.below. apply (bool_decide_unpack _). by vm_compute. }
  split; [exact Hq |]. split; [exact Hc |].
  destruct (search_inventory_conjunctive (Unicode.py "Apple Watch")
              [Unicode.py "Apple Watch Series 8"; Unicode.py "Apple iPhone 14"])
    as (r & Hr & _ & Hbelow).
  exists r. split; [exact Hr | exact (Hbelow Hq _ Hc)].
Defined.

(** C2: the result of a search is a subsequence of the candidate list:
    obtained from it by deleting elements, so every element of the result
    occurs in the list and the relative order is preserved. *)
Theorem search_inventory_subsequence (q : str) (C : list str) :
  returns (Search.search_inventory q C) (fun r =>
    r `sublist_of` C /\ incl r C).
Proof.
  exists (List.filter (accepts q) C). split; [apply search_inventory_filter |].
  split; [apply sublist_filter_bool | apply List.incl_filter].
Qed.

(** C3: a query that is empty or made of whitespace only returns the
    candidate list unchanged, in the same order. *)
Theorem search_inventory_blank_query (C : list str) :
  Search.search_inventory [] C = Some C /\
  forall q, all_space q -> Search.search_inventory q C = Some C.
Proof.
  assert (H : forall q, all_space q -> Search.search_inventory q C = Some C).
  { intros q Hq. rewrite search_inventory_filter. f_equal.
    apply filter_all. intros item. unfold accepts.
    by rewrite (split_all_space q Hq). }
  split; [apply H; constructor | exact H].
Qed.

Lemma search_inventory_blank_query_witness :
  all_space (py "   ") /\
  Search.search_inventory (py "   ") [py "Apple Watch"; py "Samsung TV"]
  = Some [py "Apple Watch"; py "Samsung TV"].
Proof.
  assert (H : all_space (py "   ")) by (repeat constructor).
  split; [exact H |].
  exact (proj2 (search_inventory_blank_query
                  [py "Apple Watch"; py "Samsung TV"]) (py "   ") H).
Defined.

(** C4: whatever characters a term contains, its escaped form is parsed
    into one literal item per character of the term, never into pattern
    syntax and never into an error; the compiled pattern is found in an
    item exactly when the item contains the term, up to case; and the
    query "iPhone (2022)" selects the item with the parenthesised year. *)
Theorem search_inventory_literal_terms :
  (forall t, Re.parse (Re.escape t) = Some (map Re.LITERAL t)) /\
  (forall t item,
     returns (Re.compile (Re.escape t) {| Re.IGNORECASE := true |})
       (fun pattern =>
          truthy (Re.search pattern item) = true <->
          contains_ignoring_case item t)) /\
  Search.search_inventory (py "iPhone (2022)")
    [py "Refurb iPhone (2022) 128GB"; py "iPhone 13"]
  = Some [py "Refurb iPhone (2022) 128GB"].
Proof.
  split; [apply parse_escape |]. split.
  - intros t item. exists (term_pattern t).
    split; [apply compile_escape | apply search_term_pattern].
  - vm_compute. reflexivity.
Qed.




(** C6: searching an empty candidate list returns the empty list, for
    every query. *)
Theorem search_inventory_no_candidates (q : str) :
  Search.search_inventory q [] = Some [].
Proof. by rewrite search_inventory_filter. Qed.

(** C8: the copy of the search in main.py, applied to a name-to-price
    mapping, returns what the search of search.py returns on the
    mapping's keys in iteration order. *)
Theorem main_search_inventory_keys (q : str) (inventory : Main.dict) :
  Main.search_inventory q inventory
  = Search.search_inventory q (Main.keys inventory).
Proof. reflexivity. Qed.

(** C9: adding a term to a query narrows the result: for a non-empty
    term [t] without whitespace, the result for [q], a space and [t] is a
    subsequence of the result for [q]. *)
Theorem search_inventory_more_terms (q t : str) (C : list str) :
  t <> [] -> no_space t ->
  returns (Search.search_inventory (q ++ py " " ++ t) C) (fun r' =>
    returns (Search.search_inventory q C) (fun r => r' `sublist_of` r)).
Proof.
  intros Hne Hns.
  exists (List.filter (accepts (q ++ py " " ++ t)) C).
  split; [apply search_inventory_filter |].
  exists (List.filter (accepts q) C).
  split; [apply search_inventory_filter |].
  apply sublist_filter_impl. intros item. unfold accepts. simpl.
  rewrite split_app_space by reflexivity.
  rewrite map_app, forallb_app, andb_true_iff. tauto.
Qed.

Lemma search_inventory_more_terms_witness :
  py "Watch" <> [] /\ no_space (py "Watch") /\
  returns (Search.search_inventory (py "Apple" ++ py " " ++ py "Watch")
             [py "Apple Watch Series 8"; py "Apple iPhone 14"])
    (fun r' =>
       returns (Search.search_inventory (py "Apple")
                  [py "Apple Watch Series 8"; py "Apple iPhone 14"])
         (fun r => r' `sublist_of` r)).
Proof.
  assert (Hne : py "Watch" <> []) by discriminate.
  assert (Hns : no_space (py "Watch")) by (repeat constructor).
  split; [exact Hne |]. split; [exact Hns |].
  exact (search_inventory_more_terms (py "Apple") (py "Watch") _ Hne Hns).
Defined.

(** C10: the search distributes over the concatenation of candidate
    lists: the result on [C1 ++ C2] is the result on [C1] followed by the
    result on [C2]; so a candidate is accepted or not on its own, and a
    candidate listed twice is returned twice when it is accepted. *)
Theorem search_inventory_app (q : str) (C1 C2 : list str) :
  returns (Search.search_inventory q C1) (fun r1 =>
    returns (Search.search_inventory q C2) (fun r2 =>
      Search.search_inventory q (C1 ++ C2) = Some (r1 ++ r2) /\
      forall c, returns (Search.search_inventory q [c]) (fun rc =>
        Search.search_inventory q (c :: C1) = Some (rc ++ r1) /\
        Search.search_inventory q [c; c] = Some (rc ++ rc)))).
Proof.
  exists (List.filter (accepts q) C1). split; [apply search_inventory_filter |].
  exists (List.filter (accepts q) C2). split; [apply search_inventory_filter |].
  split; [by rewrite search_inventory_filter, List.filter_app |].
  intros c. exists (List.filter (accepts q) [c]).
  split; [apply search_inventory_filter |].
  rewrite !search_inventory_filter. simpl.
  destruct (accepts q c); done.
Qed.

(** ** The search on the store of list objects *)

Lemma for_loop_filter (regex_patterns : list Re.Pattern)
    (inventory search_output : Heap.loc) (items : list str) :
  inventory <> search_output ->
  forall fuel index (h : gmap Heap.loc (list str)) acc,
  h !! inventory = Some items ->
  h !! search_output = Some acc ->
  (length items - index < fuel)%nat ->
  Heap.for_loop fuel regex_patterns inventory search_output index h
  = Done (<[search_output :=
             acc ++ List.filter
                      (fun item =>
                         forallb (fun pattern => truthy (Re.search pattern item))
                                 regex_patterns)
                      (drop index items)]> h).
Proof.
  intros Hne. induction fuel as [| fuel IH]; intros index h acc Hinv Hout Hfuel.
  - lia.
  - simpl. rewrite Hinv. destruct (items !! index) as [item |] eqn:Hitem.
    + rewrite (drop_S _ _ _ Hitem). simpl.
      apply lookup_lt_Some in Hitem.
      destruct (forallb _ regex_patterns).
      * unfold Heap.append. rewrite Hout. simpl.
        rewrite (IH (S index) _ (acc ++ [item])).
        -- by rewrite insert_insert_eq, <- app_assoc.
        -- by rewrite lookup_insert_ne.
        -- by rewrite lookup_insert_eq.
        -- lia.
      * apply IH; [done | done | lia].
    + apply lookup_ge_None in Hitem. rewrite drop_ge by done. simpl.
      by rewrite app_nil_r, insert_id.
Qed.

(** A call on the store returns a new list that holds the result of the
    search on the contents of [inventory], and changes no list that was
    in the store. *)
Lemma heap_search_inventory_spec (fuel : nat) (q : str) (inventory : Heap.loc)
    (h : gmap Heap.loc (list str)) (C : list str) :
  h !! inventory = Some C -> (length C < fuel)%nat ->
  exists out,
    Heap.search_inventory fuel q inventory h
    = Done (out, <[out := List.filter (accepts q) C]> h) /\
    h !! out = None.
Proof.
  intros Hinv Hfuel. unfold Heap.search_inventory, Heap.new_list.
  rewrite compile_terms.
  set (out := fresh (dom h)).
  assert (Hout : h !! out = None) by apply not_elem_of_dom, is_fresh.
  assert (Hne : inventory <> out) by (intros ->; congruence).
  exists out. split; [| done].
  rewrite (for_loop_filter _ inventory out C Hne fuel 0 _ []).
  - by rewrite insert_insert_eq.
  - by rewrite lookup_insert_ne.
  - by rewrite lookup_insert_eq.
  - lia.
Qed.

(** C7: the search is deterministic and has no hidden state: two calls
    with the same query, in any two stores in which the candidate list
    has the same contents, both return, and return lists with the same
    contents, which are those of the search on the contents; and a call
    changes no list of the store it runs in, the candidate list
    included: its result is a new list. *)
Theorem search_inventory_deterministic_pure (q : str) (C : list str)
    (inventory inventory' : Heap.loc) (h h' : gmap Heap.loc (list str))
    (fuel fuel' : nat) :
  h !! inventory = Some C -> h' !! inventory' = Some C ->
  (length C < fuel)%nat -> (length C < fuel')%nat ->
  exists out h1 out' h1',
    Heap.search_inventory fuel q inventory h = Done (out, h1) /\
    Heap.search_inventory fuel' q inventory' h' = Done (out', h1') /\
    h1 !! out = h1' !! out' /\
    h1 !! out = Search.search_inventory q C /\
    h !! out = None /\ h' !! out' = None /\
    h ⊆ h1 /\ h' ⊆ h1' /\
    h1 !! inventory = Some C /\ h1' !! inventory' = Some C.
Proof.
  intros Hinv Hinv' Hfuel Hfuel'.
  destruct (heap_search_inventory_spec fuel q inventory h C Hinv Hfuel)
    as (out & Hrun & Hout).
  destruct (heap_search_inventory_spec fuel' q inventory' h' C Hinv' Hfuel')
    as (out' & Hrun' & Hout').
  eexists out, _, out', _. split; [exact Hrun |]. split; [exact Hrun' |].
  rewrite !lookup_insert_eq, search_inventory_filter.
  repeat split; try done.
  - by apply insert_subseteq.
  - by apply insert_subseteq.
  - rewrite lookup_insert_ne; [done | intros ->; congruence].
  - rewrite lookup_insert_ne; [done | intros ->; congruence].
Qed.

Lemma search_inventory_deterministic_pure_witness :
  exists out h1 out' h1',
    Heap.search_inventory 3 (py "app") 1%positive
      {[ 1%positive := [py "Apple"; py "Pear"] ]} = Done (out, h1) /\
    Heap.search_inventory 5 (py "app") 7%positive
      {[ 2%positive := [py "Fig"]; 7%positive := [py "Apple"; py "Pear"] ]}
    = Done (out', h1') /\
    h1 !! out = h1' !! out' /\
    h1 !! out = Search.search_inventory (py "app") [py "Apple"; py "Pear"] /\
    ({[ 1%positive := [py "Apple"; py "Pear"] ]} : gmap Heap.loc (list str))
      !! out = None /\
    ({[ 2%positive := [py "Fig"]; 7%positive := [py "Apple"; py "Pear"] ]}
       : gmap Heap.loc (list str)) !! out' = None /\
    {[ 1%positive := [py "Apple"; py "Pear"] ]} ⊆ h1 /\
    {[ 2%positive := [py "Fig"]; 7%positive := [py "Apple"; py "Pear"] ]} ⊆ h1' /\
    h1 !! 1%positive = Some [py "Apple"; py "Pear"] /\
    h1' !! 7%positive = Some [py "Apple"; py "Pear"].
Proof.
  apply (search_inventory_deterministic_pure (py "app") [py "Apple"; py "Pear"]
           1%positive 7%positive);
    [reflexivity | reflexivity | simpl; lia | simpl; lia].
Defined.

(** * Further code of main.py *)

Example punctuation_text :
  Builtins.punctuation
  = py "!" ++ [chr 34] ++ py "#$%&'()*+,-./:;<=>?@[\]^_`{|}~".
Proof. reflexivity. Qed.

Example int_examples :
  map Builtins.int
    [py "5"; py " 5 "; py "+5"; py "-5"; py "--5"; py "1_000"; py "1__0";
     py "_1"; py "1_"; py ""; py "-"; py "007"; py "0x10"; py "1.0";
     [chr 28; "5"%char]; [chr 133; "5"%char; chr 160]; py "1 2"]
  = [Some 5; Some 5; Some 5; Some (-5); None; Some 1000; None;
     None; None; None; None; Some 7; None; None; None; Some 5; None]%Z.
Proof. reflexivity. Qed.

Example split_sep_examples :
  map (Builtins.split_sep ";") [py "a;b;;c"; py ""; py ";"]
  = [[py "a"; py "b"; py ""; py "c"]; [py ""]; [py ""; py ""]].
Proof. reflexivity. Qed.

Example rsplit1_examples :
  map (Builtins.rsplit1 ":") [py "a:b:c"; py "abc"; py ":"; py "a:"]
  = [[py "a:b"; py "c"]; [py "abc"]; [py ""; py ""]; [py "a"; py ""]].
Proof. reflexivity. Qed.

Example load_example :
  Utility.load_warehouse_inventory
    [py " Apple Watch : 500 ; iPhone 14:900;;bad;x:y; :7 ;a:b:3";
     py "   ";
     py "iPhone 14: 950"]
  = [(py "Apple Watch", 500); (py "iPhone 14", 950); (py "", 7);
     (py "a:b", 3)]%Z.
Proof. vm_compute. reflexivity. Qed.


(** ** Random draws *)

Lemma choice_spec {A} (draw : nat -> nat) (seq : list A) (k : nat) :
  seq <> [] ->
  exists x, Random.choice draw seq k = Some (x, S k) /\ In x seq.
Proof.
  intros Hne. unfold Random.choice.
  destruct (Nat.eqb_spec (length seq) 0) as [H0 | H0].
  { destruct seq; [done | discriminate]. }
  unfold Random.bind, Random.randbelow.
  assert (Hlt : (draw k mod length seq < length seq)%nat)
    by (apply Nat.mod_upper_bound; done).
  destruct (lookup_lt_is_Some_2 _ _ Hlt) as [x Hx].
  exists x. rewrite Hx. split; [done |].
  apply list_elem_of_In, list_elem_of_lookup. eauto.
Qed.

Lemma choices_spec {A} (draw : nat -> nat) (seq : list A) :
  seq <> [] -> forall n k,
  exists cs, Random.choices draw seq n k = Some (cs, (k + n)%nat) /\
             length cs = n /\ Forall (fun c => In c seq) cs.
Proof.
  intros Hne. induction n as [| n IH]; intros k.
  - exists []. simpl. unfold Random.ret. rewrite Nat.add_0_r. by repeat split.
  - destruct (choice_spec draw seq k Hne) as (c & Hc & Hin).
    destruct (IH (S k)) as (cs & Hcs & Hlen & Hall).
    exists (c :: cs). simpl. unfold Random.bind at 1. rewrite Hc.
    unfold Random.bind at 1. rewrite Hcs. unfold Random.ret.
    replace (S k + n)%nat with (k + S n)%nat by lia.
    split; [done |]. split; [simpl; by rewrite Hlen | by constructor].
Qed.

Lemma insert_swap_perm {A} (l : list A) (j : nat) (y a : A) :
  l !! j = Some y -> y :: <[j := a]> l ≡ₚ a :: l.
Proof.
  revert j. induction l as [| b l IH]; intros [| j] Hj; simplify_eq/=.
  - apply perm_swap.
  - etrans; [apply perm_swap |]. etrans; [apply perm_skip, (IH j Hj) |].
    apply perm_swap.
Qed.

Lemma swap_perm {A} (x : list A) (i j : nat) (xi xj : A) :
  x !! i = Some xi -> x !! j = Some xj ->
  <[j := xi]> (<[i := xj]> x) ≡ₚ x.
Proof.
  revert i j. induction x as [| a x IH]; intros [| i] [| j] Hi Hj; simplify_eq/=.
  - done.
  - by apply insert_swap_perm.
  - by apply insert_swap_perm.
  - f_equiv. by apply IH.
Qed.

Lemma swap_spec {A} (x : list A) (i j : nat) :
  (i < length x)%nat -> (j < length x)%nat ->
  exists x', Random.swap x i j = Some x' /\ x' ≡ₚ x.
Proof.
  intros Hi Hj.
  destruct (lookup_lt_is_Some_2 _ _ Hi) as [xi Hxi].
  destruct (lookup_lt_is_Some_2 _ _ Hj) as [xj Hxj].
  exists (<[j := xi]> (<[i := xj]> x)). split; [| by apply swap_perm].
  unfold Random.swap. rewrite Hxj, Hxi. simpl.
  rewrite decide_True by done. rewrite decide_True; [done |].
  by rewrite length_insert.
Qed.

Lemma shuffle_from_spec {A} (draw : nat -> nat) :
  forall i (x : list A) k, (i < length x)%nat ->
  exists x', Random.shuffle_from draw i x k = Some (x', (k + i)%nat) /\ x' ≡ₚ x.
Proof.
  induction i as [| i IH]; intros x k Hi.
  - exists x. simpl. unfold Random.ret. by rewrite Nat.add_0_r.
  - simpl. unfold Random.bind, Random.randbelow.
    assert (Hj : (draw k mod S (S i) < length x)%nat).
    { pose proof (Nat.mod_upper_bound (draw k) (S (S i))). lia. }
    destruct (swap_spec x (S i) _ Hi Hj) as (x1 & Hswap & Hperm).
    rewrite Hswap. simpl.
    destruct (IH x1 (S k)) as (x' & Hrun & Hperm').
    { apply Permutation_length in Hperm. lia. }
    exists x'. replace (k + S i)%nat with (S k + i)%nat by lia.
    split; [done | by rewrite Hperm'].
Qed.

(** [random.shuffle] returns a rearrangement of its argument. *)
Lemma shuffle_spec {A} (draw : nat -> nat) (x : list A) (k : nat) :
  exists x' k', Random.shuffle draw x k = Some (x', k') /\ x' ≡ₚ x.
Proof.
  unfold Random.shuffle. destruct x as [| a x].
  - exists [], k. by simpl.
  - destruct (shuffle_from_spec draw (length (a :: x) - 1) (a :: x) k)
      as (x' & Hrun & Hperm); [simpl; lia |].
    by exists x', (k + (length (a :: x) - 1))%nat.
Qed.

(** ** Passwords *)

Lemma existsb_perm {A} (f : A -> bool) (l l' : list A) :
  l ≡ₚ l' -> existsb f l = existsb f l'.
Proof.
  intros Hperm. apply eq_true_iff_eq. rewrite !existsb_exists.
  split; intros (x & Hin & Hx); exists x; split; try done.
  - by apply (Permutation_in _ Hperm).
  - by apply (Permutation_in _ (Permutation_sym Hperm)).
Qed.

Lemma forallb_In {A} (f : A -> bool) (l : list A) (x : A) :
  forallb f l = true -> In x l -> f x = true.
Proof. rewrite forallb_forall. auto. Qed.

(** What [generate_password] builds: a rearrangement of one lower-case
    letter, one upper-case letter, one digit, one punctuation character
    and [length - 4] characters of the alphabet. *)
Lemma generate_password_parts (draw : nat -> nat) (length : Z) (k : nat) :
  yields (Utility.generate_password draw length) k (fun pw =>
    exists c1 c2 c3 c4 more,
      pw ≡ₚ [c1; c2; c3; c4] ++ more /\
      In c1 Builtins.ascii_lowercase /\ In c2 Builtins.ascii_uppercase /\
      In c3 Builtins.digits /\ In c4 Builtins.punctuation /\
      List.length more = Z.to_nat (length - 4) /\
      Forall (fun c => In c password_alphabet) more).
Proof.
  unfold yields, Utility.generate_password.
  destruct (choice_spec draw Builtins.ascii_lowercase k) as (c1 & H1 & Hc1); [done |].
  destruct (choice_spec draw Builtins.ascii_uppercase (S k)) as (c2 & H2 & Hc2); [done |].
  destruct (choice_spec draw Builtins.digits (S (S k))) as (c3 & H3 & Hc3); [done |].
  destruct (choice_spec draw Builtins.punctuation (S (S (S k))))
    as (c4 & H4 & Hc4); [done |].
  destruct (choices_spec draw password_alphabet ltac:(done)
              (Z.to_nat (length - 4)) (S (S (S (S k)))))
    as (more & Hmore & Hlen & Hall).
  destruct (shuffle_spec draw ([c1; c2; c3; c4] ++ more)
              (S (S (S (S k))) + Z.to_nat (length - 4))%nat)
    as (pw & k' & Hrun & Hperm).
  exists pw, k'. split.
  - unfold Random.bind at 1. rewrite H1.
    unfold Random.bind at 1. rewrite H2.
    unfold Random.bind at 1. rewrite H3.
    unfold Random.bind at 1. rewrite H4.
    unfold Random.bind at 1. simpl List.length.
    change (Z.of_nat 4) with 4%Z.
    change (Builtins.ascii_letters ++ Builtins.digits ++ Builtins.punctuation)
      with password_alphabet.
    rewrite Hmore. exact Hrun.
  - exists c1, c2, c3, c4, more. done.
Qed.

Lemma lstrip_no_space (s : str) : no_space s -> Builtins.lstrip s = s.
Proof. destruct 1 as [| c s Hc _]; simpl; [done | by rewrite Hc]. Qed.

Lemma rstrip_no_space (s : str) : no_space s -> Builtins.rstrip s = s.
Proof.
  induction 1 as [| c s Hc _ IH]; simpl; [done |].
  rewrite IH, Hc. by destruct s.
Qed.

Lemma strip_no_space (s : str) : no_space s -> Builtins.strip s = s.
Proof.
  intros Hs. unfold Builtins.strip. by rewrite lstrip_no_space, rstrip_no_space.
Qed.

Lemma password_alphabet_no_space (c : ascii) :
  In c password_alphabet -> Str.isspace c = false.
Proof.
  intros Hin. apply negb_true_iff.
  revert Hin. apply (forallb_In (fun c => negb (Str.isspace c))). reflexivity.
Qed.

Lemma generate_password_alphabet (draw : nat -> nat) (length : Z) (k : nat) :
  yields (Utility.generate_password draw length) k (fun pw =>
    Forall (fun c => In c password_alphabet) pw).
Proof.
  destruct (generate_password_parts draw length k)
    as (pw & k' & Hrun & c1 & c2 & c3 & c4 & more & Hperm & H1 & H2 & H3 & H4 & _ & Hmore).
  exists pw, k'. split; [done |]. rewrite Hperm.
  assert (Hsub : forall (part : str),
            forallb (fun c => Builtins.contains_char password_alphabet c) part = true ->
            forall c, In c part -> In c password_alphabet).
  { intros part Hpart c Hc. pose proof (forallb_In _ _ _ Hpart Hc) as Hin.
    unfold Builtins.contains_char in Hin. apply existsb_exists in Hin as (d & Hd & Heq).
    apply Ascii.eqb_eq in Heq. by subst. }
  change ([c1; c2; c3; c4] ++ more) with (c1 :: c2 :: c3 :: c4 :: more).
  constructor; [by apply (Hsub Builtins.ascii_lowercase) |].
  constructor; [by apply (Hsub Builtins.ascii_uppercase) |].
  constructor; [by apply (Hsub Builtins.digits) |].
  constructor; [by apply (Hsub Builtins.punctuation) | done].
Qed.

(** X1: [generate_password(length)] always returns, and the password has
    [length] characters, or four when [length] is below four: the four
    required characters are drawn first whatever the length asked for. *)
Theorem generate_password_length (draw : nat -> nat) (length : Z) (k : nat) :
  yields (Utility.generate_password draw length) k (fun pw =>
    Z.of_nat (List.length pw) = Z.max length 4).
Proof.
  destruct (generate_password_parts draw length k)
    as (pw & k' & Hrun & c1 & c2 & c3 & c4 & more & Hperm & _ & _ & _ & _ & Hlen & _).
  exists pw, k'. split; [done |].
  rewrite (Permutation_length Hperm), length_app, Hlen. simpl. lia.
Qed.

Lemma generate_password_valid_iff (draw : nat -> nat) (length : Z) (k : nat) :
  yields (Utility.generate_password draw length) k (fun pw =>
    Utility.validate_password pw = true <-> (16 <= length)%Z).
Proof.
  destruct (generate_password_parts draw length k)
    as (pw & k' & Hrun & c1 & c2 & c3 & c4 & more & Hperm & H1 & H2 & H3 & H4 & Hlen & _).
  exists pw, k'. split; [done |].
  assert (Hpw : List.length pw = (4 + Z.to_nat (length - 4))%nat).
  { by rewrite (Permutation_length Hperm), length_app, Hlen. }
  assert (Hl : existsb Builtins.islower pw = true).
  { rewrite (existsb_perm _ _ _ Hperm). apply existsb_exists. exists c1.
    split; [simpl; auto |].
    revert H1. by apply (forallb_In Builtins.islower). }
  assert (Hu : existsb Builtins.isupper pw = true).
  { rewrite (existsb_perm _ _ _ Hperm). apply existsb_exists. exists c2.
    split; [simpl; auto |].
    revert H2. by apply (forallb_In Builtins.isupper). }
  assert (Hd : existsb Builtins.isdigit pw = true).
  { rewrite (existsb_perm _ _ _ Hperm). apply existsb_exists. exists c3.
    split; [simpl; auto |].
    revert H3. by apply (forallb_In Builtins.isdigit). }
  assert (Hs : existsb (Builtins.contains_char Builtins.punctuation) pw = true).
  { rewrite (existsb_perm _ _ _ Hperm). apply existsb_exists. exists c4.
    split; [simpl; auto 6 |].
    unfold Builtins.contains_char. apply existsb_exists. exists c4.
    split; [done | apply Ascii.eqb_refl]. }
  unfold Utility.validate_password. rewrite Hl, Hu, Hd, Hs, Hpw.
  cbn [andb].
  destruct (Nat.ltb_spec (4 + Z.to_nat (length - 4)) 16); split; intros;
    first [done | lia | exfalso; lia].
Qed.

(** X2: whatever the random draws, [validate_password] accepts the
    password made by [generate_password(length)] exactly when [length]
    is at least 16; the default length of 16 always passes. *)
Theorem generate_password_validates (draw : nat -> nat) (length : Z) (k : nat) :
  yields (Utility.generate_password draw length) k (fun pw =>
    Utility.validate_password pw = true <-> (16 <= length)%Z).
Proof. apply generate_password_valid_iff. Qed.

(** X3: a generated password is made of ASCII letters, digits and
    punctuation only, so it has no whitespace and [strip()], which the
    program applies to every typed password, leaves it as it is. *)
Theorem generate_password_strip (draw : nat -> nat) (length : Z) (k : nat) :
  yields (Utility.generate_password draw length) k (fun pw =>
    Forall (fun c => In c password_alphabet) pw /\ Builtins.strip pw = pw).
Proof.
  destruct (generate_password_alphabet draw length k) as (pw & k' & Hrun & Hall).
  exists pw, k'. split; [done |]. split; [done |].
  apply strip_no_space. eapply Forall_impl; [exact Hall |].
  intros c. apply password_alphabet_no_space.
Qed.

(** ** Stripping and splitting *)

Lemma rstrip_idemp (s : str) : Builtins.rstrip (Builtins.rstrip s) = Builtins.rstrip s.
Proof.
  induction s as [| c s IH]; simpl; [done |].
  destruct (Builtins.rstrip s) as [| d r] eqn:Hr.
  - destruct (Str.isspace c) eqn:Hc; simpl; [done | by rewrite Hc].
  - simpl in *. by rewrite IH.
Qed.

Lemma rstrip_head (c : ascii) (s : str) :
  Str.isspace c = false -> exists r, Builtins.rstrip (c :: s) = c :: r.
Proof.
  intros Hc. simpl. destruct (Builtins.rstrip s); rewrite ?Hc; eauto.
Qed.

Lemma lstrip_head (s : str) :
  Builtins.lstrip s = [] \/
  exists c t, Builtins.lstrip s = c :: t /\ Str.isspace c = false.
Proof.
  induction s as [| c s IH]; simpl; [by left |].
  destruct (Str.isspace c) eqn:Hc; [done | right; eauto].
Qed.

(** Stripping the right end first gives the same string. *)
Lemma strip_comm (s : str) :
  Builtins.rstrip (Builtins.lstrip s) = Builtins.lstrip (Builtins.rstrip s).
Proof.
  induction s as [| c s IH]; [done |].
  destruct (Str.isspace c) eqn:Hc.
  - simpl. rewrite Hc, IH. destruct (Builtins.rstrip s); simpl; [done |].
    by rewrite Hc.
  - destruct (rstrip_head c s Hc) as [r Hr].
    simpl Builtins.lstrip at 1. rewrite Hc, Hr. simpl. by rewrite Hc.
Qed.

Lemma strip_idemp (s : str) : Builtins.strip (Builtins.strip s) = Builtins.strip s.
Proof.
  unfold Builtins.strip.
  destruct (lstrip_head s) as [-> | (c & t & -> & Hc)]; [done |].
  destruct (rstrip_head c t Hc) as [r Hr].
  rewrite Hr. simpl Builtins.lstrip. rewrite Hc, <- Hr. apply rstrip_idemp.
Qed.

Lemma in_lstrip (c : ascii) (s : str) : In c (Builtins.lstrip s) -> In c s.
Proof.
  induction s as [| d s IH]; simpl; [done |].
  destruct (Str.isspace d); [auto | done].
Qed.

Lemma in_rstrip (c : ascii) (s : str) : In c (Builtins.rstrip s) -> In c s.
Proof.
  induction s as [| d s IH]; simpl; [done |].
  destruct (Builtins.rstrip s) as [| e r].
  - destruct (Str.isspace d); simpl; tauto.
  - intros [-> | Hin]; auto.
Qed.

Lemma in_strip (c : ascii) (s : str) : In c (Builtins.strip s) -> In c s.
Proof. intros H. by apply in_lstrip, in_rstrip. Qed.

Lemma split_sep_nonempty (sep : ascii) (s : str) : Builtins.split_sep sep s <> [].
Proof.
  induction s as [| c s IH]; simpl; [done |].
  destruct (Ascii.eqb c sep); [done |].
  by destruct (Builtins.split_sep sep s).
Qed.

(** No field of [s.split(sep)] contains the separator. *)
Lemma split_sep_fields (sep : ascii) (s : str) :
  Forall (fun field => ~ In sep field) (Builtins.split_sep sep s).
Proof.
  induction s as [| c s IH]; simpl.
  - constructor; [tauto | constructor].
  - destruct (Ascii.eqb_spec c sep) as [-> | Hne].
    + constructor; [tauto | done].
    + destruct (Builtins.split_sep sep s) as [| field fields]; simpl.
      * constructor; [| done]. simpl. intros [? | []]. done.
      * inversion IH; subst. constructor; [| done]. simpl. intros [? | ?]; done.
Qed.

(** Splitting a text made of two parts joined by the separator gives the
    fields of the first part followed by the fields of the second. *)
Lemma split_sep_app (sep : ascii) (a b : str) :
  Builtins.split_sep sep (a ++ sep :: b)
  = Builtins.split_sep sep a ++ Builtins.split_sep sep b.
Proof.
  induction a as [| c a IH]; simpl.
  - by rewrite Ascii.eqb_refl.
  - rewrite IH. destruct (Ascii.eqb c sep); [done |].
    pose proof (split_sep_nonempty sep a).
    by destruct (Builtins.split_sep sep a).
Qed.

Lemma split_sep_lstrip (sep : ascii) (s : str) :
  Str.isspace sep = false ->
  Forall2 (fun a b => Builtins.lstrip a = Builtins.lstrip b)
    (Builtins.split_sep sep (Builtins.lstrip s)) (Builtins.split_sep sep s).
Proof.
  intros Hsep. induction s as [| c s IH].
  - simpl. by repeat constructor.
  - simpl Builtins.lstrip. destruct (Str.isspace c) eqn:Hc.
    + simpl. destruct (Ascii.eqb_spec c sep) as [-> | Hne]; [congruence |].
      pose proof (split_sep_nonempty sep s).
      destruct (Builtins.split_sep sep s) as [| field fields]; [done |].
      inversion IH as [| a ? l ? Ha Hl]; subst.
      constructor; [| done]. simpl. by rewrite Hc.
    + apply Forall_Forall2_diag, Forall_forall. done.
Qed.

Lemma rstrip_cons_congr (c : ascii) (a b : str) :
  Builtins.rstrip a = Builtins.rstrip b ->
  Builtins.rstrip (c :: a) = Builtins.rstrip (c :: b).
Proof. intros H. simpl. by rewrite H. Qed.

Lemma rstrip_nil_all_space (s : str) : Builtins.rstrip s = [] -> all_space s.
Proof.
  induction s as [| c s IH]; simpl; [constructor |].
  destruct (Builtins.rstrip s) as [| d r]; [| done].
  destruct (Str.isspace c) eqn:Hc; [| done].
  intros _. constructor; [done | by apply IH].
Qed.

Lemma split_sep_all_space (sep : ascii) (s : str) :
  Str.isspace sep = false -> all_space s -> Builtins.split_sep sep s = [s].
Proof.
  intros Hsep. induction 1 as [| c s Hc _ IH]; simpl; [done |].
  destruct (Ascii.eqb_spec c sep) as [-> | Hne]; [congruence |].
  by rewrite IH.
Qed.

Lemma split_sep_rstrip (sep : ascii) (s : str) :
  Str.isspace sep = false ->
  Forall2 (fun a b => Builtins.rstrip a = Builtins.rstrip b)
    (Builtins.split_sep sep (Builtins.rstrip s)) (Builtins.split_sep sep s).
Proof.
  intros Hsep. induction s as [| c s IH].
  - simpl. by repeat constructor.
  - simpl Builtins.rstrip. destruct (Builtins.rstrip s) as [| d r] eqn:Hr.
    + pose proof (rstrip_nil_all_space s Hr) as Hall.
      simpl Builtins.split_sep at 2.
      rewrite (split_sep_all_space sep s Hsep Hall).
      destruct (Ascii.eqb_spec c sep) as [-> | Hne].
      * rewrite Hsep. simpl. rewrite Ascii.eqb_refl.
        constructor; [done |]. constructor; [| constructor].
        simpl. by rewrite Hr.
      * destruct (Str.isspace c) eqn:Hc; simpl.
        -- constructor; [| constructor]. simpl. by rewrite Hr, Hc.
        -- destruct (Ascii.eqb_spec c sep); [done |].
           constructor; [| constructor]. simpl. by rewrite Hr, Hc.
    + remember (d :: r) as t eqn:Ht. simpl.
      destruct (Ascii.eqb_spec c sep) as [-> | Hne].
      * constructor; [done | exact IH].
      * pose proof (split_sep_nonempty sep s).
        pose proof (split_sep_nonempty sep t).
        destruct (Builtins.split_sep sep s) as [| f fs]; [done |].
        destruct (Builtins.split_sep sep t) as [| g gs]; [done |].
        inversion IH; subst. constructor; [| done].
        by apply rstrip_cons_congr.
Qed.

Lemma strip_lstrip_congr (a b : str) :
  Builtins.lstrip a = Builtins.lstrip b -> Builtins.strip a = Builtins.strip b.
Proof. unfold Builtins.strip. by intros ->. Qed.

Lemma strip_rstrip_congr (a b : str) :
  Builtins.rstrip a = Builtins.rstrip b -> Builtins.strip a = Builtins.strip b.
Proof. unfold Builtins.strip. rewrite !strip_comm. by intros ->. Qed.

(** Stripping a text before splitting it changes the fields only by
    whitespace at their ends. *)
Lemma split_sep_strip (sep : ascii) (s : str) :
  Str.isspace sep = false ->
  map Builtins.strip (Builtins.split_sep sep (Builtins.strip s))
  = map Builtins.strip (Builtins.split_sep sep s).
Proof.
  intros Hsep. unfold Builtins.strip at 2.
  transitivity (map Builtins.strip (Builtins.split_sep sep (Builtins.lstrip s))).
  - pose proof (split_sep_rstrip sep (Builtins.lstrip s) Hsep) as H.
    induction H as [| a b l l' Hab _ IH]; simpl; [done |].
    by rewrite IH, (strip_rstrip_congr a b Hab).
  - pose proof (split_sep_lstrip sep s Hsep) as H.
    induction H as [| a b l l' Hab _ IH]; simpl; [done |].
    by rewrite IH, (strip_lstrip_congr a b Hab).
Qed.

(** ** Dictionaries *)

Lemma keys_setitem_in (d : Main.dict) (name : str) (price : Z) :
  In name (Main.keys d) -> Main.keys (Main.setitem d name price) = Main.keys d.
Proof.
  induction d as [| [k v] d IH]; simpl; [done |].
  destruct (decide (k = name)) as [-> | Hne]; [done |].
  intros [? | Hin]; [done |]. simpl. f_equal. by apply IH.
Qed.

Lemma keys_setitem_new (d : Main.dict) (name : str) (price : Z) :
  ~ In name (Main.keys d) ->
  Main.keys (Main.setitem d name price) = Main.keys d ++ [name].
Proof.
  induction d as [| [k v] d IH]; simpl; [done |].
  destruct (decide (k = name)) as [-> | Hne]; [tauto |].
  intros Hnot. simpl. f_equal. apply IH. tauto.
Qed.

Lemma in_keys_setitem (d : Main.dict) (name k : str) (price : Z) :
  In k (Main.keys (Main.setitem d name price)) <-> k = name \/ In k (Main.keys d).
Proof.
  destruct (List.in_dec (fun a b : str => decide (a = b)) name (Main.keys d))
    as [Hin | Hnot].
  - rewrite keys_setitem_in by done. split; [auto | intros [-> | ?]; done].
  - rewrite keys_setitem_new by done. rewrite in_app_iff. simpl.
    split; [intros [? | [<- | []]]; auto | intros [-> | ?]; auto].
Qed.

Lemma NoDup_keys_setitem (d : Main.dict) (name : str) (price : Z) :
  NoDup (Main.keys d) -> NoDup (Main.keys (Main.setitem d name price)).
Proof.
  intros Hd. destruct (List.in_dec (fun a b : str => decide (a = b)) name (Main.keys d))
    as [Hin | Hnot].
  - by rewrite keys_setitem_in.
  - rewrite keys_setitem_new by done. apply NoDup_app. split; [done |].
    split; [| apply NoDup_singleton].
    intros k Hk Hk'. apply list_elem_of_In in Hk.
    apply list_elem_of_singleton in Hk'. by subst.
Qed.

(** ** Loading the catalogue *)

Lemma load_item_stripped (inventory : Main.dict) (item : str) :
  Utility.load_item inventory item = load_stripped inventory (Builtins.strip item).
Proof. reflexivity. Qed.

Lemma fold_load_item (items : list str) :
  forall inventory,
  fold_left Utility.load_item items inventory
  = fold_left load_stripped (map Builtins.strip items) inventory.
Proof. induction items as [| item items IH]; intros inventory; simpl; [done | apply IH]. Qed.

(** The text of a file is processed entry by entry: stripping the whole
    text first, and skipping a blank file, changes nothing. *)
Lemma load_file_items (inventory : Main.dict) (text : str) :
  Utility.load_file inventory text
  = fold_left Utility.load_item (Builtins.split_sep ";" text) inventory.
Proof.
  unfold Utility.load_file.
  rewrite (fold_load_item (Builtins.split_sep ";" text)).
  rewrite <- (split_sep_strip ";" text) by reflexivity.
  rewrite <- fold_load_item.
  destruct (bool_decide_reflect (Builtins.strip text = [])) as [-> | _]; done.
Qed.

Lemma load_files_items (texts : list str) :
  forall inventory,
  fold_left Utility.load_file texts inventory
  = fold_left Utility.load_item
      (concat (map (Builtins.split_sep ";") texts)) inventory.
Proof.
  induction texts as [| text texts IH]; intros inventory; simpl; [done |].
  by rewrite fold_left_app, IH, load_file_items.
Qed.

Lemma rcut_app (sep : ascii) (s before after : str) :
  Builtins.rcut sep s = Some (before, after) -> s = before ++ sep :: after.
Proof.
  revert before after. induction s as [| c s IH]; intros before after; simpl; [done |].
  destruct (Builtins.rcut sep s) as [[b a] |].
  - intros [= <- <-]. simpl. f_equal. by apply IH.
  - destruct (Ascii.eqb_spec c sep) as [-> | _]; [| done].
    by intros [= <- <-].
Qed.

Lemma load_stripped_keys (inventory : Main.dict) (item k : str) :
  In k (Main.keys (load_stripped inventory item)) ->
  In k (Main.keys inventory) \/
  exists part0 part1, item = part0 ++ ":"%char :: part1 /\ k = Builtins.strip part0.
Proof.
  unfold load_stripped, Builtins.rsplit1.
  destruct (_ || _); [by left |].
  destruct (Builtins.rcut ":" item) as [[part0 part1] |] eqn:Hcut; [| by left].
  destruct (Builtins.int _) as [price |]; [| by left].
  rewrite in_keys_setitem. intros [-> | Hin]; [| by left].
  right. exists part0, part1. split; [by apply rcut_app | done].
Qed.

Lemma load_item_clean (inventory : Main.dict) (item : str) :
  ~ In ";"%char item ->
  Forall clean_name (Main.keys inventory) ->
  Forall clean_name (Main.keys (Utility.load_item inventory item)).
Proof.
  intros Hitem Hinv. apply List.Forall_forall. intros k Hk.
  rewrite load_item_stripped in Hk.
  apply load_stripped_keys in Hk as [Hk | (part0 & part1 & Heq & ->)].
  - rewrite List.Forall_forall in Hinv. by apply Hinv.
  - split; [apply strip_idemp |]. intros Hin. apply Hitem.
    apply in_strip. rewrite Heq. apply in_or_app. left. by apply in_strip.
Qed.

Lemma load_stripped_NoDup (inventory : Main.dict) (item : str) :
  NoDup (Main.keys inventory) -> NoDup (Main.keys (load_stripped inventory item)).
Proof.
  intros Hinv. unfold load_stripped.
  destruct (_ || _); [done |].
  destruct (Builtins.rsplit1 ":" item) as [| p0 [| p1 [| ? ?]]]; try done.
  destruct (Builtins.int _); [by apply NoDup_keys_setitem | done].
Qed.

Lemma fold_load_item_invariant (P : Main.dict -> Prop) (items : list str) :
  (forall inventory item, In item items -> P inventory ->
     P (Utility.load_item inventory item)) ->
  forall inventory, P inventory ->
  P (fold_left Utility.load_item items inventory).
Proof.
  induction items as [| item items IH]; intros Hstep inventory Hinv; simpl; [done |].
  apply IH; [intros; apply Hstep; simpl; auto |].
  apply Hstep; simpl; auto.
Qed.

Lemma in_concat_split_sep (item : str) (texts : list str) :
  In item (concat (map (Builtins.split_sep ";") texts)) -> ~ In ";"%char item.
Proof.
  intros Hin. apply in_concat in Hin as (fields & Hfields & Hitem).
  apply in_map_iff in Hfields as (text & <- & _).
  pose proof (split_sep_fields ";" text) as Hall.
  rewrite List.Forall_forall in Hall. by apply Hall.
Qed.

(** X4: loading two warehouse files one after the other gives the same
    catalogue as loading one file made of the two texts joined by a
    semicolon, wherever the files are in the sorted list. *)
Theorem load_warehouse_inventory_join (before after : list str) (a b : str) :
  Utility.load_warehouse_inventory (before ++ a :: b :: after)
  = Utility.load_warehouse_inventory (before ++ (a ++ py ";" ++ b) :: after).
Proof.
  unfold Utility.load_warehouse_inventory.
  rewrite !load_files_items, !map_app, !concat_app. simpl.
  by rewrite split_sep_app, <- app_assoc.
Qed.

Lemma load_warehouse_clean (texts : list str) :
  Forall clean_name (Main.keys (Utility.load_warehouse_inventory texts)).
Proof.
  unfold Utility.load_warehouse_inventory. rewrite load_files_items.
  apply (fold_load_item_invariant (fun d => Forall clean_name (Main.keys d))).
  - intros inventory item Hitem. apply load_item_clean.
    by apply (in_concat_split_sep item texts).
  - constructor.
Qed.

Lemma load_warehouse_NoDup (texts : list str) :
  NoDup (Main.keys (Utility.load_warehouse_inventory texts)).
Proof.
  unfold Utility.load_warehouse_inventory. rewrite load_files_items.
  apply (fold_load_item_invariant (fun d => NoDup (Main.keys d))).
  - intros inventory item _. rewrite load_item_stripped.
    apply load_stripped_NoDup.
  - constructor.
Qed.

(** X5: every name in the loaded catalogue is stored without whitespace
    at either end and contains no semicolon, and no name is stored
    twice, whatever the files contain. *)
Theorem load_warehouse_inventory_names (texts : list str) :
  Forall clean_name (Main.keys (Utility.load_warehouse_inventory texts)) /\
  NoDup (Main.keys (Utility.load_warehouse_inventory texts)).
Proof. split; [apply load_warehouse_clean | apply load_warehouse_NoDup]. Qed.


(** ** Dictionary laws *)

Lemma getitem_setitem_eq (d : Main.dict) (k : str) (v : Z) :
  Dict.getitem (Main.setitem d k v) k = Some v.
Proof.
  induction d as [| [k' v'] d IH]; simpl.
  - by rewrite decide_True.
  - destruct (decide (k' = k)) as [-> | Hne]; simpl.
    + by rewrite decide_True.
    + by rewrite decide_False.
Qed.

Lemma getitem_setitem_ne (d : Main.dict) (k k' : str) (v : Z) :
  k <> k' -> Dict.getitem (Main.setitem d k v) k' = Dict.getitem d k'.
Proof.
  intros Hne. induction d as [| [k0 v0] d IH]; simpl.
  - by rewrite decide_False.
  - destruct (decide (k0 = k)) as [-> | Hne0]; simpl.
    + by rewrite !decide_False.
    + destruct (decide (k0 = k')); [done | apply IH].
Qed.

Lemma getitem_Some_keys (d : Main.dict) (k : str) :
  In k (Main.keys d) <-> exists v, Dict.getitem d k = Some v.
Proof.
  induction d as [| [k' v'] d IH]; simpl.
  - split; [done | intros [? ?]; done].
  - destruct (decide (k' = k)) as [-> | Hne].
    + split; eauto.
    + rewrite <- IH. split; [intros [? | ?]; done | auto].
Qed.

Lemma getitem_None_keys (d : Main.dict) (k : str) :
  ~ In k (Main.keys d) <-> Dict.getitem d k = None.
Proof.
  rewrite getitem_Some_keys. destruct (Dict.getitem d k).
  - split; [intros H; destruct H; eauto | done].
  - split; [done | intros _ [? ?]; done].
Qed.

Lemma getitem_In (d : Main.dict) (k : str) (v : Z) :
  Dict.getitem d k = Some v -> In (k, v) d.
Proof.
  induction d as [| [k' v'] d IH]; simpl; [done |].
  destruct (decide (k' = k)) as [-> | Hne]; [intros [= ->]; auto | auto].
Qed.

Lemma In_getitem (d : Main.dict) (k : str) (v : Z) :
  NoDup (Main.keys d) -> In (k, v) d -> Dict.getitem d k = Some v.
Proof.
  induction d as [| [k' v'] d IH]; simpl; [done |].
  intros Hnd [Heq | Hin].
  - injection Heq as -> ->. by rewrite decide_True.
  - apply NoDup_cons in Hnd as [Hk' Hnd].
    destruct (decide (k' = k)) as [-> | Hne]; [| by apply IH].
    destruct Hk'. apply list_elem_of_In.
    apply (in_map fst) in Hin. exact Hin.
Qed.

Lemma setitem_setitem (d : Main.dict) (k : str) (v0 v : Z) :
  Main.setitem (Main.setitem d k v0) k v = Main.setitem d k v.
Proof.
  induction d as [| [k' v'] d IH]; simpl.
  - by rewrite decide_True.
  - destruct (decide (k' = k)) as [-> | Hne]; simpl.
    + by rewrite decide_True.
    + by rewrite decide_False, IH.
Qed.

Lemma Forall_setitem (P : str * Z -> Prop) (d : Main.dict) (k : str) (v : Z) :
  Forall P d -> P (k, v) -> Forall P (Main.setitem d k v).
Proof.
  intros Hd Hkv. induction Hd as [| [k' v'] d Hx Hd IH]; simpl.
  - by repeat constructor.
  - destruct (decide (k' = k)) as [-> | Hne]; by constructor.
Qed.

Lemma delitem_spec (d : Main.dict) (k : str) :
  NoDup (Main.keys d) -> In k (Main.keys d) ->
  exists d', Dict.delitem d k = Some d' /\
    Dict.getitem d' k = None /\
    (forall k', k' <> k -> Dict.getitem d' k' = Dict.getitem d k') /\
    d' `sublist_of` d.
Proof.
  induction d as [| [k0 v0] d IH]; simpl; [done |].
  intros Hnd Hin. apply NoDup_cons in Hnd as [Hk0 Hnd].
  destruct (decide (k0 = k)) as [-> | Hne].
  - exists d. split; [done |]. split.
    + apply getitem_None_keys. by rewrite <- list_elem_of_In.
    + split; [| by constructor]. intros k' Hk'. by rewrite decide_False.
  - destruct Hin as [? | Hin]; [done |].
    destruct (IH Hnd Hin) as (d' & -> & Hnone & Hother & Hsub).
    exists ((k0, v0) :: d'). simpl. split; [done |].
    rewrite decide_False by done. split; [done |]. split.
    + intros k' Hk'. destruct (decide (k0 = k')); [done | by apply Hother].
    + by constructor.
Qed.

(** Two dictionaries with the same keys in the same order and the same
    value under every key are equal. *)
Lemma dict_ext (a b : Main.dict) :
  Main.keys a = Main.keys b -> NoDup (Main.keys a) ->
  (forall k, Dict.getitem a k = Dict.getitem b k) -> a = b.
Proof.
  revert b. induction a as [| [k v] a IH]; intros [| [k' v'] b]; simpl; try done.
  intros [= <- Hkeys] Hnd Hget. apply NoDup_cons in Hnd as [Hk Hnd].
  pose proof (Hget k) as Hk0. rewrite !decide_True in Hk0 by done.
  injection Hk0 as <-. f_equal. apply IH; [done | done |].
  intros k0. specialize (Hget k0).
  destruct (decide (k = k0)) as [<- | Hne]; [| done].
  transitivity (@None Z); [| symmetry].
  - apply getitem_None_keys. by rewrite <- list_elem_of_In.
  - apply getitem_None_keys. rewrite <- Hkeys. by rewrite <- list_elem_of_In.
Qed.

Lemma held_setitem_eq (cart : Main.dict) (item : str) (v : Z) :
  held (Main.setitem cart item v) item = v.
Proof. unfold held. by rewrite getitem_setitem_eq. Qed.

Lemma held_setitem_ne (cart : Main.dict) (item name : str) (v : Z) :
  item <> name -> held (Main.setitem cart item v) name = held cart name.
Proof. intros Hne. unfold held. by rewrite getitem_setitem_ne. Qed.

(** ** The purchase session *)

Lemma session_start (catalogue : Main.dict) :
  NoDup (Main.keys catalogue) -> session catalogue [] catalogue.
Proof.
  intros Hnd. split; try done.
  - constructor.
  - intros name. unfold accounted, held. simpl.
    destruct (Dict.getitem catalogue name); simpl; [f_equal; lia | done].
Qed.

Lemma held_nonneg (catalogue cart inventory : Main.dict) (name : str) :
  session catalogue cart inventory -> (0 <= held cart name)%Z.
Proof.
  intros Hs. unfold held. destruct (Dict.getitem cart name) as [h |] eqn:Hh; simpl; [| done].
  apply getitem_In in Hh. pose proof (session_positive _ _ _ Hs) as Hpos.
  rewrite List.Forall_forall in Hpos. specialize (Hpos _ Hh). simpl in Hpos. lia.
Qed.

Lemma put_in_cart_eq (cart inventory : Main.dict) (item : str) (quantity : Z) :
  Run.put_in_cart cart inventory item quantity
  = match Dict.getitem inventory item with
    | None => Raise KeyError
    | Some value =>
        Ok (Main.setitem cart item (held cart item + quantity),
            Main.setitem inventory item (value - quantity))
    end.
Proof.
  unfold Run.put_in_cart, Dict.contains, held.
  destruct (Dict.getitem cart item) as [h |] eqn:Hh; simpl.
  - by rewrite Hh.
  - by rewrite getitem_setitem_eq, setitem_setitem.
Qed.

Lemma session_put (catalogue cart inventory : Main.dict) (item : str)
    (quantity value : Z) :
  session catalogue cart inventory -> (0 < quantity)%Z ->
  Dict.getitem inventory item = Some value ->
  session catalogue (Main.setitem cart item (held cart item + quantity))
          (Main.setitem inventory item (value - quantity)).
Proof.
  intros Hs Hq Hv.
  assert (Hin : In item (Main.keys inventory)) by (apply getitem_Some_keys; eauto).
  pose proof (held_nonneg _ _ _ item Hs) as Hheld.
  destruct Hs as [Hcat Hnd Hkeys Hknown Hpos Hacc]. split.
  - done.
  - by apply NoDup_keys_setitem.
  - by rewrite keys_setitem_in.
  - intros name Hname. rewrite keys_setitem_in by done.
    apply in_keys_setitem in Hname as [-> | Hname]; auto.
  - apply Forall_setitem; [done | simpl; lia].
  - intros name. rewrite <- Hacc. unfold accounted.
    destruct (decide (item = name)) as [<- | Hne].
    + rewrite getitem_setitem_eq, held_setitem_eq, Hv. simpl. f_equal. lia.
    + by rewrite getitem_setitem_ne, held_setitem_ne.
Qed.

Lemma session_put_in_cart (catalogue cart inventory : Main.dict) (item : str)
    (quantity : Z) (cart' inventory' : Main.dict) :
  session catalogue cart inventory -> (0 < quantity)%Z ->
  Run.put_in_cart cart inventory item quantity = Ok (cart', inventory') ->
  session catalogue cart' inventory'.
Proof.
  intros Hs Hq. rewrite put_in_cart_eq.
  destruct (Dict.getitem inventory item) as [value |] eqn:Hv; [| done].
  intros [= <- <-]. by apply session_put.
Qed.

Lemma sublist_map {A B} (f : A -> B) (l1 l2 : list A) :
  l1 `sublist_of` l2 -> map f l1 `sublist_of` map f l2.
Proof. induction 1; simpl; by constructor. Qed.

Lemma session_take_from_cart (catalogue cart inventory : Main.dict) (item : str)
    (h qty : Z) (cart' inventory' : Main.dict) :
  session catalogue cart inventory ->
  Dict.getitem cart item = Some h -> (0 < qty)%Z -> (qty <= h)%Z ->
  Run.take_from_cart cart inventory item h qty = Ok (cart', inventory') ->
  session catalogue cart' inventory'.
Proof.
  intros Hs Hh Hq Hle. unfold Run.take_from_cart.
  destruct (Dict.getitem inventory item) as [value |] eqn:Hv; [| done].
  rewrite getitem_setitem_eq.
  assert (Hin : In item (Main.keys inventory)) by (apply getitem_Some_keys; eauto).
  assert (Hinc : In item (Main.keys cart)) by (apply getitem_Some_keys; eauto).
  destruct Hs as [Hcat Hnd Hkeys Hknown Hpos Hacc].
  assert (Hheld : held cart item = h) by (unfold held; by rewrite Hh).
  destruct (Z.eqb_spec (h - qty) 0) as [H0 | H0].
  - destruct (delitem_spec (Main.setitem cart item (h - qty)) item)
      as (cart2 & -> & Hnone & Hother & Hsub).
    { by apply NoDup_keys_setitem. }
    { apply in_keys_setitem. by left. }
    intros [= <- <-]. split.
    + done.
    + eapply sublist_NoDup; [apply (NoDup_keys_setitem cart item (h - qty) Hnd) |].
      by apply sublist_map.
    + by rewrite keys_setitem_in.
    + intros name Hname. rewrite keys_setitem_in by done. apply Hknown.
      assert (Hname' : In name (Main.keys (Main.setitem cart item (h - qty)))).
      { apply list_elem_of_In.
        eapply elem_of_sublist; [| by apply (sublist_map fst), Hsub].
        by apply list_elem_of_In. }
      apply in_keys_setitem in Hname' as [-> | ?]; done.
    + eapply List.Forall_forall. intros entry Hentry.
      assert (Hentry' : In entry (Main.setitem cart item (h - qty))).
      { apply list_elem_of_In. eapply elem_of_sublist; [| exact Hsub].
        by apply list_elem_of_In. }
      destruct entry as [k v]. simpl.
      destruct (decide (k = item)) as [-> | Hne].
      * assert (Hk : In item (Main.keys cart2)).
        { apply (in_map fst) in Hentry. exact Hentry. }
        apply getitem_Some_keys in Hk as [? Hk]. congruence.
      * apply In_getitem in Hentry'; [| by apply NoDup_keys_setitem].
        rewrite getitem_setitem_ne in Hentry' by done.
        apply getitem_In in Hentry'. rewrite List.Forall_forall in Hpos.
        apply (Hpos _ Hentry').
    + intros name. rewrite <- Hacc. unfold accounted, held.
      destruct (decide (item = name)) as [<- | Hne].
      * rewrite getitem_setitem_eq, Hnone, Hv, Hh. simpl. f_equal. lia.
      * rewrite getitem_setitem_ne by done. rewrite Hother by done.
        by rewrite getitem_setitem_ne.
  - intros [= <- <-]. split.
    + done.
    + by apply NoDup_keys_setitem.
    + by rewrite keys_setitem_in.
    + intros name Hname. rewrite keys_setitem_in by done.
      apply in_keys_setitem in Hname as [-> | Hname]; auto.
    + apply Forall_setitem; [done | simpl; lia].
    + intros name. rewrite <- Hacc. unfold accounted.
      destruct (decide (item = name)) as [<- | Hne].
      * rewrite getitem_setitem_eq, held_setitem_eq, Hv, Hheld. simpl. f_equal. lia.
      * by rewrite getitem_setitem_ne, held_setitem_ne.
Qed.

Lemma add_items_loop_session (catalogue cart inventory : Main.dict)
    (items : list str) :
  session catalogue cart inventory ->
  forall n inputs cart' inventory' rest, (length inputs <= n)%nat ->
  Run.add_items_loop cart items inventory inputs = Ok (cart', inventory', rest) ->
  session catalogue cart' inventory'.
Proof.
  intros Hs. induction n as [| n IH]; intros inputs cart' inventory' rest Hlen;
    destruct inputs as [| line inputs1]; cbn [Run.add_items_loop length] in *;
    try done; try lia.
  destruct (Builtins.int _) as [item_num |]; [| apply IH; lia].
  destruct (item_num =? 0)%Z; [by intros [= <- <- <-] |].
  destruct (Run.valid_number _ _); [| apply IH; lia].
  destruct (items !! _) as [item |]; [| done].
  destruct inputs1 as [| line2 inputs2]; [done |].
  cbn [length] in Hlen.
  destruct (Builtins.int _) as [quantity |]; [| apply IH; lia].
  destruct (Z.leb_spec quantity 0); [apply IH; lia |].
  destruct (Run.put_in_cart _ _ _ _) as [[c i] |] eqn:Hput; [| done].
  intros [= <- <- <-]. by eapply session_put_in_cart.
Qed.

(** X7: [add_items_to_cart] keeps the books of a purchase session: when
    it returns, the inventory copy still has the names of the catalogue,
    every name in the cart is one of them with a positive quantity, and
    for every name the value in the inventory copy plus the quantity in
    the cart is the value in the catalogue. *)
Theorem add_items_to_cart_session (catalogue cart inventory : Main.dict)
    (items inputs : list str) (cart' inventory' : Main.dict) (rest : list str) :
  session catalogue cart inventory ->
  Run.add_items_to_cart cart items inventory inputs = Ok (cart', inventory', rest) ->
  session catalogue cart' inventory'.
Proof.
  intros Hs. unfold Run.add_items_to_cart.
  destruct (Run.show_prices items inventory); [| done].
  by apply (add_items_loop_session _ _ _ _ Hs (length inputs)).
Qed.

Lemma add_items_to_cart_session_witness :
  session [(py "Apple", 500%Z)] [] [(py "Apple", 500%Z)] /\
  Run.add_items_to_cart [] [py "Apple"] [(py "Apple", 500%Z)]
    [py "x"; py " 1 "; py "3"; py "later"]
  = Ok ([(py "Apple", 3%Z)], [(py "Apple", 497%Z)], [py "later"]) /\
  session [(py "Apple", 500%Z)] [(py "Apple", 3%Z)] [(py "Apple", 497%Z)].
Proof.
  assert (Hs : session [(py "Apple", 500%Z)] [] [(py "Apple", 500%Z)]).
  { apply session_start. repeat constructor. by intros ?%elem_of_nil. }
  assert (Hrun : Run.add_items_to_cart [] [py "Apple"] [(py "Apple", 500%Z)]
                   [py "x"; py " 1 "; py "3"; py "later"]
                 = Ok ([(py "Apple", 3%Z)], [(py "Apple", 497%Z)], [py "later"]))
    by (vm_compute; reflexivity).
  split; [exact Hs |]. split; [exact Hrun |].
  exact (add_items_to_cart_session _ _ _ _ _ _ _ _ Hs Hrun).
Defined.

(** X8: [add_items_menu] keeps the books of a purchase session in the
    same way. *)
Theorem add_items_menu_session (catalogue cart inventory : Main.dict)
    (inputs : list str) (cart' inventory' : Main.dict) (rest : list str) :
  session catalogue cart inventory ->
  Run.add_items_menu cart inventory inputs = Ok (cart', inventory', rest) ->
  session catalogue cart' inventory'.
Proof.
  intros Hs. unfold Run.add_items_menu.
  destruct (Run.show_prices _ inventory); [| done].
  destruct inputs as [| line inputs1]; [done |].
  destruct (Builtins.int _) as [item_num |]; [| by intros [= <- <- <-]].
  destruct (item_num =? 0)%Z; [by intros [= <- <- <-] |].
  destruct (Run.valid_number _ _); [| by intros [= <- <- <-]].
  destruct (Main.keys inventory !! _) as [item |]; [| done].
  destruct inputs1 as [| line2 inputs2]; [done |].
  destruct (Builtins.int _) as [quantity |]; [| by intros [= <- <- <-]].
  destruct (Z.ltb_spec 0 quantity); [| by intros [= <- <- <-]].
  destruct (Run.put_in_cart _ _ _ _) as [[c i] |] eqn:Hput; [| done].
  intros [= <- <- <-]. by eapply session_put_in_cart.
Qed.

Lemma add_items_menu_session_witness :
  session [(py "Apple", 500%Z); (py "Pear", 20%Z)] [(py "Pear", 2%Z)]
          [(py "Apple", 500%Z); (py "Pear", 18%Z)] /\
  Run.add_items_menu [(py "Pear", 2%Z)] [(py "Apple", 500%Z); (py "Pear", 18%Z)]
    [py "2"; py "5"]
  = Ok ([(py "Pear", 7%Z)], [(py "Apple", 500%Z); (py "Pear", 13%Z)], []) /\
  session [(py "Apple", 500%Z); (py "Pear", 20%Z)] [(py "Pear", 7%Z)]
          [(py "Apple", 500%Z); (py "Pear", 13%Z)].
Proof.
  assert (Hs0 : session [(py "Apple", 500%Z); (py "Pear", 20%Z)] []
                        [(py "Apple", 500%Z); (py "Pear", 20%Z)]).
  { apply session_start. apply NoDup_ListNoDup. repeat constructor; simpl.
    - intros [? | []]. discriminate.
    - tauto. }
  assert (Hs : session [(py "Apple", 500%Z); (py "Pear", 20%Z)] [(py "Pear", 2%Z)]
                       [(py "Apple", 500%Z); (py "Pear", 18%Z)]).
  { exact (session_put _ _ _ (py "Pear") 2 20 Hs0 eq_refl eq_refl). }
  assert (Hrun :
    Run.add_items_menu [(py "Pear", 2%Z)] [(py "Apple", 500%Z); (py "Pear", 18%Z)]
      [py "2"; py "5"]
    = Ok ([(py "Pear", 7%Z)], [(py "Apple", 500%Z); (py "Pear", 13%Z)], []))
    by (vm_compute; reflexivity).
  split; [exact Hs |]. split; [exact Hrun |].
  exact (add_items_menu_session _ _ _ _ _ _ _ Hs Hrun).
Defined.

(** X9: [remove_items_from_cart] keeps the books of a purchase session:
    what leaves the cart goes back to the inventory copy, and an entry
    whose quantity reaches zero is deleted from the cart. *)
Theorem remove_items_from_cart_session (catalogue cart inventory : Main.dict)
    (inputs : list str) (cart' inventory' : Main.dict) (rest : list str) :
  session catalogue cart inventory ->
  Run.remove_items_from_cart cart inventory inputs = Ok (cart', inventory', rest) ->
  session catalogue cart' inventory'.
Proof.
  intros Hs. unfold Run.remove_items_from_cart.
  destruct cart as [| entry cart0] eqn:Hcart; [by intros [= <- <- <-] |].
  rewrite <- Hcart in *. clear Hcart.
  destruct (Run.show_quantities _ cart); [| done].
  destruct inputs as [| line inputs1]; [done |].
  destruct (Builtins.int _) as [item_num |]; [| by intros [= <- <- <-]].
  destruct (item_num =? 0)%Z; [by intros [= <- <- <-] |].
  destruct (Run.valid_number _ _); [| by intros [= <- <- <-]].
  destruct (Main.keys cart !! _) as [item |]; [| done].
  destruct inputs1 as [| line2 inputs2]; [done |].
  destruct (Builtins.int _) as [qty |]; [| by intros [= <- <- <-]].
  destruct (Z.ltb_spec 0 qty); [| by intros [= <- <- <-]].
  destruct (Dict.getitem cart item) as [h |] eqn:Hh; [| done].
  destruct (Z.leb_spec qty h); [| by intros [= <- <- <-]].
  destruct (Run.take_from_cart _ _ _ _ _) as [[c i] |] eqn:Htake; [| done].
  intros [= <- <- <-]. by eapply session_take_from_cart.
Qed.

Lemma remove_items_from_cart_session_witness :
  session [(py "Apple", 500%Z); (py "Pear", 20%Z)] [(py "Pear", 2%Z)]
          [(py "Apple", 500%Z); (py "Pear", 18%Z)] /\
  Run.remove_items_from_cart [(py "Pear", 2%Z)]
    [(py "Apple", 500%Z); (py "Pear", 18%Z)] [py "1"; py "2"]
  = Ok ([], [(py "Apple", 500%Z); (py "Pear", 20%Z)], []) /\
  session [(py "Apple", 500%Z); (py "Pear", 20%Z)] []
          [(py "Apple", 500%Z); (py "Pear", 20%Z)].
Proof.
  assert (Hs0 : session [(py "Apple", 500%Z); (py "Pear", 20%Z)] []
                        [(py "Apple", 500%Z); (py "Pear", 20%Z)]).
  { apply session_start. apply NoDup_ListNoDup. repeat constructor; simpl.
    - intros [? | []]. discriminate.
    - tauto. }
  assert (Hs : session [(py "Apple", 500%Z); (py "Pear", 20%Z)] [(py "Pear", 2%Z)]
                       [(py "Apple", 500%Z); (py "Pear", 18%Z)]).
  { exact (session_put _ _ _ (py "Pear") 2 20 Hs0 eq_refl eq_refl). }
  assert (Hrun :
    Run.remove_items_from_cart [(py "Pear", 2%Z)]
      [(py "Apple", 500%Z); (py "Pear", 18%Z)] [py "1"; py "2"]
    = Ok ([], [(py "Apple", 500%Z); (py "Pear", 20%Z)], []))
    by (vm_compute; reflexivity).
  split; [exact Hs |]. split; [exact Hrun |].
  exact (remove_items_from_cart_session _ _ _ _ _ _ _ Hs Hrun).
Defined.

Lemma keys_restore_item (inventory : Main.dict) (entry : str * Z) :
  Main.keys (Run.restore_item inventory entry) = Main.keys inventory.
Proof.
  destruct entry as [item qty]. simpl.
  destruct (Dict.getitem inventory item) as [value |] eqn:Hv; [| done].
  apply keys_setitem_in, getitem_Some_keys. eauto.
Qed.

Lemma keys_restore (cart : Main.dict) :
  forall inventory,
  Main.keys (fold_left Run.restore_item cart inventory) = Main.keys inventory.
Proof.
  induction cart as [| entry cart IH]; intros inventory; simpl; [done |].
  by rewrite IH, keys_restore_item.
Qed.

(** After the loop of "Clear Cart", every name of the inventory holds
    its value plus the quantity the cart held under that name. *)
Lemma getitem_restore (cart : Main.dict) :
  NoDup (Main.keys cart) -> forall inventory name,
  Dict.getitem (fold_left Run.restore_item cart inventory) name
  = accounted inventory cart name.
Proof.
  induction cart as [| [item qty] cart IH]; intros Hnd inventory name.
  - unfold accounted, held. simpl.
    destruct (Dict.getitem inventory name); simpl; [f_equal; lia | done].
  - simpl in Hnd. apply NoDup_cons in Hnd as [Hitem Hnd].
    simpl fold_left. rewrite IH by done. unfold accounted, held. simpl.
    assert (Hnone : Dict.getitem cart item = None).
    { apply getitem_None_keys. by rewrite <- list_elem_of_In. }
    destruct (decide (item = name)) as [<- | Hne].
    + rewrite Hnone. destruct (Dict.getitem inventory item) as [value |] eqn:Hv.
      * rewrite getitem_setitem_eq. simpl. f_equal. lia.
      * by rewrite Hv.
    + destruct (Dict.getitem inventory item) as [value |] eqn:Hv; [| done].
      by rewrite getitem_setitem_ne.
Qed.

(** X10: "Clear Cart" undoes the session: it empties the cart and gives
    the inventory copy back exactly the values of the catalogue the
    session started from. *)
Theorem clear_cart_restores (catalogue cart inventory : Main.dict) :
  session catalogue cart inventory ->
  Run.clear_cart cart inventory = ([], catalogue).
Proof.
  intros [Hcat Hnd Hkeys Hknown Hpos Hacc]. unfold Run.clear_cart. f_equal.
  apply dict_ext.
  - by rewrite keys_restore.
  - by rewrite keys_restore, Hkeys.
  - intros name. by rewrite getitem_restore.
Qed.

Lemma clear_cart_restores_witness :
  session [(py "Apple", 500%Z); (py "Pear", 20%Z)] [(py "Pear", 2%Z)]
          [(py "Apple", 500%Z); (py "Pear", 18%Z)] /\
  Run.clear_cart [(py "Pear", 2%Z)] [(py "Apple", 500%Z); (py "Pear", 18%Z)]
  = ([], [(py "Apple", 500%Z); (py "Pear", 20%Z)]).
Proof.
  assert (Hs0 : session [(py "Apple", 500%Z); (py "Pear", 20%Z)] []
                        [(py "Apple", 500%Z); (py "Pear", 20%Z)]).
  { apply session_start. apply NoDup_ListNoDup. repeat constructor; simpl.
    - intros [? | []]. discriminate.
    - tauto. }
  assert (Hs : session [(py "Apple", 500%Z); (py "Pear", 20%Z)] [(py "Pear", 2%Z)]
                       [(py "Apple", 500%Z); (py "Pear", 18%Z)]).
  { exact (session_put _ _ _ (py "Pear") 2 20 Hs0 eq_refl eq_refl). }
  split; [exact Hs |].
  exact (clear_cart_restores _ _ _ Hs).
Defined.

Lemma summary_loop_total (catalogue inventory : Main.dict) (entries : Main.dict) :
  (forall item qty, In (item, qty) entries ->
     exists value, Dict.getitem catalogue item = Some value /\
                   Dict.getitem inventory item = Some (value - qty)%Z) ->
  forall total shown,
  Run.summary_loop inventory entries total = Ok shown ->
  shown = (total + sum_Z (map (charged catalogue) entries))%Z.
Proof.
  induction entries as [| [item qty] entries IH]; intros Hall total shown; simpl.
  - intros [= <-]. lia.
  - destruct (Hall item qty) as (value & Hc & Hi); [by left |].
    rewrite Hi.
    destruct (Run.format_int qty); [| done].
    destruct (Run.format_currency (value - qty)); [| done].
    destruct (Run.format_currency _); [| done].
    intros Hrun. apply IH in Hrun; [| intros; apply Hall; by right].
    unfold charged at 1. simpl. rewrite Hc. lia.
Qed.

(** X11: the total that [checkout] shows charges every cart entry the
    catalogue value less the quantity in the cart, times the quantity:
    the inventory values are the prices, and putting units in the cart
    lowers the value that the total is computed from. *)
Theorem checkout_summary_session (catalogue cart inventory : Main.dict)
    (total : Z) :
  session catalogue cart inventory ->
  Run.checkout_summary cart inventory = Ok (Some total) ->
  total = sum_Z (map (charged catalogue) cart).
Proof.
  intros [Hcat Hnd Hkeys Hknown Hpos Hacc]. unfold Run.checkout_summary.
  destruct cart as [| entry cart0] eqn:Hcart; [done |]. rewrite <- Hcart in *.
  destruct (Run.summary_loop inventory cart 0) as [shown |] eqn:Hloop; [| done].
  destruct (Run.format_currency shown); [| done]. intros [= <-].
  apply (summary_loop_total catalogue) in Hloop; [lia |].
  intros item qty Hin.
  assert (Hq : Dict.getitem cart item = Some qty) by by apply In_getitem.
  assert (Hk : In item (Main.keys inventory)).
  { apply Hknown. apply (in_map fst) in Hin. exact Hin. }
  apply getitem_Some_keys in Hk as [v Hv].
  specialize (Hacc item). unfold accounted, held in Hacc.
  rewrite Hv, Hq in Hacc. simpl in Hacc.
  exists (v + qty)%Z. split; [done |]. rewrite Hv. f_equal. lia.
Qed.

Lemma checkout_summary_session_witness :
  session [(py "Apple", 500%Z)] [(py "Apple", 3%Z)] [(py "Apple", 497%Z)] /\
  Run.checkout_summary [(py "Apple", 3%Z)] [(py "Apple", 497%Z)] = Ok (Some 1491%Z) /\
  1491%Z = sum_Z (map (charged [(py "Apple", 500%Z)]) [(py "Apple", 3%Z)]).
Proof.
  assert (Hs0 : session [(py "Apple", 500%Z)] [] [(py "Apple", 500%Z)]).
  { apply session_start. repeat constructor. by intros ?%elem_of_nil. }
  assert (Hs : session [(py "Apple", 500%Z)] [(py "Apple", 3%Z)]
                       [(py "Apple", 497%Z)]).
  { exact (session_put _ _ _ (py "Apple") 3 500 Hs0 eq_refl eq_refl). }
  assert (Hrun : Run.checkout_summary [(py "Apple", 3%Z)] [(py "Apple", 497%Z)]
                 = Ok (Some 1491%Z)) by (vm_compute; reflexivity).
  split; [exact Hs |]. split; [exact Hrun |].
  exact (checkout_summary_session _ _ _ _ Hs Hrun).
Defined.

(** ** Search results as cart candidates *)

Lemma show_prices_raise (items : list str) (inventory : Main.dict) (e : exn) :
  (forall item, In item items -> In item (Main.keys inventory)) ->
  Run.show_prices items inventory = Raise e -> e = OverflowError.
Proof.
  induction items as [| item items IH]; intros Hall; simpl; [done |].
  destruct (proj1 (getitem_Some_keys inventory item) (Hall item (or_introl eq_refl)))
    as [price ->].
  unfold Run.format_currency at 1.
  destruct (_ <? _)%Z; [| by intros [= <-]].
  apply IH. intros; apply Hall; by right.
Qed.

Lemma valid_number_lookup (item_num : Z) (items : list str) :
  Run.valid_number item_num items = true ->
  exists item, items !! Z.to_nat (item_num - 1) = Some item /\ In item items.
Proof.
  unfold Run.valid_number. intros [H1 H2]%andb_true_iff.
  apply Z.leb_le in H1, H2.
  destruct (lookup_lt_is_Some_2 items (Z.to_nat (item_num - 1))) as [item Hitem]; [lia |].
  exists item. split; [done |].
  apply list_elem_of_In, list_elem_of_lookup. eauto.
Qed.

Lemma add_items_loop_raise (cart : Main.dict) (items : list str)
    (inventory : Main.dict) (e : exn) :
  (forall item, In item items -> In item (Main.keys inventory)) ->
  forall n inputs, (length inputs <= n)%nat ->
  Run.add_items_loop cart items inventory inputs = Raise e -> e = EOFError.
Proof.
  intros Hall. induction n as [| n IH]; intros inputs Hlen;
    destruct inputs as [| line inputs1]; cbn [Run.add_items_loop length] in *;
    try (by intros [= <-]); try lia.
  destruct (Builtins.int _) as [item_num |]; [| apply IH; lia].
  destruct (item_num =? 0)%Z; [done |].
  destruct (Run.valid_number _ _) eqn:Hvalid; [| apply IH; lia].
  destruct (valid_number_lookup _ _ Hvalid) as (item & -> & Hitem).
  destruct inputs1 as [| line2 inputs2]; [by intros [= <-] |].
  cbn [length] in Hlen.
  destruct (Builtins.int _) as [quantity |]; [| apply IH; lia].
  destruct (Z.leb_spec quantity 0); [apply IH; lia |].
  rewrite put_in_cart_eq.
  destruct (proj1 (getitem_Some_keys inventory item) (Hall item Hitem)) as [value ->].
  done.
Qed.

(** X12: the names returned by a search are keys of the inventory that
    was searched, so every lookup that [add_items_to_cart] makes on a
    search result finds its entry: whatever is typed, the call raises
    neither [KeyError] nor [IndexError].  The console's own exceptions
    (the end of the input, a line that cannot be written) are not
    excluded. *)
Theorem add_items_to_cart_search_results (q : str) (cart inventory : Main.dict)
    (inputs : list str) :
  returns (Main.search_inventory q inventory) (fun results =>
    forall e, Run.add_items_to_cart cart results inventory inputs = Raise e ->
              e <> KeyError /\ e <> IndexError).
Proof.
  exists (List.filter (accepts q) (Main.keys inventory)).
  split; [apply search_inventory_filter |].
  assert (Hall : forall item,
            In item (List.filter (accepts q) (Main.keys inventory)) ->
            In item (Main.keys inventory)).
  { intros item Hin. by apply List.filter_In in Hin as [? _]. }
  intros e. unfold Run.add_items_to_cart.
  destruct (Run.show_prices _ inventory) as [[] | e'] eqn:Hshow.
  - intros Hrun.
    by rewrite (add_items_loop_raise cart _ inventory e Hall (length inputs) inputs).
  - intros [= <-]. by rewrite (show_prices_raise _ inventory e' Hall).
Qed.

Lemma add_items_to_cart_search_results_witness :
  returns (Main.search_inventory (py "app") [(py "Apple", 500%Z); (py "Pear", 20%Z)])
    (fun results =>
       forall e, Run.add_items_to_cart [] results
                   [(py "Apple", 500%Z); (py "Pear", 20%Z)] [py "1"] = Raise e ->
                 e <> KeyError /\ e <> IndexError).
Proof.
  apply (add_items_to_cart_search_results (py "app") []
           [(py "Apple", 500%Z); (py "Pear", 20%Z)] [py "1"]).
Defined.

(** ** Signing in *)

Lemma assoc_In_getitem {V} (d : list (str * V)) (k : str) (v : V) :
  NoDup (Assoc.keys d) -> In (k, v) d -> Assoc.getitem d k = Some v.
Proof.
  induction d as [| [k' v'] d IH]; simpl; [done |].
  intros Hnd [Heq | Hin].
  - injection Heq as -> ->. by rewrite decide_True.
  - apply NoDup_cons in Hnd as [Hk' Hnd].
    destruct (decide (k' = k)) as [-> | Hne]; [| by apply IH].
    destruct Hk'. apply list_elem_of_In.
    apply (in_map fst) in Hin. exact Hin.
Qed.

Lemma find_account_Some {float} (accounts : list (str * Accounts.account float))
    (id u : str) :
  Accounts.find_account accounts id = Some u ->
  exists data, In (u, data) accounts /\ (u = id \/ Accounts.email data = id).
Proof.
  induction accounts as [| [uname data] accounts IH]; simpl; [done |].
  destruct (bool_decide_reflect (uname = id)) as [-> | Hne]; simpl.
  - intros [= <-]. exists data. auto.
  - destruct (bool_decide_reflect (Accounts.email data = id)) as [He | He].
    + intros [= <-]. exists data. auto.
    + intros H. destruct (IH H) as (d & Hin & Hd). exists d. auto.
Qed.

Lemma find_account_username {float} (accounts : list (str * Accounts.account float))
    (u : str) (data : Accounts.account float) :
  Assoc.getitem accounts u = Some data ->
  (forall k d, In (k, d) accounts -> Accounts.email d <> u) ->
  Accounts.find_account accounts u = Some u.
Proof.
  induction accounts as [| [uname d0] accounts IH]; simpl; [done |].
  intros Hget Hmail.
  destruct (decide (uname = u)) as [-> | Hne].
  - by rewrite bool_decide_eq_true_2.
  - rewrite bool_decide_eq_false_2 by done.
    rewrite bool_decide_eq_false_2 by (eapply Hmail; by left).
    simpl. apply IH; [done |]. intros k d Hin. apply (Hmail k d). by right.
Qed.

(** X13: [sign_in] lets a user in only under an existing, non-empty
    username, found by that username or by its e-mail address, and only
    when the password typed, stripped, is the one stored for it. *)
Theorem sign_in_sound {float} (accounts : list (str * Accounts.account float))
    (inputs rest : list str) (u : str) :
  NoDup (Assoc.keys accounts) ->
  Accounts.sign_in accounts inputs = Ok (Some u, rest) ->
  exists line line2 data,
    inputs = line :: line2 :: rest /\ u <> [] /\
    Assoc.getitem accounts u = Some data /\
    Accounts.password data = Builtins.strip line2 /\
    (u = Builtins.strip line \/ Accounts.email data = Builtins.strip line).
Proof.
  intros Hnd. unfold Accounts.sign_in.
  destruct inputs as [| line inputs1]; [done |].
  destruct (Accounts.find_account accounts _) as [name |] eqn:Hfind; [| done].
  destruct (bool_decide_reflect (name = [])) as [| Hne]; [done |].
  destruct inputs1 as [| line2 inputs2]; [done |].
  destruct (Assoc.getitem accounts name) as [data |] eqn:Hget; [| done].
  destruct (bool_decide_reflect (Accounts.password data = Builtins.strip line2))
    as [Hpw |]; [| done].
  intros [= <- <-]. exists line, line2, data.
  apply find_account_Some in Hfind as (d & Hin & Hd).
  rewrite (assoc_In_getitem _ _ _ Hnd Hin) in Hget. injection Hget as ->.
  split; [done |]. split; [done |].
  split; [by apply assoc_In_getitem |]. by split.
Qed.

Lemma sign_in_sound_witness :
  exists line line2 data,
    [py " ann@x.org "; py "secret "; py "next"] = line :: line2 :: [py "next"] /\
    py "ann" <> [] /\
    Assoc.getitem
      [(py "ann", Accounts.Build_account (py "ann@x.org") (py "secret") 0%Z)]
      (py "ann") = Some data /\
    Accounts.password data = Builtins.strip line2 /\
    (py "ann" = Builtins.strip line \/ Accounts.email data = Builtins.strip line).
Proof.
  apply (sign_in_sound
           [(py "ann", Accounts.Build_account (py "ann@x.org") (py "secret") 0%Z)]
           [py " ann@x.org "; py "secret "; py "next"] [py "next"] (py "ann")).
  - repeat constructor. by intros ?%elem_of_nil.
  - vm_compute. reflexivity.
Defined.

(** X14: a user who types a registered, non-empty username and the
    password stored for it is let in, whatever whitespace surrounds what
    is typed, provided no account has that username as its e-mail
    address. *)
Theorem sign_in_complete {float} (accounts : list (str * Accounts.account float))
    (line line2 : str) (rest : list str) (u : str)
    (data : Accounts.account float) :
  Assoc.getitem accounts u = Some data -> u <> [] ->
  (forall k d, In (k, d) accounts -> Accounts.email d <> u) ->
  Builtins.strip line = u ->
  Builtins.strip line2 = Accounts.password data ->
  Accounts.sign_in accounts (line :: line2 :: rest) = Ok (Some u, rest).
Proof.
  intros Hget Hne Hmail Hline Hline2. unfold Accounts.sign_in.
  rewrite Hline, (find_account_username accounts u data Hget Hmail).
  rewrite bool_decide_eq_false_2 by done.
  rewrite Hget, Hline2. by rewrite bool_decide_eq_true_2.
Qed.

Lemma sign_in_complete_witness :
  Accounts.sign_in
    [(py "ann", Accounts.Build_account (py "ann@x.org") (py "secret") 0%Z)]
    [py " ann"; py "secret "; py "next"]
  = Ok (Some (py "ann"), [py "next"]).
Proof.
  apply (sign_in_complete _ _ _ _ (py "ann")
           (Accounts.Build_account (py "ann@x.org") (py "secret") 0%Z)).
  - reflexivity.
  - discriminate.
  - intros k d [[= <- <-] | []]. discriminate.
  - reflexivity.
  - reflexivity.
Defined.

(** ** The accounts file *)

Lemma universal_newlines_id (text : str) :
  ~ In (chr 13) text -> Accounts.universal_newlines text = text.
Proof.
  induction text as [| c text IH]; simpl; [done |].
  intros Hnot. destruct (Ascii.eqb_spec c (ascii_of_pos 13)) as [-> | Hne]; [tauto |].
  f_equal. apply IH. tauto.
Qed.

Lemma readlines_line (body rest : str) :
  ~ In (chr 10) body ->
  Accounts.readlines (body ++ chr 10 :: rest)
  = (body ++ [chr 10]) :: Accounts.readlines rest.
Proof.
  induction body as [| c body IH]; intros Hnot; simpl.
  - done.
  - destruct (Ascii.eqb_spec c (ascii_of_pos 10)) as [-> | Hne];
      [simpl in Hnot; tauto |].
    change (ascii_of_pos 10) with (chr 10).
    rewrite IH by (simpl in Hnot; tauto). done.
Qed.

Section AccountsFile.

Context {float : Type} (float_str : float -> str).

Lemma account_line_body (entry : str * Accounts.account float) :
  Accounts.account_line float_str entry = line_body float_str entry ++ [chr 10].
Proof.
  destruct entry as [u d]. unfold Accounts.account_line, line_body.
  cbn [fst snd]. by rewrite <- !app_assoc.
Qed.

Lemma line_body_no (c : ascii) (entry : str * Accounts.account float) :
  c <> ","%char -> c <> " "%char ->
  Forall (fun field => ~ In c field) (account_fields entry) ->
  ~ In c (float_str (Accounts.balance (snd entry))) ->
  ~ In c (line_body float_str entry).
Proof.
  intros Hc1 Hc2 Hf Hb. destruct entry as [u d]. unfold line_body. simpl in *.
  inversion Hf as [| ? ? Hu Hf1]; subst.
  inversion Hf1 as [| ? ? He Hf2]; subst.
  inversion Hf2 as [| ? ? Hp _]; subst.
  repeat (rewrite in_app_iff; simpl). intuition congruence.
Qed.

(** Accounts whose fields and printed balance have no line break are
    written one per line and read back line by line. *)
Lemma readlines_save (accounts : list (str * Accounts.account float)) :
  (forall x, one_line (float_str x)) ->
  Forall (fun entry => Forall one_line (account_fields entry)) accounts ->
  Accounts.readlines (Accounts.universal_newlines
                        (Accounts.save_accounts float_str accounts))
  = map (Accounts.account_line float_str) accounts.
Proof.
  intros Hfloat Hall. unfold Accounts.save_accounts.
  assert (Hbody : forall c, c = chr 10 \/ c = chr 13 ->
            Forall (fun entry => ~ In c (line_body float_str entry)) accounts).
  { intros c Hc. eapply Forall_impl; [exact Hall |]. intros entry Hentry.
    apply line_body_no.
    - destruct Hc as [-> | ->]; discriminate.
    - destruct Hc as [-> | ->]; discriminate.
    - eapply Forall_impl; [exact Hentry |]. intros field [H10 H13].
      by destruct Hc as [-> | ->].
    - destruct (Hfloat (Accounts.balance (snd entry))) as [H10 H13].
      by destruct Hc as [-> | ->]. }
  rewrite universal_newlines_id.
  - pose proof (Hbody (chr 10) (or_introl eq_refl)) as H10. clear Hbody Hall.
    induction H10 as [| entry accounts Hentry _ IH]; simpl; [done |].
    rewrite account_line_body, <- app_assoc. simpl.
    rewrite readlines_line by done. f_equal. exact IH.
  - pose proof (Hbody (chr 13) (or_intror eq_refl)) as H13. clear Hbody Hall.
    induction H13 as [| entry accounts Hentry _ IH]; simpl; [tauto |].
    rewrite account_line_body, !in_app_iff. simpl.
    intros [[H | [H | []]] | H]; [done | discriminate | done].
Qed.

End AccountsFile.

Lemma split_sep_no_sep (sep : ascii) (s : str) :
  ~ In sep s -> Builtins.split_sep sep s = [s].
Proof.
  induction s as [| c s IH]; simpl; [done |]. intros Hnot.
  destruct (Ascii.eqb_spec c sep) as [-> | Hne]; [tauto |].
  rewrite IH by tauto. done.
Qed.

Lemma length_split_sep (sep : ascii) (s : str) :
  length (Builtins.split_sep sep s) = S (count_occ ascii_dec s sep).
Proof.
  induction s as [| c s IH]; simpl; [done |].
  destruct (Ascii.eqb_spec c sep) as [-> | Hne].
  - destruct (ascii_dec sep sep); [| done]. simpl. by rewrite IH.
  - destruct (ascii_dec c sep); [done |].
    pose proof (split_sep_nonempty sep s).
    destruct (Builtins.split_sep sep s); [done |]. simpl in *. done.
Qed.

Lemma strip_cons_space (c : ascii) (s : str) :
  Str.isspace c = true -> Builtins.strip (c :: s) = Builtins.strip s.
Proof. intros Hc. unfold Builtins.strip. simpl. by rewrite Hc. Qed.

Lemma rstrip_snoc_space (s : str) (c : ascii) :
  Str.isspace c = true -> Builtins.rstrip (s ++ [c]) = Builtins.rstrip s.
Proof.
  intros Hc. induction s as [| d s IH]; simpl; [by rewrite Hc |].
  by rewrite IH.
Qed.

Lemma strip_snoc_space (s : str) (c : ascii) :
  Str.isspace c = true -> Builtins.strip (s ++ [c]) = Builtins.strip s.
Proof.
  intros Hc. unfold Builtins.strip. by rewrite !strip_comm, rstrip_snoc_space.
Qed.

(** The fields [load_accounts] reads from the line written for an
    account: the text fields and the printed balance, each stripped. *)
Lemma account_line_parts {float} (float_str : float -> str)
    (u : str) (d : Accounts.account float) :
  ~ In ","%char u -> ~ In ","%char (Accounts.email d) ->
  ~ In ","%char (Accounts.password d) ->
  ~ In ","%char (float_str (Accounts.balance d)) ->
  map Builtins.strip
    (Builtins.split_sep ","
       (Builtins.strip (Accounts.account_line float_str (u, d))))
  = [Builtins.strip u; Builtins.strip (Accounts.email d);
     Builtins.strip (Accounts.password d);
     Builtins.strip (float_str (Accounts.balance d))].
Proof.
  intros Hu He Hp Hb. rewrite split_sep_strip by reflexivity.
  assert (Hline : Accounts.account_line float_str (u, d)
            = u ++ ","%char ::
              ((" "%char :: Accounts.email d) ++ ","%char ::
               ((" "%char :: Accounts.password d) ++ ","%char ::
                (" "%char :: float_str (Accounts.balance d) ++ [chr 10]))))
    by reflexivity.
  rewrite Hline.
  rewrite split_sep_app, (split_sep_no_sep "," u Hu).
  rewrite split_sep_app, (split_sep_no_sep "," (" "%char :: Accounts.email d));
    [| simpl; intros [? | ?]; done].
  rewrite split_sep_app, (split_sep_no_sep "," (" "%char :: Accounts.password d));
    [| simpl; intros [? | ?]; done].
  rewrite split_sep_no_sep.
  - cbn [app map]. rewrite !strip_cons_space by reflexivity.
    by rewrite strip_snoc_space.
  - simpl. rewrite in_app_iff. simpl. intros [? | [? | [? | []]]]; done.
Qed.

Lemma load_account_line {float} (float_str : float -> str)
    (float_of_str : str -> option float)
    (accounts : list (str * Accounts.account float))
    (u : str) (d : Accounts.account float) :
  Forall plain_field (account_fields (u, d)) ->
  plain_field (float_str (Accounts.balance d)) ->
  float_of_str (float_str (Accounts.balance d)) = Some (Accounts.balance d) ->
  Accounts.load_line float_of_str accounts (Accounts.account_line float_str (u, d))
  = Ok (Assoc.setitem accounts u d).
Proof.
  intros Hf (Hbs & Hbc & _) Hround. unfold account_fields in Hf. simpl in Hf.
  inversion Hf as [| ? ? (Hus & Huc & _) Hf1]; subst.
  inversion Hf1 as [| ? ? (Hes & Hec & _) Hf2]; subst.
  inversion Hf2 as [| ? ? (Hps & Hpc & _) _]; subst.
  pose proof (account_line_parts float_str u d Huc Hec Hpc Hbc) as Hparts.
  unfold Accounts.load_line.
  destruct (bool_decide_reflect
              (Builtins.strip (Accounts.account_line float_str (u, d)) = []))
    as [Hnil | _].
  { rewrite Hnil in Hparts. discriminate. }
  rewrite Hparts, Hus, Hes, Hps, Hbs, Hround. by destruct d.
Qed.

Lemma assoc_setitem_new {V} (d : list (str * V)) (k : str) (v : V) :
  ~ In k (Assoc.keys d) -> Assoc.setitem d k v = d ++ [(k, v)].
Proof.
  induction d as [| [k' v'] d IH]; simpl; [done |].
  intros Hnot. destruct (decide (k' = k)) as [-> | Hne]; [tauto |].
  f_equal. apply IH. tauto.
Qed.

Lemma load_lines_saved {float} (float_str : float -> str)
    (float_of_str : str -> option float)
    (accounts : list (str * Accounts.account float)) :
  (forall x, plain_field (float_str x) /\ float_of_str (float_str x) = Some x) ->
  Forall (fun entry => Forall plain_field (account_fields entry)) accounts ->
  forall loaded, NoDup (Assoc.keys (loaded ++ accounts)) ->
  Accounts.load_lines float_of_str loaded
    (map (Accounts.account_line float_str) accounts)
  = Ok (loaded ++ accounts).
Proof.
  intros Hfloat. induction 1 as [| [u d] accounts Hentry _ IH]; intros loaded Hnd.
  - simpl. by rewrite app_nil_r.
  - cbn [map Accounts.load_lines].
    destruct (Hfloat (Accounts.balance d)) as [Hplain Hround].
    rewrite (load_account_line float_str float_of_str loaded u d Hentry Hplain Hround).
    assert (Hnew : ~ In u (Assoc.keys loaded)).
    { unfold Assoc.keys in Hnd. rewrite map_app in Hnd. simpl in Hnd.
      apply NoDup_app in Hnd as (_ & Hdisj & _). intros Hin.
      apply (Hdisj u); [by apply list_elem_of_In | by left]. }
    rewrite assoc_setitem_new by done.
    rewrite IH; [by rewrite <- app_assoc | by rewrite <- app_assoc].
Qed.

(** X15: an account store whose usernames, e-mail addresses and
    passwords have no whitespace at either end, no comma and no line
    break is read back by [load_accounts] exactly as [save_accounts]
    wrote it, in the same order, given that printing a balance and
    reading it back gives the balance. *)
Theorem load_save_accounts {float} (float_str : float -> str)
    (float_of_str : str -> option float)
    (accounts : list (str * Accounts.account float)) :
  (forall x, plain_field (float_str x) /\ float_of_str (float_str x) = Some x) ->
  NoDup (Assoc.keys accounts) ->
  Forall (fun entry => Forall plain_field (account_fields entry)) accounts ->
  Accounts.load_accounts float_of_str
    (Some (Accounts.save_accounts float_str accounts)) = Ok accounts.
Proof.
  intros Hfloat Hnd Hall. unfold Accounts.load_accounts.
  assert (Hone : forall x, one_line (float_str x)).
  { intros x. by destruct (Hfloat x) as [(_ & _ & ?) _]. }
  assert (Hlines : Forall (fun entry => Forall one_line (account_fields entry))
                     accounts).
  { eapply Forall_impl; [exact Hall |]. intros entry Hentry.
    eapply Forall_impl; [exact Hentry |]. by intros field (_ & _ & ?). }
  rewrite (readlines_save float_str accounts Hone Hlines).
  by apply (load_lines_saved float_str float_of_str accounts Hfloat Hall []).
Qed.

Ltac plain_field_tac :=
  repeat match goal with
         | |- Forall _ _ => constructor
         | |- plain_field _ => split; [vm_compute; reflexivity |]
         | |- one_line _ => split
         | |- _ /\ _ => split
         | |- ~ In _ _ => vm_compute; intuition discriminate
         end.

Lemma load_save_accounts_witness :
  Accounts.load_accounts
    (fun s => if bool_decide (s = py "0.0") then Some tt else None)
    (Some (Accounts.save_accounts (fun _ : unit => py "0.0")
             [(py "ann", Accounts.Build_account (py "ann@x.org") (py "s3cret pass") tt);
              (py "bob b", Accounts.Build_account (py "") (py "pw") tt)]))
  = Ok [(py "ann", Accounts.Build_account (py "ann@x.org") (py "s3cret pass") tt);
        (py "bob b", Accounts.Build_account (py "") (py "pw") tt)].
Proof.
  apply (load_save_accounts (fun _ : unit => py "0.0")
           (fun s => if bool_decide (s = py "0.0") then Some tt else None)).
  - intros []. split; [plain_field_tac | reflexivity].
  - apply NoDup_ListNoDup. repeat constructor; simpl.
    + intros [? | []]. discriminate.
    + tauto.
  - unfold account_fields. simpl. plain_field_tac.
Defined.

Lemma load_lines_app {float} (float_of_str : str -> option float)
    (lines1 lines2 : list str) :
  forall accounts,
  Accounts.load_lines float_of_str accounts (lines1 ++ lines2)
  = match Accounts.load_lines float_of_str accounts lines1 with
    | Ok accounts' => Accounts.load_lines float_of_str accounts' lines2
    | Raise e => Raise e
    end.
Proof.
  induction lines1 as [| line lines1 IH]; intros accounts; simpl; [done |].
  destruct (Accounts.load_line float_of_str accounts line); [apply IH | done].
Qed.

(** A line with more than three commas is not an account. *)
Lemma load_line_commas {float} (float_of_str : str -> option float)
    (accounts : list (str * Accounts.account float)) (line : str) :
  (3 < count_occ ascii_dec line ","%char)%nat ->
  Accounts.load_line float_of_str accounts line = Ok accounts.
Proof.
  intros Hcount. unfold Accounts.load_line.
  destruct (bool_decide _); [done |].
  assert (Hlen : (4 < length (map Builtins.strip
                                (Builtins.split_sep "," (Builtins.strip line))))%nat).
  { rewrite split_sep_strip by reflexivity.
    rewrite length_map, length_split_sep. lia. }
  destruct (map Builtins.strip _) as [| a [| b [| c [| d [| e parts]]]]];
    simpl in Hlen; try lia; done.
Qed.

Lemma count_comma_field (a rest : str) :
  count_occ ascii_dec (a ++ ","%char :: " "%char :: rest) ","%char
  = (count_occ ascii_dec a ","%char + S (count_occ ascii_dec rest ","%char))%nat.
Proof.
  rewrite count_occ_app. cbn [count_occ].
  destruct (ascii_dec "," ","); [| done].
  destruct (ascii_dec " " ","); [discriminate | done].
Qed.

Lemma count_account_line {float} (float_str : float -> str)
    (u : str) (d : Accounts.account float) :
  Exists (fun field => In ","%char field) (account_fields (u, d)) ->
  (3 < count_occ ascii_dec (Accounts.account_line float_str (u, d)) ","%char)%nat.
Proof.
  intros Hex.
  assert (Hline : Accounts.account_line float_str (u, d)
            = u ++ ","%char :: " "%char ::
              Accounts.email d ++ ","%char :: " "%char ::
              Accounts.password d ++ ","%char :: " "%char ::
              float_str (Accounts.balance d) ++ [chr 10])
    by reflexivity.
  rewrite Hline, !count_comma_field.
  assert (Hsome : (0 < count_occ ascii_dec u ","%char
                       + count_occ ascii_dec (Accounts.email d) ","%char
                       + count_occ ascii_dec (Accounts.password d) ","%char)%nat).
  { unfold account_fields in Hex. simpl in Hex.
    apply Exists_cons in Hex as [H | Hex];
      [apply (count_occ_In ascii_dec) in H; lia |].
    apply Exists_cons in Hex as [H | Hex];
      [apply (count_occ_In ascii_dec) in H; lia |].
    apply Exists_cons in Hex as [H | Hex];
      [apply (count_occ_In ascii_dec) in H; lia |].
    by apply Exists_nil in Hex. }
  lia.
Qed.

(** X16: an account with a comma in its username, e-mail address or
    password is not read back: the text that [save_accounts] writes is
    loaded as if that account had never been saved, the other accounts
    being read as before.  (No field holds a line break.) *)
Theorem load_save_accounts_comma {float} (float_str : float -> str)
    (float_of_str : str -> option float)
    (before after : list (str * Accounts.account float))
    (u : str) (d : Accounts.account float) :
  (forall x, one_line (float_str x)) ->
  Forall (fun entry => Forall one_line (account_fields entry))
         (before ++ (u, d) :: after) ->
  Exists (fun field => In ","%char field) (account_fields (u, d)) ->
  Accounts.load_accounts float_of_str
    (Some (Accounts.save_accounts float_str (before ++ (u, d) :: after)))
  = Accounts.load_accounts float_of_str
      (Some (Accounts.save_accounts float_str (before ++ after))).
Proof.
  intros Hone Hall Hcomma. unfold Accounts.load_accounts.
  assert (Hall' : Forall (fun entry => Forall one_line (account_fields entry))
                    (before ++ after)).
  { apply Forall_app in Hall as [Hb Ha]. apply Forall_app. split; [done |].
    by inversion Ha. }
  rewrite (readlines_save float_str _ Hone Hall).
  rewrite (readlines_save float_str _ Hone Hall').
  rewrite !map_app, !load_lines_app.
  destruct (Accounts.load_lines float_of_str [] _) as [loaded | e]; [| done].
  cbn [map Accounts.load_lines].
  rewrite load_line_commas; [done |]. by apply count_account_line.
Qed.

Lemma load_save_accounts_comma_witness :
  Accounts.load_accounts
    (fun s => if bool_decide (s = py "0.0") then Some tt else None)
    (Some (Accounts.save_accounts (fun _ : unit => py "0.0")
             ([(py "ann", Accounts.Build_account (py "ann@x.org") (py "s3cret") tt)]
              ++ (py "bob", Accounts.Build_account (py "b@x.org") (py "dKF^7M%ah,0=To7]") tt)
              :: [])))
  = Accounts.load_accounts
      (fun s => if bool_decide (s = py "0.0") then Some tt else None)
      (Some (Accounts.save_accounts (fun _ : unit => py "0.0")
               ([(py "ann", Accounts.Build_account (py "ann@x.org") (py "s3cret") tt)]
                ++ []))).
Proof.
  apply (load_save_accounts_comma (fun _ : unit => py "0.0")).
  - intros _. plain_field_tac.
  - unfold account_fields. simpl. plain_field_tac.
  - unfold account_fields. simpl. right. right. left.
    vm_compute. tauto.
Defined.

(** ** Signing up *)

Lemma read_username_spec {float} (accounts : list (str * Accounts.account float))
    (inputs rest : list str) (username : str) :
  Accounts.read_username accounts inputs = Ok (username, rest) ->
  username <> [] /\ Builtins.strip username = username /\
  ~ In username (Assoc.keys accounts).
Proof.
  induction inputs as [| line inputs IH]; simpl; [done |].
  destruct (bool_decide_reflect (Builtins.strip line = [])) as [| Hne]; [done |].
  destruct (Assoc.getitem accounts (Builtins.strip line)) as [d |] eqn:Hget;
    simpl; [done |].
  intros [= <- <-]. split; [done |]. split; [apply strip_idemp |].
  intros Hin. apply (in_map_iff fst) in Hin as ([k d] & Hk & Hin).
  simpl in Hk. subst k.
  clear IH Hne. induction accounts as [| [k' d'] accounts IH]; simpl in *; [done |].
  destruct (decide (k' = Builtins.strip line)) as [| Hk']; [done |].
  destruct Hin as [[= -> _] | Hin]; [done | by apply IH].
Qed.

Lemma read_email_spec {float} (accounts : list (str * Accounts.account float))
    (inputs rest : list str) (address : str) :
  Accounts.read_email accounts inputs = Ok (address, rest) ->
  address <> [] /\
  forall k d, In (k, d) accounts -> Accounts.email d <> address.
Proof.
  induction inputs as [| line inputs IH]; simpl; [done |].
  destruct (bool_decide_reflect (Builtins.strip line = [])) as [| Hne]; [done |].
  destruct (existsb _ accounts) eqn:Hex; [done |].
  intros [= <- <-]. split; [done |]. intros k d Hin Heq.
  assert (Htrue : existsb
            (fun entry : str * Accounts.account float =>
               bool_decide (Accounts.email (snd entry) = Builtins.strip line))
            accounts = true).
  { apply existsb_exists. exists (k, d). split; [done |].
    by apply bool_decide_eq_true_2. }
  congruence.
Qed.

Lemma read_typed_password_spec (inputs rest : list str) (typed : str) :
  Accounts.read_typed_password inputs = Ok (typed, rest) ->
  Utility.validate_password typed = true /\ Builtins.strip typed = typed.
Proof.
  induction inputs as [| line inputs IH]; simpl; [done |].
  destruct (Utility.validate_password (Builtins.strip line)) eqn:Hv; [| done].
  intros [= <- <-]. split; [done | apply strip_idemp].
Qed.

Lemma read_password_spec (draw : nat -> nat) (inputs rest : list str)
    (k k' : nat) (pass : str) :
  Accounts.read_password draw inputs k = Ok (pass, rest, k') ->
  Utility.validate_password pass = true /\ Builtins.strip pass = pass.
Proof.
  induction inputs as [| line inputs IH]; simpl; [done |].
  destruct (bool_decide _).
  - destruct (Accounts.read_typed_password inputs) as [[typed rest'] |] eqn:Hread;
      [| done].
    intros [= <- <- <-]. by apply (read_typed_password_spec inputs rest').
  - destruct (bool_decide _); [| done].
    destruct (generate_password_valid_iff draw 16 k) as (pw & k1 & Hrun & Hvalid).
    destruct (generate_password_alphabet draw 16 k) as (pw' & k2 & Hrun' & Hall).
    rewrite Hrun in Hrun'. injection Hrun' as <- <-.
    rewrite Hrun. intros [= <- <- <-]. split; [by apply Hvalid |].
    apply strip_no_space. eapply Forall_impl; [exact Hall |].
    intros c. apply password_alphabet_no_space.
Qed.

(** What a successful [sign_up] has done. *)
Lemma sign_up_spec {float} (float_str : float -> str) (float_zero : float)
    (draw : nat -> nat) (accounts accounts' : list (str * Accounts.account float))
    (inputs rest : list str) (k k' : nat) (text : str) :
  Accounts.sign_up float_str float_zero draw accounts inputs k
  = Ok (accounts', text, rest, k') ->
  exists username data,
    accounts' = accounts ++ [(username, data)] /\
    text = Accounts.save_accounts float_str accounts' /\
    username <> [] /\ Builtins.strip username = username /\
    ~ In username (Assoc.keys accounts) /\
    Accounts.email data <> [] /\
    (forall k d, In (k, d) accounts -> Accounts.email d <> Accounts.email data) /\
    Utility.validate_password (Accounts.password data) = true /\
    Builtins.strip (Accounts.password data) = Accounts.password data /\
    Accounts.balance data = float_zero.
Proof.
  unfold Accounts.sign_up.
  destruct (Accounts.read_username accounts inputs) as [[username in1] |] eqn:Hu;
    [| done].
  destruct (Accounts.read_email accounts in1) as [[address in2] |] eqn:He; [| done].
  destruct (Accounts.read_password draw in2 k) as [[[pass in3] k3] |] eqn:Hp;
    [| done].
  intros [= <- <- <- <-].
  apply read_username_spec in Hu as (Hu1 & Hu2 & Hu3).
  apply read_email_spec in He as (He1 & He2).
  apply read_password_spec in Hp as (Hp1 & Hp2).
  eexists username, _. rewrite (assoc_setitem_new accounts username _ Hu3).
  split; [reflexivity |]. simpl. by repeat split.
Qed.

(** X17: when [sign_up] returns, it has added one account at the end of
    the store and changed no other: the new username is not empty, has
    no whitespace around it and was not taken; the e-mail address is not
    empty and was not registered; the password, typed or generated, is
    one that [validate_password] accepts; the balance is [0.0]; and the
    text written to the accounts file is that of the new store. *)
Theorem sign_up_adds_account {float} (float_str : float -> str)
    (float_zero : float) (draw : nat -> nat)
    (accounts accounts' : list (str * Accounts.account float))
    (inputs rest : list str) (k k' : nat) (text : str) :
  Accounts.sign_up float_str float_zero draw accounts inputs k
  = Ok (accounts', text, rest, k') ->
  exists username data,
    accounts' = accounts ++ [(username, data)] /\
    text = Accounts.save_accounts float_str accounts' /\
    username <> [] /\ Builtins.strip username = username /\
    ~ In username (Assoc.keys accounts) /\
    Accounts.email data <> [] /\
    (forall k d, In (k, d) accounts -> Accounts.email d <> Accounts.email data) /\
    Utility.validate_password (Accounts.password data) = true /\
    Builtins.strip (Accounts.password data) = Accounts.password data /\
    Accounts.balance data = float_zero.
Proof. apply sign_up_spec. Qed.

Lemma sign_up_adds_account_witness :
  exists username data,
    [(py "ann", Accounts.Build_account (py "ann@x.org") (py "s3cret") tt);
     (py "bob", Accounts.Build_account (py "bob@x.org") (py "Very-Long-Passw0rd-Here") tt)]
    = [(py "ann", Accounts.Build_account (py "ann@x.org") (py "s3cret") tt)]
      ++ [(username, data)] /\
    Accounts.save_accounts (fun _ : unit => py "0.0")
      [(py "ann", Accounts.Build_account (py "ann@x.org") (py "s3cret") tt);
       (py "bob", Accounts.Build_account (py "bob@x.org") (py "Very-Long-Passw0rd-Here") tt)]
    = Accounts.save_accounts (fun _ : unit => py "0.0")
        [(py "ann", Accounts.Build_account (py "ann@x.org") (py "s3cret") tt);
         (py "bob", Accounts.Build_account (py "bob@x.org") (py "Very-Long-Passw0rd-Here") tt)] /\
    username <> [] /\ Builtins.strip username = username /\
    ~ In username
        (Assoc.keys [(py "ann", Accounts.Build_account (py "ann@x.org") (py "s3cret") tt)]) /\
    Accounts.email data <> [] /\
    (forall k d,
       In (k, d) [(py "ann", Accounts.Build_account (py "ann@x.org") (py "s3cret") tt)] ->
       Accounts.email d <> Accounts.email data) /\
    Utility.validate_password (Accounts.password data) = true /\
    Builtins.strip (Accounts.password data) = Accounts.password data /\
    Accounts.balance data = tt.
Proof.
  apply (sign_up_adds_account (fun _ : unit => py "0.0") tt (fun k => k * 7 + 3)%nat
           [(py "ann", Accounts.Build_account (py "ann@x.org") (py "s3cret") tt)] _
           [py "bob"; py " bob@x.org"; py "1"; py "short";
            py " Very-Long-Passw0rd-Here  "; py "next"]
           [py "next"] 0 0).
  vm_compute. reflexivity.
Defined.

Lemma find_account_new {float} (accounts : list (str * Accounts.account float))
    (username : str) (data : Accounts.account float) :
  ~ In username (Assoc.keys accounts) ->
  (forall k d, In (k, d) accounts -> Accounts.email d <> username) ->
  Accounts.find_account (accounts ++ [(username, data)]) username = Some username.
Proof.
  induction accounts as [| [k d] accounts IH]; simpl; intros Hnew Hmail.
  - by rewrite bool_decide_eq_true_2.
  - rewrite bool_decide_eq_false_2 by tauto.
    rewrite bool_decide_eq_false_2 by (eapply Hmail; by left).
    simpl. apply IH; [tauto |]. intros k' d' Hin. apply (Hmail k' d'). by right.
Qed.

Lemma assoc_getitem_new {V} (d : list (str * V)) (k : str) (v : V) :
  ~ In k (Assoc.keys d) -> Assoc.getitem (d ++ [(k, v)]) k = Some v.
Proof.
  induction d as [| [k' v'] d IH]; simpl; intros Hnew.
  - by rewrite decide_True.
  - rewrite decide_False by tauto. apply IH. tauto.
Qed.

(** X18: after a successful [sign_up], typing the new username and the
    new password, with any whitespace around them, signs the user in,
    provided no account registered earlier has the new username as its
    e-mail address. *)
Theorem sign_up_then_sign_in {float} (float_str : float -> str)
    (float_zero : float) (draw : nat -> nat)
    (accounts accounts' : list (str * Accounts.account float))
    (inputs rest : list str) (k k' : nat) (text : str) :
  Accounts.sign_up float_str float_zero draw accounts inputs k
  = Ok (accounts', text, rest, k') ->
  exists username data,
    accounts' = accounts ++ [(username, data)] /\
    ((forall k d, In (k, d) accounts -> Accounts.email d <> username) ->
     forall line line2 rest2,
       Builtins.strip line = username ->
       Builtins.strip line2 = Accounts.password data ->
       Accounts.sign_in accounts' (line :: line2 :: rest2)
       = Ok (Some username, rest2)).
Proof.
  intros Hrun.
  destruct (sign_up_spec _ _ _ _ _ _ _ _ _ _ Hrun)
    as (username & data & -> & _ & Hne & _ & Hnew & _).
  exists username, data. split; [done |].
  intros Hmail line line2 rest2 Hline Hline2. unfold Accounts.sign_in.
  rewrite Hline, (find_account_new accounts username data Hnew Hmail).
  rewrite bool_decide_eq_false_2 by done.
  rewrite (assoc_getitem_new accounts username data Hnew), Hline2.
  by rewrite bool_decide_eq_true_2.
Qed.

Lemma sign_up_then_sign_in_witness :
  exists username data,
    [(py "ann", Accounts.Build_account (py "ann@x.org") (py "s3cret") tt);
     (py "bob", Accounts.Build_account (py "bob@x.org") (py "dKF^7M%ah,0=To7]") tt)]
    = [(py "ann", Accounts.Build_account (py "ann@x.org") (py "s3cret") tt)]
      ++ [(username, data)] /\
    ((forall k d,
        In (k, d) [(py "ann", Accounts.Build_account (py "ann@x.org") (py "s3cret") tt)] ->
        Accounts.email d <> username) ->
     forall line line2 rest2,
       Builtins.strip line = username ->
       Builtins.strip line2 = Accounts.password data ->
       Accounts.sign_in
         [(py "ann", Accounts.Build_account (py "ann@x.org") (py "s3cret") tt);
          (py "bob", Accounts.Build_account (py "bob@x.org") (py "dKF^7M%ah,0=To7]") tt)]
         (line :: line2 :: rest2)
       = Ok (Some username, rest2)).
Proof.
  apply (sign_up_then_sign_in (fun _ : unit => py "0.0") tt (fun k => k * 7 + 3)%nat
           [(py "ann", Accounts.Build_account (py "ann@x.org") (py "s3cret") tt)] _
           [py ""; py " ann "; py "bob"; py "ann@x.org"; py " bob@x.org";
            py "3"; py "2"; py "next"]
           [py "next"] 0 31
           (Accounts.save_accounts (fun _ : unit => py "0.0")
              [(py "ann", Accounts.Build_account (py "ann@x.org") (py "s3cret") tt);
               (py "bob", Accounts.Build_account (py "bob@x.org") (py "dKF^7M%ah,0=To7]") tt)])).
  vm_compute. reflexivity.
Defined.

(** X19: [sign_up] keeps usernames pairwise distinct and e-mail
    addresses pairwise distinct. *)
Theorem sign_up_keeps_distinct {float} (float_str : float -> str)
    (float_zero : float) (draw : nat -> nat)
    (accounts accounts' : list (str * Accounts.account float))
    (inputs rest : list str) (k k' : nat) (text : str) :
  NoDup (Assoc.keys accounts) -> NoDup (emails accounts) ->
  Accounts.sign_up float_str float_zero draw accounts inputs k
  = Ok (accounts', text, rest, k') ->
  NoDup (Assoc.keys accounts') /\ NoDup (emails accounts').
Proof.
  intros Hkeys Hmails Hrun.
  destruct (sign_up_spec _ _ _ _ _ _ _ _ _ _ Hrun)
    as (username & data & -> & _ & _ & _ & Hnew & _ & Hmail & _).
  unfold Assoc.keys, emails in *. rewrite !map_app. simpl. split.
  - apply NoDup_app. split; [done |]. split; [| apply NoDup_singleton].
    intros x Hx Hx'. apply list_elem_of_singleton in Hx'. subst.
    by apply list_elem_of_In in Hx.
  - apply NoDup_app. split; [done |]. split; [| apply NoDup_singleton].
    intros x Hx Hx'. apply list_elem_of_singleton in Hx'. subst.
    apply list_elem_of_In, in_map_iff in Hx as ([k0 d0] & Heq & Hin).
    by apply (Hmail k0 d0).
Qed.

Lemma sign_up_keeps_distinct_witness :
  NoDup (Assoc.keys
           [(py "ann", Accounts.Build_account (py "ann@x.org") (py "s3cret") tt);
            (py "bob", Accounts.Build_account (py "bob@x.org") (py "Very-Long-Passw0rd-Here") tt)]) /\
  NoDup (emails
           [(py "ann", Accounts.Build_account (py "ann@x.org") (py "s3cret") tt);
            (py "bob", Accounts.Build_account (py "bob@x.org") (py "Very-Long-Passw0rd-Here") tt)]).
Proof.
  apply (sign_up_keeps_distinct (fun _ : unit => py "0.0") tt (fun k => k * 7 + 3)%nat
           [(py "ann", Accounts.Build_account (py "ann@x.org") (py "s3cret") tt)] _
           [py "bob"; py " bob@x.org"; py "1"; py "short";
            py " Very-Long-Passw0rd-Here  "; py "next"]
           [py "next"] 0 0
           (Accounts.save_accounts (fun _ : unit => py "0.0")
              [(py "ann", Accounts.Build_account (py "ann@x.org") (py "s3cret") tt);
               (py "bob", Accounts.Build_account (py "bob@x.org") (py "Very-Long-Passw0rd-Here") tt)])).
  - repeat constructor. by intros ?%elem_of_nil.
  - repeat constructor. by intros ?%elem_of_nil.
  - vm_compute. reflexivity.
Defined.

(** An account signed up with a generated password that holds a comma is
    written to the file and not read back. *)
Example sign_up_comma_lost :
  match Accounts.sign_up (fun _ : unit => py "0.0") tt (fun k => k * 7 + 3)%nat
          [(py "ann", Accounts.Build_account (py "ann@x.org") (py "s3cret") tt)]
          [py "bob"; py "bob@x.org"; py "2"] 0 with
  | Ok (accounts', text, _, _) =>
      map fst accounts' = [py "ann"; py "bob"] /\
      Accounts.load_accounts
        (fun s => if bool_decide (s = py "0.0") then Some tt else None)
        (Some text)
      = Ok [(py "ann", Accounts.Build_account (py "ann@x.org") (py "s3cret") tt)]
  | Raise _ => False
  end.
Proof. vm_compute. split; reflexivity. Qed.

(** ** The query typed in [search_items] *)

Lemma split_lstrip (q : str) : Str.split (Builtins.lstrip q) = Str.split q.
Proof.
  unfold Str.split. induction q as [| c q IH]; [done |].
  simpl Builtins.lstrip. destruct (Str.isspace c) eqn:Hc; [| done].
  rewrite IH. simpl. by rewrite Hc.
Qed.

Lemma rstrip_tail (q : str) :
  exists ws, q = Builtins.rstrip q ++ ws /\ all_space ws.
Proof.
  induction q as [| c q (ws & Hq & Hws)]; simpl.
  - exists []. split; [done | constructor].
  - destruct (Builtins.rstrip q) as [| d r] eqn:Hr.
    + simpl in Hq. destruct (Str.isspace c) eqn:Hc.
      * exists (c :: q). split; [done |]. rewrite Hq. by constructor.
      * exists ws. split; [| done]. simpl. by rewrite <- Hq.
    + exists ws. split; [| done]. simpl. f_equal. exact Hq.
Qed.

Lemma split_from_trailing_space (ws : str) :
  all_space ws -> forall word s,
  Str.split_from word (s ++ ws) = Str.split_from word s.
Proof.
  intros Hws word s. destruct Hws as [| w ws Hw Hws].
  - by rewrite app_nil_r.
  - rewrite (split_from_app_space w ws Hw).
    change (Str.split_from [] ws) with (Str.split ws).
    by rewrite (split_all_space ws Hws), app_nil_r.
Qed.

Lemma split_strip (q : str) : Str.split (Builtins.strip q) = Str.split q.
Proof.
  unfold Builtins.strip. rewrite <- (split_lstrip q).
  destruct (rstrip_tail (Builtins.lstrip q)) as (ws & Hq & Hws).
  rewrite Hq at 2. unfold Str.split.
  by rewrite (split_from_trailing_space ws Hws).
Qed.

(** X20: [search_items] strips the query before it searches; the search
    returns the same result for a query and for the query stripped,
    because whitespace around the query makes no term. *)
Theorem search_inventory_stripped_query (q : str) (inventory : Main.dict) :
  Main.search_inventory (Builtins.strip q) inventory
  = Main.search_inventory q inventory.
Proof.
  unfold Main.search_inventory. by rewrite split_strip.
Qed.
